(** * iota-transport-tcp: the TCP transport of the IOTA gateway

    A shallow embedding of [TcpTransport] (the later revision of
    [tcp-transport.ts], with the port handshake, the receive-socket table and
    the [receiveUnknownNeighbor] flag) and the properties of its connection
    life cycle.

    Conventions of the embedding:
    - a JavaScript [Set] is a duplicate-free list in insertion order, a
      JavaScript [Map] keyed by neighbor objects is a [gmap];
    - an [async] method is cut at its [await]s into synchronous segments; the
      outcome of what is awaited (a connect, a close, a write callback) is
      an argument supplied by the environment;
    - every observable action on the outside world (a socket write, a
      destroy, an emitted event, an armed timer) is appended to a trace. *)

From Stdlib Require Import Ascii String NArith ZArith Lia.
From stdpp Require Import gmap strings list fin_maps.

Local Open Scope N_scope.

(** ** Text and buffers *)

(** A [Buffer] is a list of bytes; a JavaScript string whose characters are
    all below U+0080 has the same bytes in UTF-8, so both are [list ascii]. *)
Abbreviation text := (list ascii).

Definition txt (s : string) : text := list_ascii_of_string s.

Definition is_digit (c : ascii) : bool :=
  let n := N_of_ascii c in (48 <=? n) && (n <=? 57).

Definition digit_char (d : N) : ascii := ascii_of_N (48 + d).

Definition digit_val (c : ascii) : N := N_of_ascii c - 48.

(** [String(n)] for a non-negative integer [n] below [2^53]: its decimal
    digits, least significant first in [decimal_rev]. Larger numbers are
    outside what this definition stands for (JavaScript rounds them, and
    prints an exponent from [10^21] on); a port, and every statement below
    about the port packet, stays under [10^10]. *)
Fixpoint decimal_rev (fuel : nat) (n : N) : text :=
  match fuel with
  | O => []
  | S f => digit_char (n mod 10) ::
           (if n / 10 =? 0 then [] else decimal_rev f (n / 10))
  end.

Definition String_of_number (n : N) : text :=
  rev (decimal_rev (S (N.to_nat (N.log2 n))) n).

(** [str.padStart(len, c)]: strings already [len] long or longer are returned
    unchanged. *)
Definition padStart (len : nat) (c : ascii) (s : text) : text :=
  replicate (len - length s) c ++ s.

(** [Number(str)] on a string of decimal digits; the code reads it on ten
    digits only. *)
Definition Number_of_digits (s : text) : N :=
  fold_left (fun acc c => 10 * acc + digit_val c) s 0.

(** The test of [_receiveConnection] on the first payload:
    [portString.length !== 10 || !(/^[0-9]{10}$/).test(portString)]. *)
Definition regex_ten_digits (s : text) : bool :=
  (length s =? 10)%nat && forallb is_digit s.

Definition incorrect_port (portString : text) : bool :=
  negb (length portString =? 10)%nat || negb (regex_ten_digits portString).

(** The port packet of [_connect]:
    [new Buffer(String(this._port).padStart(10, '0'), 'utf8')]. *)
Definition portPacket (port : N) : text :=
  padStart 10 "0"%char (String_of_number port).

(** ** Neighbors *)

(** A [TcpNeighbor] object. Neighbors are compared by object identity in the
    transport's [Set]s and [Map]s; [nid] is that identity: [inl k] for an
    object made by the host application, [inr k] for the [k]-th object made
    by the transport itself ([new TcpNeighbor] in [_receiveConnection]). *)
Record TcpNeighbor := {
  nid : nat + nat;
  host : string;
  port : N;
  gatewayCanSendTo : bool;
  gatewayCanReceiveFrom : bool
}.

#[global] Instance TcpNeighbor_eq_dec : EqDecision TcpNeighbor.
Proof. solve_decision. Defined.

#[global] Instance TcpNeighbor_countable : Countable TcpNeighbor.
Proof.
  refine (inj_countable'
    (fun n => (nid n, host n, port n, gatewayCanSendTo n, gatewayCanReceiveFrom n))
    (fun t => match t with (i, h, p, s, r) =>
       {| nid := i; host := h; port := p;
          gatewayCanSendTo := s; gatewayCanReceiveFrom := r |} end) _).
  intros []. reflexivity.
Defined.

(** [neighbor.address]: the getter the transport uses as the host to connect
    to and in its error messages. *)
Definition address (n : TcpNeighbor) : string := host n.

(** Modelled from the spec: [tcp-neighbor.ts] is not among the sources.
    [match(addr)] is case-sensitive equality of the host string with the
    given address. *)
Definition match_address (n : TcpNeighbor) (addr : string) : bool :=
  bool_decide (host n = addr).

(** Modelled from the spec: [new TcpNeighbor({ host, port })] as
    [_receiveConnection] calls it, with both permissions left at their
    default, which allows sending and receiving. *)
Definition new_TcpNeighbor (k : nat) (h : string) (p : N) : TcpNeighbor :=
  {| nid := inr k; host := h; port := p;
     gatewayCanSendTo := true; gatewayCanReceiveFrom := true |}.

(** ** JavaScript [Set] as an insertion-ordered list *)

Section JsSet.
Context {A : Type} `{EqDecision A}.

Definition set_has (x : A) (l : list A) : bool := bool_decide (x ∈ l).

Definition set_add (x : A) (l : list A) : list A :=
  if set_has x l then l else l ++ [x].

Definition set_delete (x : A) (l : list A) : list A :=
  filter (fun y => y ≠ x) l.

End JsSet.

(** ** Sockets, errors and effects *)

(** A socket the transport made itself ([new Socket], numbered in order of
    creation) or one the server accepted. *)
Inductive SocketRef := Outbound (k : nat) | Inbound (k : nat).

#[global] Instance SocketRef_eq_dec : EqDecision SocketRef.
Proof. solve_decision. Defined.

(** An accepted socket as the [connection] event hands it over. *)
Record Socket := {
  sid : nat;
  localAddress : string;
  remoteAddress : string
}.

(** [socket.address().address]. Node's [net.Socket#address()] returns the
    bound address of the socket, that is, its local end; the remote end is
    [socket.remoteAddress]. *)
Definition socket_address (s : Socket) : string := localAddress s.

Inductive Error :=
| AlreadyExists (a : string)
| NotFound (a : string)
| AlreadyRunning
| NotRunning
| SendForbidden (a : string)
| NotConnected (a : string)
| ClosedByNeighbor (a : string)
| IncorrectPort (portString : text)
| ConnectionClosed
| CouldntReceivePort
| SystemError (code : string).

#[global] Instance Error_eq_dec : EqDecision Error.
Proof. solve_decision. Defined.

(** How a promise ends. *)
Inductive Settled (A : Type) :=
| Resolved (a : A)
| Rejected (e : Error).
Arguments Resolved {A} a.
Arguments Rejected {A} e.

(** [resolve] and [reject] of a promise under construction: only the first
    call settles it. *)
Definition settle {A} (p : option (Settled A)) (r : Settled A) : option (Settled A) :=
  match p with
  | None => Some r
  | Some _ => p
  end.

(** What the environment answers to a connect, a destroy, a write, a listen,
    a server close and to waiting for the first payload. Every request is
    answered: in particular the callback of a write is always called, with
    or without an error. *)
Inductive ConnectOutcome :=
| Connect
| ConnectClose
| ConnectError (e : Error).

#[global] Instance ConnectOutcome_eq_dec : EqDecision ConnectOutcome.
Proof. solve_decision. Defined.

Inductive DisconnectOutcome :=
| Close
| ErrorThenClose (e : Error).

Inductive WriteOutcome :=
| Flushed
| WriteError (e : Error).

Inductive ServerOutcome :=
| ServerOk
| ServerError (e : Error).

Inductive HandshakeOutcome :=
| HandshakeData (portPacket : text)
| HandshakeError (e : Error)
| HandshakeClose
| HandshakeTimeout.

Section Transport.

(** The packet codec of [iota-gateway], external to this repository. *)
Context {Data : Type}.
Variable pack : Data -> text.
Variable unpack : text -> Data.
Variable packetSize : nat.

(** Events the transport emits to its listeners. *)
Inductive Event :=
| EvReceive (data : Data) (neighbor : TcpNeighbor) (address : string)
| EvNeighbor (neighbor : TcpNeighbor)
| EvError (e : Error).

Inductive Effect :=
| FxListen (host : string) (port : N)
| FxServerClose
| FxConnect (s : nat) (host : string) (port : N)
| FxWrite (s : SocketRef) (bytes : text)
| FxSilence (s : SocketRef)
| FxDestroy (s : SocketRef)
| FxEmit (ev : Event)
| FxSetTimeout (ms : N)
| FxClearTimeout.

(** ** The transport object

    The fields of the class, then what lives outside the object but decides
    its behaviour: the number of sockets and of neighbors made so far, the
    close handlers left on send sockets by [_initSendSocket], the handlers
    and the block stream left on receive sockets by [_initReceiveSocket],
    and the trace of effects. The three [_onServer...] slots are set and
    cleared together and are one flag. *)
Record TcpTransport := {
  _host : string;
  _port : N;
  _reconnectionInterval : N;
  _receiveUnknownNeighbor : bool;
  _isRunning : bool;
  _onServerConnection : bool;
  _neighbors : list TcpNeighbor;
  _reconnectionTimer : bool;
  _neighborsToReconnect : list TcpNeighbor;
  _sendSockets : gmap TcpNeighbor nat;
  _receiveSockets : gmap TcpNeighbor nat;
  sockets_made : nat;
  neighbors_made : nat;
  send_listeners : gmap nat TcpNeighbor;
  receive_listeners : gmap nat (TcpNeighbor * string * text);
  trace : list Effect
}.

(** Field updates: [set_x f t] is [t] with [f] applied to its field [x]. *)

Definition set_isRunning (f : bool -> bool)
    (t : TcpTransport) : TcpTransport :=
  {| _host := _host t; _port := _port t;
     _reconnectionInterval := _reconnectionInterval t;
     _receiveUnknownNeighbor := _receiveUnknownNeighbor t;
     _isRunning := f (_isRunning t);
     _onServerConnection := _onServerConnection t;
     _neighbors := _neighbors t; _reconnectionTimer := _reconnectionTimer t;
     _neighborsToReconnect := _neighborsToReconnect t;
     _sendSockets := _sendSockets t; _receiveSockets := _receiveSockets t;
     sockets_made := sockets_made t; neighbors_made := neighbors_made t;
     send_listeners := send_listeners t;
     receive_listeners := receive_listeners t; trace := trace t |}.

Definition set_onServerConnection (f : bool -> bool)
    (t : TcpTransport) : TcpTransport :=
  {| _host := _host t; _port := _port t;
     _reconnectionInterval := _reconnectionInterval t;
     _receiveUnknownNeighbor := _receiveUnknownNeighbor t;
     _isRunning := _isRunning t;
     _onServerConnection := f (_onServerConnection t);
     _neighbors := _neighbors t; _reconnectionTimer := _reconnectionTimer t;
     _neighborsToReconnect := _neighborsToReconnect t;
     _sendSockets := _sendSockets t; _receiveSockets := _receiveSockets t;
     sockets_made := sockets_made t; neighbors_made := neighbors_made t;
     send_listeners := send_listeners t;
     receive_listeners := receive_listeners t; trace := trace t |}.

Definition set_neighbors (f : (list TcpNeighbor) -> (list TcpNeighbor))
    (t : TcpTransport) : TcpTransport :=
  {| _host := _host t; _port := _port t;
     _reconnectionInterval := _reconnectionInterval t;
     _receiveUnknownNeighbor := _receiveUnknownNeighbor t;
     _isRunning := _isRunning t;
     _onServerConnection := _onServerConnection t;
     _neighbors := f (_neighbors t);
     _reconnectionTimer := _reconnectionTimer t;
     _neighborsToReconnect := _neighborsToReconnect t;
     _sendSockets := _sendSockets t; _receiveSockets := _receiveSockets t;
     sockets_made := sockets_made t; neighbors_made := neighbors_made t;
     send_listeners := send_listeners t;
     receive_listeners := receive_listeners t; trace := trace t |}.

Definition set_reconnectionTimer (f : bool -> bool)
    (t : TcpTransport) : TcpTransport :=
  {| _host := _host t; _port := _port t;
     _reconnectionInterval := _reconnectionInterval t;
     _receiveUnknownNeighbor := _receiveUnknownNeighbor t;
     _isRunning := _isRunning t;
     _onServerConnection := _onServerConnection t;
     _neighbors := _neighbors t;
     _reconnectionTimer := f (_reconnectionTimer t);
     _neighborsToReconnect := _neighborsToReconnect t;
     _sendSockets := _sendSockets t; _receiveSockets := _receiveSockets t;
     sockets_made := sockets_made t; neighbors_made := neighbors_made t;
     send_listeners := send_listeners t;
     receive_listeners := receive_listeners t; trace := trace t |}.

Definition set_neighborsToReconnect (f : (list TcpNeighbor) -> (list TcpNeighbor))
    (t : TcpTransport) : TcpTransport :=
  {| _host := _host t; _port := _port t;
     _reconnectionInterval := _reconnectionInterval t;
     _receiveUnknownNeighbor := _receiveUnknownNeighbor t;
     _isRunning := _isRunning t;
     _onServerConnection := _onServerConnection t;
     _neighbors := _neighbors t; _reconnectionTimer := _reconnectionTimer t;
     _neighborsToReconnect := f (_neighborsToReconnect t);
     _sendSockets := _sendSockets t; _receiveSockets := _receiveSockets t;
     sockets_made := sockets_made t; neighbors_made := neighbors_made t;
     send_listeners := send_listeners t;
     receive_listeners := receive_listeners t; trace := trace t |}.

Definition set_sendSockets (f : (gmap TcpNeighbor nat) -> (gmap TcpNeighbor nat))
    (t : TcpTransport) : TcpTransport :=
  {| _host := _host t; _port := _port t;
     _reconnectionInterval := _reconnectionInterval t;
     _receiveUnknownNeighbor := _receiveUnknownNeighbor t;
     _isRunning := _isRunning t;
     _onServerConnection := _onServerConnection t;
     _neighbors := _neighbors t; _reconnectionTimer := _reconnectionTimer t;
     _neighborsToReconnect := _neighborsToReconnect t;
     _sendSockets := f (_sendSockets t);
     _receiveSockets := _receiveSockets t; sockets_made := sockets_made t;
     neighbors_made := neighbors_made t; send_listeners := send_listeners t;
     receive_listeners := receive_listeners t; trace := trace t |}.

Definition set_receiveSockets (f : (gmap TcpNeighbor nat) -> (gmap TcpNeighbor nat))
    (t : TcpTransport) : TcpTransport :=
  {| _host := _host t; _port := _port t;
     _reconnectionInterval := _reconnectionInterval t;
     _receiveUnknownNeighbor := _receiveUnknownNeighbor t;
     _isRunning := _isRunning t;
     _onServerConnection := _onServerConnection t;
     _neighbors := _neighbors t; _reconnectionTimer := _reconnectionTimer t;
     _neighborsToReconnect := _neighborsToReconnect t;
     _sendSockets := _sendSockets t;
     _receiveSockets := f (_receiveSockets t);
     sockets_made := sockets_made t; neighbors_made := neighbors_made t;
     send_listeners := send_listeners t;
     receive_listeners := receive_listeners t; trace := trace t |}.

Definition set_sockets_made (f : nat -> nat)
    (t : TcpTransport) : TcpTransport :=
  {| _host := _host t; _port := _port t;
     _reconnectionInterval := _reconnectionInterval t;
     _receiveUnknownNeighbor := _receiveUnknownNeighbor t;
     _isRunning := _isRunning t;
     _onServerConnection := _onServerConnection t;
     _neighbors := _neighbors t; _reconnectionTimer := _reconnectionTimer t;
     _neighborsToReconnect := _neighborsToReconnect t;
     _sendSockets := _sendSockets t; _receiveSockets := _receiveSockets t;
     sockets_made := f (sockets_made t); neighbors_made := neighbors_made t;
     send_listeners := send_listeners t;
     receive_listeners := receive_listeners t; trace := trace t |}.

Definition set_neighbors_made (f : nat -> nat)
    (t : TcpTransport) : TcpTransport :=
  {| _host := _host t; _port := _port t;
     _reconnectionInterval := _reconnectionInterval t;
     _receiveUnknownNeighbor := _receiveUnknownNeighbor t;
     _isRunning := _isRunning t;
     _onServerConnection := _onServerConnection t;
     _neighbors := _neighbors t; _reconnectionTimer := _reconnectionTimer t;
     _neighborsToReconnect := _neighborsToReconnect t;
     _sendSockets := _sendSockets t; _receiveSockets := _receiveSockets t;
     sockets_made := sockets_made t; neighbors_made := f (neighbors_made t);
     send_listeners := send_listeners t;
     receive_listeners := receive_listeners t; trace := trace t |}.

Definition set_send_listeners (f : (gmap nat TcpNeighbor) -> (gmap nat TcpNeighbor))
    (t : TcpTransport) : TcpTransport :=
  {| _host := _host t; _port := _port t;
     _reconnectionInterval := _reconnectionInterval t;
     _receiveUnknownNeighbor := _receiveUnknownNeighbor t;
     _isRunning := _isRunning t;
     _onServerConnection := _onServerConnection t;
     _neighbors := _neighbors t; _reconnectionTimer := _reconnectionTimer t;
     _neighborsToReconnect := _neighborsToReconnect t;
     _sendSockets := _sendSockets t; _receiveSockets := _receiveSockets t;
     sockets_made := sockets_made t; neighbors_made := neighbors_made t;
     send_listeners := f (send_listeners t);
     receive_listeners := receive_listeners t; trace := trace t |}.

Definition set_receive_listeners (f : (gmap nat (TcpNeighbor * string * text)) -> (gmap nat (TcpNeighbor * string * text)))
    (t : TcpTransport) : TcpTransport :=
  {| _host := _host t; _port := _port t;
     _reconnectionInterval := _reconnectionInterval t;
     _receiveUnknownNeighbor := _receiveUnknownNeighbor t;
     _isRunning := _isRunning t;
     _onServerConnection := _onServerConnection t;
     _neighbors := _neighbors t; _reconnectionTimer := _reconnectionTimer t;
     _neighborsToReconnect := _neighborsToReconnect t;
     _sendSockets := _sendSockets t; _receiveSockets := _receiveSockets t;
     sockets_made := sockets_made t; neighbors_made := neighbors_made t;
     send_listeners := send_listeners t;
     receive_listeners := f (receive_listeners t); trace := trace t |}.

Definition set_trace (f : (list Effect) -> (list Effect))
    (t : TcpTransport) : TcpTransport :=
  {| _host := _host t; _port := _port t;
     _reconnectionInterval := _reconnectionInterval t;
     _receiveUnknownNeighbor := _receiveUnknownNeighbor t;
     _isRunning := _isRunning t;
     _onServerConnection := _onServerConnection t;
     _neighbors := _neighbors t; _reconnectionTimer := _reconnectionTimer t;
     _neighborsToReconnect := _neighborsToReconnect t;
     _sendSockets := _sendSockets t; _receiveSockets := _receiveSockets t;
     sockets_made := sockets_made t; neighbors_made := neighbors_made t;
     send_listeners := send_listeners t;
     receive_listeners := receive_listeners t; trace := f (trace t) |}.

Definition log (fx : Effect) (t : TcpTransport) : TcpTransport :=
  set_trace (fun tr => tr ++ [fx]) t.

(** [new TcpTransport(params)]. The port is taken as the non-negative
    integer a listening port is. *)
Definition new_TcpTransport (h : option string) (p : N) (interval : option N)
    (receiveUnknownNeighbor : bool) : TcpTransport :=
  {| _host := default "0.0.0.0"%string h; _port := p;
     _reconnectionInterval := default 60000 interval;
     _receiveUnknownNeighbor := receiveUnknownNeighbor;
     _isRunning := false; _onServerConnection := false;
     _neighbors := []; _reconnectionTimer := false;
     _neighborsToReconnect := [];
     _sendSockets := ∅; _receiveSockets := ∅;
     sockets_made := 0; neighbors_made := 0;
     send_listeners := ∅; receive_listeners := ∅;
     trace := [] |}.

(** ** Queries *)

Definition isRunning (t : TcpTransport) : bool := _isRunning t.

(** [this._sendSockets.has(neighbor)]. *)
Definition isConnectedTo (t : TcpTransport) (n : TcpNeighbor) : bool :=
  bool_decide (is_Some (_sendSockets t !! n)).

(** The loop [for (const neighbor of this._neighbors) if (neighbor.match(a))]:
    the first match in insertion order. *)
Definition getNeighbor (t : TcpTransport) (a : string) : option TcpNeighbor :=
  List.find (fun n => match_address n a) (_neighbors t).

(** ** Outbound connections *)

(** [socket.write(buffer, resolve)] inside [new Promise(resolve => ...)]:
    the write callback is the resolver itself, so a failed write resolves the
    promise with the error as its value. *)
Definition write_promise (w : WriteOutcome) : Settled (option Error) :=
  match w with
  | Flushed => Resolved None
  | WriteError e => Resolved (Some e)
  end.

(** [_initSendSocket]: leave the error and close handlers on the socket and
    register it as the neighbor's send socket. *)
Definition _initSendSocket (s : nat) (n : TcpNeighbor) (t : TcpTransport) : TcpTransport :=
  set_sendSockets (fun m => <[n := s]> m)
    (set_send_listeners (fun m => <[s := n]> m) t).

(** [_connect] up to its first [await]: a new socket and the connect call. *)
Definition _connect_begin (n : TcpNeighbor) (t : TcpTransport) : TcpTransport * nat :=
  let s := sockets_made t in
  (log (FxConnect s (address n) (port n)) (set_sockets_made S t), s).

(** [_connect] from the first socket event on. On [connect] the socket is
    registered and the port packet is written; the promise around that write
    resolves whatever the write callback receives. *)
Definition _connect_settle (n : TcpNeighbor) (s : nat) (o : ConnectOutcome)
    (w : WriteOutcome) (t : TcpTransport) : TcpTransport * Settled unit :=
  match o with
  | Connect =>
      let t1 := _initSendSocket s n t in
      let t2 := log (FxWrite (Outbound s) (portPacket (_port t1))) t1 in
      match write_promise w with
      | Resolved _ => (t2, Resolved tt)
      | Rejected e => (t2, Rejected e)
      end
  | ConnectClose => (t, Rejected (ClosedByNeighbor (address n)))
  | ConnectError e => (t, Rejected e)
  end.

Definition _connect (n : TcpNeighbor) (o : ConnectOutcome) (w : WriteOutcome)
    (t : TcpTransport) : TcpTransport * Settled unit :=
  let '(t1, s) := _connect_begin n t in
  _connect_settle n s o w t1.

(** The handlers [_initSendSocket] left on a send socket. *)
Definition send_socket_error (s : nat) (e : Error) (t : TcpTransport) : TcpTransport :=
  match send_listeners t !! s with
  | Some _ => log (FxEmit (EvError e)) t
  | None => t
  end.

Definition send_socket_close (s : nat) (t : TcpTransport) : TcpTransport :=
  match send_listeners t !! s with
  | Some n =>
      set_sendSockets (fun m => delete n m)
        (log (FxDestroy (Outbound s))
          (set_send_listeners (fun m => delete s m) t))
  | None => t
  end.

(** [_disconnect] up to its [await]: look the socket up and destroy it.
    Without a send socket, [socket.on] is called on [undefined] and the
    promise rejects with a [TypeError]. *)
Definition _disconnect_begin (n : TcpNeighbor) (t : TcpTransport)
    : TcpTransport * option nat :=
  match _sendSockets t !! n with
  | Some s => (log (FxDestroy (Outbound s)) t, Some s)
  | None => (t, None)
  end.

(** [_disconnect] after its [await]. Both of its handlers resolve; the
    handlers of [_initSendSocket], registered earlier, run first. *)
Definition _disconnect_settle (n : TcpNeighbor) (s : option nat)
    (d : DisconnectOutcome) (t : TcpTransport) : TcpTransport * Settled unit :=
  match s with
  | Some s =>
      let t1 := match d with
                | Close => send_socket_close s t
                | ErrorThenClose e => send_socket_close s (send_socket_error s e t)
                end in
      (set_sendSockets (fun m => delete n m) t1, Resolved tt)
  | None => (t, Rejected (SystemError "TypeError"))
  end.

Definition _disconnect (n : TcpNeighbor) (d : DisconnectOutcome)
    (t : TcpTransport) : TcpTransport * Settled unit :=
  let '(t1, s) := _disconnect_begin n t in
  _disconnect_settle n s d t1.

(** ** Neighbor table *)

(** An [async] method that has either finished or is suspended waiting for
    the socket [s]. *)
Inductive Suspended :=
| Done (r : Settled unit)
| Awaiting (s : nat).

(** [addNeighbor] up to the [await] of [_connect]. *)
Definition addNeighbor_begin (n : TcpNeighbor) (t : TcpTransport)
    : TcpTransport * Suspended :=
  if set_has n (_neighbors t) then (t, Done (Rejected (AlreadyExists (address n))))
  else
    let t1 := set_neighbors (set_add n) t in
    if _isRunning t1 then
      let '(t2, s) := _connect_begin n t1 in (t2, Awaiting s)
    else (t1, Done (Resolved tt)).

(** [addNeighbor] once [_connect] has settled: a failure is caught and the
    neighbor is marked for reconnection. *)
Definition addNeighbor_resume (n : TcpNeighbor) (s : nat) (o : ConnectOutcome)
    (w : WriteOutcome) (t : TcpTransport) : TcpTransport * Settled unit :=
  match _connect_settle n s o w t with
  | (t1, Resolved _) => (t1, Resolved tt)
  | (t1, Rejected _) => (set_neighborsToReconnect (set_add n) t1, Resolved tt)
  end.

Definition addNeighbor (n : TcpNeighbor) (o : ConnectOutcome) (w : WriteOutcome)
    (t : TcpTransport) : TcpTransport * Settled unit :=
  match addNeighbor_begin n t with
  | (t1, Done r) => (t1, r)
  | (t1, Awaiting s) => addNeighbor_resume n s o w t1
  end.

(** [socket.once("error", () => {}); socket.destroy()]: a no-op [error]
    listener is put on the socket before it is destroyed. *)
Definition silence_and_destroy (s : nat) (t : TcpTransport) : TcpTransport :=
  log (FxDestroy (Inbound s)) (log (FxSilence (Inbound s)) t).

(** [removeNeighbor]. *)
Definition removeNeighbor (n : TcpNeighbor) (d : DisconnectOutcome)
    (t : TcpTransport) : TcpTransport * Settled unit :=
  if negb (set_has n (_neighbors t)) then (t, Rejected (NotFound (address n)))
  else
    let t1 := match _receiveSockets t !! n with
              | Some s => set_receiveSockets (fun m => delete n m)
                            (silence_and_destroy s t)
              | None => t
              end in
    let '(t2, r) := match _sendSockets t1 !! n with
                    | Some _ => _disconnect n d t1
                    | None => (t1, Resolved tt)
                    end in
    match r with
    | Rejected e => (t2, Rejected e)
    | Resolved _ =>
        (set_neighbors (set_delete n)
           (set_neighborsToReconnect (set_delete n) t2), Resolved tt)
    end.

(** [removeNeighbor] up to the [await] of [_disconnect], which it reaches
    only when the neighbor has a send socket, and from there on. *)
Definition removeNeighbor_begin (n : TcpNeighbor) (t : TcpTransport)
    : TcpTransport * Suspended :=
  if negb (set_has n (_neighbors t)) then (t, Done (Rejected (NotFound (address n))))
  else
    let t1 := match _receiveSockets t !! n with
              | Some s => set_receiveSockets (fun m => delete n m)
                            (silence_and_destroy s t)
              | None => t
              end in
    match _sendSockets t1 !! n with
    | Some s => (fst (_disconnect_begin n t1), Awaiting s)
    | None =>
        (set_neighbors (set_delete n)
           (set_neighborsToReconnect (set_delete n) t1), Done (Resolved tt))
    end.

Definition removeNeighbor_resume (n : TcpNeighbor) (s : nat) (d : DisconnectOutcome)
    (t : TcpTransport) : TcpTransport * Settled unit :=
  match _disconnect_settle n (Some s) d t with
  | (t2, Rejected e) => (t2, Rejected e)
  | (t2, Resolved _) =>
      (set_neighbors (set_delete n)
         (set_neighborsToReconnect (set_delete n) t2), Resolved tt)
  end.

(** ** Sending *)

Definition send (data : Data) (n : TcpNeighbor) (w : WriteOutcome)
    (t : TcpTransport) : TcpTransport * Settled unit :=
  if negb (gatewayCanSendTo n) then (t, Rejected (SendForbidden (address n)))
  else
    match _sendSockets t !! n with
    | None => (t, Rejected (NotConnected (address n)))
    | Some s =>
        let t1 := log (FxWrite (Outbound s) (pack data)) t in
        match write_promise w with
        | Resolved _ => (t1, Resolved tt)
        | Rejected e => (t1, Rejected e)
        end
    end.

(** ** Life cycle *)

(** The synchronous loop [for (const neighbor of ...) promises.push(this._connect(neighbor)...)]:
    every [_connect] runs to its first [await] before any of them settles. *)
Fixpoint connect_all_begin (ns : list TcpNeighbor) (t : TcpTransport)
    : TcpTransport * list (TcpNeighbor * nat) :=
  match ns with
  | [] => (t, [])
  | n :: ns =>
      let '(t1, s) := _connect_begin n t in
      let '(t2, ps) := connect_all_begin ns t1 in
      (t2, (n, s) :: ps)
  end.

(** [run]: [this._connect(neighbor).catch(() => this._neighborsToReconnect.add(neighbor))]. *)
Fixpoint run_settle (os : TcpNeighbor -> ConnectOutcome) (ws : TcpNeighbor -> WriteOutcome)
    (ps : list (TcpNeighbor * nat)) (t : TcpTransport) : TcpTransport :=
  match ps with
  | [] => t
  | (n, s) :: ps =>
      let t1 := match _connect_settle n s (os n) (ws n) t with
                | (t1, Resolved _) => t1
                | (t1, Rejected _) => set_neighborsToReconnect (set_add n) t1
                end in
      run_settle os ws ps t1
  end.

(** [_initReconnection] and the re-arming at the end of [reconnect]. *)
Definition _initReconnection (t : TcpTransport) : TcpTransport :=
  log (FxSetTimeout (_reconnectionInterval t)) (set_reconnectionTimer (fun _ => true) t).

Definition _destroyReconnection (t : TcpTransport) : TcpTransport :=
  set_reconnectionTimer (fun _ => false) (log FxClearTimeout t).

Definition _initServerListeners (t : TcpTransport) : TcpTransport :=
  set_onServerConnection (fun _ => true) t.

(** [_destroyServerListeners]. The three handler slots are set together by
    [_initServerListeners] and nulled together here. [removeListener]
    throws a [TypeError] when it is given [null] for the listener, so with
    the slots already null the first call throws and nothing is done
    ([None]). *)
Definition _destroyServerListeners (t : TcpTransport) : option TcpTransport :=
  if _onServerConnection t then Some (set_onServerConnection (fun _ => false) t)
  else None.

(** The [error] handler [_initServerListeners] leaves on the server. Its
    [close] handler calls [shutdown]; the server closes only where
    [shutdown] itself closes it, after [_destroyServerListeners], so that
    handler never runs. *)
Definition server_error (e : Error) (t : TcpTransport) : TcpTransport :=
  if _onServerConnection t then log (FxEmit (EvError e)) t else t.

Definition run (l : ServerOutcome) (os : TcpNeighbor -> ConnectOutcome)
    (ws : TcpNeighbor -> WriteOutcome) (t : TcpTransport) : TcpTransport * Settled unit :=
  if _isRunning t then (t, Rejected AlreadyRunning)
  else
    let t1 := log (FxListen (_host t) (_port t)) t in
    match l with
    | ServerError e => (t1, Rejected e)
    | ServerOk =>
        let t2 := _initServerListeners t1 in
        let '(t3, ps) := connect_all_begin (_neighbors t2) t2 in
        let t4 := run_settle os ws ps t3 in
        let t5 := _initReconnection t4 in
        (set_isRunning (fun _ => true) t5, Resolved tt)
    end.

(** [shutdown]: the loop over [this._sendSockets.keys()] starts every
    [_disconnect]; they settle afterwards. *)
Fixpoint disconnect_all_begin (ns : list TcpNeighbor) (t : TcpTransport)
    : TcpTransport * list (TcpNeighbor * option nat) :=
  match ns with
  | [] => (t, [])
  | n :: ns =>
      let '(t1, s) := _disconnect_begin n t in
      let '(t2, ps) := disconnect_all_begin ns t1 in
      (t2, (n, s) :: ps)
  end.

Fixpoint disconnect_all_settle (ds : TcpNeighbor -> DisconnectOutcome)
    (ps : list (TcpNeighbor * option nat)) (t : TcpTransport)
    : TcpTransport * option Error :=
  match ps with
  | [] => (t, None)
  | (n, s) :: ps =>
      let '(t1, r) := _disconnect_settle n s (ds n) t in
      let '(t2, err) := disconnect_all_settle ds ps t1 in
      (t2, match r with Rejected e => Some e | Resolved _ => err end)
  end.

(** An [async] method that has either finished or is suspended with the
    sockets in [ps] being waited for. *)
Inductive SuspendedOn (A : Type) :=
| Finished (r : Settled unit)
| AwaitingAll (ps : list A).
Arguments Finished {A} r.
Arguments AwaitingAll {A} ps.

(** [shutdown] up to the [await] of its disconnects. *)
Definition shutdown_begin (t : TcpTransport)
    : TcpTransport * SuspendedOn (TcpNeighbor * option nat) :=
  if negb (_isRunning t) then (t, Finished (Rejected NotRunning))
  else
    match _destroyServerListeners t with
    | None => (t, Finished (Rejected (SystemError "TypeError")))
    | Some t1 =>
        let '(t2, ps) := disconnect_all_begin (map_to_list (_sendSockets t1)).*1 t1 in
        (t2, AwaitingAll ps)
    end.

(** [shutdown] from the settling of its disconnects to its end, with the
    server closing as soon as it is asked to. *)
Definition shutdown_resume (ds : TcpNeighbor -> DisconnectOutcome) (c : ServerOutcome)
    (ps : list (TcpNeighbor * option nat)) (t : TcpTransport)
    : TcpTransport * Settled unit :=
  match disconnect_all_settle ds ps t with
  | (t3, Some e) => (t3, Rejected e)
  | (t3, None) =>
      let t4 := log FxServerClose t3 in
      match c with
      | ServerError e => (t4, Rejected e)
      | ServerOk =>
          let t5 := _destroyReconnection t4 in
          let t6 := set_neighborsToReconnect (fun _ => []) t5 in
          (set_isRunning (fun _ => false) t6, Resolved tt)
      end
  end.

(** [shutdown] with nothing else happening between its start and its end. *)
Definition shutdown (ds : TcpNeighbor -> DisconnectOutcome) (c : ServerOutcome)
    (t : TcpTransport) : TcpTransport * Settled unit :=
  match shutdown_begin t with
  | (t1, Finished r) => (t1, r)
  | (t2, AwaitingAll ps) => shutdown_resume ds c ps t2
  end.

(** ** Reconnection *)

(** [reconnect]:
    [this._connect(neighbor).then(() => this._neighborsToReconnect.delete(neighbor)).catch(() => {})]. *)
Fixpoint reconnect_settle (os : TcpNeighbor -> ConnectOutcome) (ws : TcpNeighbor -> WriteOutcome)
    (ps : list (TcpNeighbor * nat)) (t : TcpTransport) : TcpTransport :=
  match ps with
  | [] => t
  | (n, s) :: ps =>
      let t1 := match _connect_settle n s (os n) (ws n) t with
                | (t1, Resolved _) => set_neighborsToReconnect (set_delete n) t1
                | (t1, Rejected _) => t1
                end in
      reconnect_settle os ws ps t1
  end.

(** A firing of the reconnection timer up to the [await] of its connects,
    and from their settling to the re-arming of the timer. The timer that
    fired is no longer armed. *)
Definition reconnect_begin (t : TcpTransport) : TcpTransport * list (TcpNeighbor * nat) :=
  connect_all_begin (_neighborsToReconnect t) (set_reconnectionTimer (fun _ => false) t).

Definition reconnect_resume (os : TcpNeighbor -> ConnectOutcome)
    (ws : TcpNeighbor -> WriteOutcome) (ps : list (TcpNeighbor * nat))
    (t : TcpTransport) : TcpTransport :=
  _initReconnection (reconnect_settle os ws ps t).

(** One firing of the reconnection timer, with nothing else happening
    between its start and its end. *)
Definition reconnect (os : TcpNeighbor -> ConnectOutcome) (ws : TcpNeighbor -> WriteOutcome)
    (t : TcpTransport) : TcpTransport :=
  let '(t1, ps) := connect_all_begin (_neighborsToReconnect t) t in
  let t2 := reconnect_settle os ws ps t1 in
  _initReconnection t2.

(** ** Inbound connections *)

(** The [data] handler of the handshake promise. It calls [reject] on an
    incorrect port packet and goes on to [remotePort = Number(portString)]
    and [resolve()]. [Number_of_digits] stands for [Number] and is read only
    when the promise resolved, that is, on ten digits. *)
Definition handshake_onData (portString : text) : option (Settled unit) * N :=
  let p := if incorrect_port portString
           then settle None (Rejected (IncorrectPort portString))
           else None in
  let remotePort := Number_of_digits portString in
  (settle p (Resolved tt), remotePort).

(** [_initReceiveSocket]: the address is read off the socket once, the block
    stream is piped and the socket becomes the neighbor's receive socket. *)
Definition _initReceiveSocket (sock : Socket) (n : TcpNeighbor) (t : TcpTransport)
    : TcpTransport :=
  let a := socket_address sock in
  set_receiveSockets (fun m => <[n := sid sock]> m)
    (set_receive_listeners (fun m => <[sid sock := (n, a, [])]> m) t).

(** The end of [_receiveConnection], from the permission check on. *)
Definition _receiveConnection_admit (sock : Socket) (n : TcpNeighbor) (t : TcpTransport)
    : TcpTransport :=
  if negb (gatewayCanReceiveFrom n) then silence_and_destroy (sid sock) t
  else _initReceiveSocket sock n t.

(** [_receiveConnection] after the handshake promise resolved. For an unknown
    address and [receiveUnknownNeighbor], [this.addNeighbor(neighbor)] is not
    awaited: it runs to its own first [await] and is resumed, with the outcome
    [o] of its connect, after the rest of this method. *)
Definition _receiveConnection_identify (sock : Socket) (remotePort : N)
    (o : ConnectOutcome) (w : WriteOutcome) (t : TcpTransport) : TcpTransport :=
  let a := socket_address sock in
  match List.find (fun n => match_address n a) (_neighbors t) with
  | Some n => _receiveConnection_admit sock n t
  | None =>
      if _receiveUnknownNeighbor t then
        let n := new_TcpNeighbor (neighbors_made t) a remotePort in
        let t1 := set_neighbors_made S t in
        let '(t2, pending) := addNeighbor_begin n t1 in
        let t3 := log (FxEmit (EvNeighbor n)) t2 in
        let t4 := _receiveConnection_admit sock n t3 in
        match pending with
        | Awaiting s => fst (addNeighbor_resume n s o w t4)
        | Done _ => t4
        end
      else silence_and_destroy (sid sock) t
  end.

(** [_receiveConnection]; [None] as the result would be a promise that never
    settles. *)
Definition _receiveConnection (sock : Socket) (h : HandshakeOutcome)
    (o : ConnectOutcome) (w : WriteOutcome) (t : TcpTransport)
    : TcpTransport * option (Settled unit) :=
  match h with
  | HandshakeData portString =>
      match handshake_onData portString with
      | (Some (Resolved _), remotePort) =>
          (_receiveConnection_identify sock remotePort o w t, Some (Resolved tt))
      | (Some (Rejected e), _) => (t, Some (Rejected e))
      | (None, _) => (t, None)
      end
  | HandshakeError e => (t, Some (Rejected e))
  | HandshakeClose => (t, Some (Rejected ConnectionClosed))
  | HandshakeTimeout => (silence_and_destroy (sid sock) t, Some (Rejected CouldntReceivePort))
  end.

(** Modelled from the spec: the [block-stream] package is not among the
    sources. While the buffer holds at least [size] bytes, the first [size]
    bytes are emitted as one block; a trailing partial block stays buffered. *)
Fixpoint BlockStream (fuel : nat) (size : nat) (buf : text) : list text * text :=
  match fuel with
  | O => ([], buf)
  | S f =>
      if (size =? 0)%nat || (length buf <? size)%nat then ([], buf)
      else let '(bs, r) := BlockStream f size (drop size buf) in
           (take size buf :: bs, r)
  end.

(** The handlers [_initReceiveSocket] left on a receive socket. *)
Definition receive_socket_data (s : nat) (bytes : text) (t : TcpTransport) : TcpTransport :=
  match receive_listeners t !! s with
  | Some (n, a, buf) =>
      let '(bs, r) := BlockStream (length (buf ++ bytes)) packetSize (buf ++ bytes) in
      let t1 := set_receive_listeners (fun m => <[s := (n, a, r)]> m) t in
      fold_left (fun t packet => log (FxEmit (EvReceive (unpack packet) n a)) t) bs t1
  | None => t
  end.

Definition receive_socket_error (s : nat) (e : Error) (t : TcpTransport) : TcpTransport :=
  match receive_listeners t !! s with
  | Some _ => log (FxEmit (EvError e)) t
  | None => t
  end.

Definition receive_socket_close (s : nat) (t : TcpTransport) : TcpTransport :=
  match receive_listeners t !! s with
  | Some (n, _, _) =>
      set_receiveSockets (fun m => delete n m)
        (log (FxDestroy (Inbound s))
          (set_receive_listeners (fun m => delete s m) t))
  | None => t
  end.

(** ** Runs of the transport *)

(** One public operation, timer firing or socket event, carried out from
    start to end before the next one begins. The timer fires only while
    armed; the server hands over connections only while its listeners are
    attached. *)
Inductive step : TcpTransport -> TcpTransport -> Prop :=
| step_addNeighbor n o w t :
    step t (addNeighbor n o w t).1
| step_removeNeighbor n d t :
    step t (removeNeighbor n d t).1
| step_run l os ws t :
    step t (run l os ws t).1
| step_shutdown ds c t :
    step t (shutdown ds c t).1
| step_send data n w t :
    step t (send data n w t).1
| step_reconnect os ws t :
    _reconnectionTimer t = true ->
    step t (reconnect os ws t)
| step_receiveConnection sock h o w t :
    _onServerConnection t = true ->
    step t (_receiveConnection sock h o w t).1
| step_send_socket_error s e t :
    step t (send_socket_error s e t)
| step_send_socket_close s t :
    step t (send_socket_close s t)
| step_receive_socket_data s bytes t :
    step t (receive_socket_data s bytes t)
| step_receive_socket_error s e t :
    step t (receive_socket_error s e t)
| step_receive_socket_close s t :
    step t (receive_socket_close s t)
| step_server_error e t :
    step t (server_error e t).

(** The states a transport built by [new TcpTransport] goes through when its
    operations never overlap. *)
Definition reachable (t : TcpTransport) : Prop :=
  exists h p i r, rtc step (new_TcpTransport h p i r) t.

(** A call suspended at an [await]: [addNeighbor] at its [_connect],
    [removeNeighbor] at its [_disconnect], [shutdown] at its disconnects,
    the timer callback at its connects. *)
Inductive Task :=
| AddNeighborTask (n : TcpNeighbor) (s : nat)
| RemoveNeighborTask (n : TcpNeighbor) (s : nat)
| ShutdownTask (ps : list (TcpNeighbor * option nat))
| ReconnectTask (ps : list (TcpNeighbor * nat)).

(** Runs in which a call may stay suspended while other operations are
    carried out and events arrive: the caller need not await one call
    before the next, and the timer and the sockets do not wait either. *)
Inductive async_step : TcpTransport * list Task -> TcpTransport * list Task -> Prop :=
| async_whole t t' ps :
    step t t' ->
    async_step (t, ps) (t', ps)
| async_addNeighbor_begin n s t t' ps :
    addNeighbor_begin n t = (t', Awaiting s) ->
    async_step (t, ps) (t', AddNeighborTask n s :: ps)
| async_addNeighbor_resume n s o w t ps1 ps2 :
    async_step (t, ps1 ++ AddNeighborTask n s :: ps2)
               ((addNeighbor_resume n s o w t).1, ps1 ++ ps2)
| async_removeNeighbor_begin n s t t' ps :
    removeNeighbor_begin n t = (t', Awaiting s) ->
    async_step (t, ps) (t', RemoveNeighborTask n s :: ps)
| async_removeNeighbor_resume n s d t ps1 ps2 :
    async_step (t, ps1 ++ RemoveNeighborTask n s :: ps2)
               ((removeNeighbor_resume n s d t).1, ps1 ++ ps2)
| async_shutdown_begin qs t t' ps :
    shutdown_begin t = (t', AwaitingAll qs) ->
    async_step (t, ps) (t', ShutdownTask qs :: ps)
| async_shutdown_resume ds c qs t ps1 ps2 :
    async_step (t, ps1 ++ ShutdownTask qs :: ps2)
               ((shutdown_resume ds c qs t).1, ps1 ++ ps2)
| async_reconnect_begin qs t t' ps :
    _reconnectionTimer t = true ->
    reconnect_begin t = (t', qs) ->
    async_step (t, ps) (t', ReconnectTask qs :: ps)
| async_reconnect_resume os ws qs t ps1 ps2 :
    async_step (t, ps1 ++ ReconnectTask qs :: ps2)
               (reconnect_resume os ws qs t, ps1 ++ ps2).

Definition async_reachable (t : TcpTransport) : Prop :=
  exists h p i r ps, rtc async_step (new_TcpTransport h p i r, []) (t, ps).

(** The property of the reconnection set: each of its members is a known
    neighbor without a send socket. *)
Definition needsReconnect_ok (t : TcpTransport) : Prop :=
  forall n, n ∈ _neighborsToReconnect t ->
    n ∈ _neighbors t /\ _sendSockets t !! n = None.

(** The bytes written on a socket, in order. *)
Definition writes_on (s : SocketRef) (tr : list Effect) : list text :=
  omap (fun fx => match fx with
                  | FxWrite s' bytes =>
                      if bool_decide (s' = s) then Some bytes else None
                  | _ => None
                  end) tr.

(** Whether [socket.destroy()] has been called on a socket. *)
Definition destroyed (s : SocketRef) (tr : list Effect) : bool :=
  existsb (fun fx => match fx with
                     | FxDestroy s' => bool_decide (s' = s)
                     | _ => false
                     end) tr.

(** The connect calls a loop over [ns] makes, the first on socket [k]. *)
Definition connect_effects (k : nat) (ns : list TcpNeighbor) : list Effect :=
  imap (fun i n => FxConnect (k + i) (address n) (port n)) ns.

Definition is_write (fx : Effect) : Prop :=
  match fx with
  | FxWrite _ _ => True
  | _ => False
  end.

(** ** Invariants of the tables *)

(** What holds of the tables whenever no operation is under way, running or
    not: the reconnection set is sound, send sockets belong to known
    neighbors, the neighbor set has no duplicates, and every send socket and
    every socket written to was made by [_connect]. *)
Definition inv_core (t : TcpTransport) : Prop :=
  needsReconnect_ok t /\
  (forall n, is_Some (_sendSockets t !! n) -> n ∈ _neighbors t) /\
  NoDup (_neighbors t) /\
  (forall n s, _sendSockets t !! n = Some s -> (s < sockets_made t)%nat) /\
  (forall k bytes, FxWrite (Outbound k) bytes ∈ trace t -> (k < sockets_made t)%nat).

(** A transport that is not running has no send socket and nothing to
    reconnect. *)
Definition idle_ok (t : TcpTransport) : Prop :=
  _isRunning t = false -> _sendSockets t = ∅ /\ _neighborsToReconnect t = [].

Definition inv (t : TcpTransport) : Prop := inv_core t /\ idle_ok t.

(** [t'] differs from [t] at most by send sockets gone, by sockets made, by
    effects other than writes, and in fields the invariants do not read. *)
Definition shrinks (t t' : TcpTransport) : Prop :=
  _neighbors t' = _neighbors t /\
  _neighborsToReconnect t' = _neighborsToReconnect t /\
  _isRunning t' = _isRunning t /\
  (sockets_made t <= sockets_made t')%nat /\
  (forall n s, _sendSockets t' !! n = Some s -> _sendSockets t !! n = Some s) /\
  (forall s, writes_on s (trace t') = writes_on s (trace t)) /\
  _port t' = _port t.

(** What [addNeighbor] relies on while it waits for the connect of [n] on
    socket [s]. *)
Definition pending_ok (n : TcpNeighbor) (s : nat) (t : TcpTransport) : Prop :=
  inv_core t /\ _isRunning t = true /\
  n ∈ _neighbors t /\ (n ∉ _neighborsToReconnect t) /\
  _sendSockets t !! n = None /\ (s < sockets_made t)%nat /\
  writes_on (Outbound s) (trace t) = [].

(** The handshake discipline: whatever has been written on a socket the
    transport made starts with the port packet, followed by packets of the
    codec only; and every registered send socket has had its port packet
    written. *)
Definition disciplined (t : TcpTransport) : Prop :=
  (forall k, writes_on (Outbound k) (trace t) = [] \/
     exists ds, writes_on (Outbound k) (trace t) = portPacket (_port t) :: map pack ds) /\
  (forall n s, _sendSockets t !! n = Some s -> writes_on (Outbound s) (trace t) ≠ []).

(** [t'] has the port, the writes and at most the send sockets of [t]. *)
Definition quiet (t t' : TcpTransport) : Prop :=
  _port t' = _port t /\
  (forall n s, _sendSockets t' !! n = Some s -> _sendSockets t !! n = Some s) /\
  (forall s, writes_on s (trace t') = writes_on s (trace t)).

(** ** Further vocabulary for the properties *)

(** The effects of tearing a send socket down: its destruction and the
    errors it reports meanwhile. *)
Definition send_side (fx : Effect) : Prop :=
  match fx with
  | FxDestroy (Outbound _) => True
  | FxEmit (EvError _) => True
  | _ => False
  end.

(** [t'] differs from [t] at most in the send sockets, their handlers and
    the effects of tearing them down. *)
Definition send_side_only (t t' : TcpTransport) : Prop :=
  _neighbors t' = _neighbors t /\
  _neighborsToReconnect t' = _neighborsToReconnect t /\
  _isRunning t' = _isRunning t /\
  _reconnectionTimer t' = _reconnectionTimer t /\
  _onServerConnection t' = _onServerConnection t /\
  _receiveSockets t' = _receiveSockets t /\
  receive_listeners t' = receive_listeners t /\
  sockets_made t' = sockets_made t /\
  exists tr, trace t' = trace t ++ tr /\ Forall send_side tr.

(** The receive events of a list of packets from neighbor [n] at address
    [a]. *)
Definition receive_events (n : TcpNeighbor) (a : string) (packets : list text)
    : list Effect :=
  map (fun packet => FxEmit (EvReceive (unpack packet) n a)) packets.

(** [t'] is in the same mode as [t]: running or not, timer armed or not,
    server handlers attached or not. *)
Definition same_mode (t t' : TcpTransport) : Prop :=
  _isRunning t' = _isRunning t /\
  _reconnectionTimer t' = _reconnectionTimer t /\
  _onServerConnection t' = _onServerConnection t.

(** The mode of a transport is consistent: the reconnection timer is armed
    exactly while it is running, and the server handlers are attached only
    while it is running. *)
Definition mode_ok (t : TcpTransport) : Prop :=
  _reconnectionTimer t = _isRunning t /\
  (_onServerConnection t = true -> _isRunning t = true).

(** A send socket is registered for a neighbor exactly when it carries the
    close handler of that neighbor; the reconnection set has no duplicates;
    and only sockets the transport made carry handlers. *)
Definition paired (t : TcpTransport) : Prop :=
  (forall n s, _sendSockets t !! n = Some s <-> send_listeners t !! s = Some n) /\
  NoDup (_neighborsToReconnect t) /\
  (forall s n, send_listeners t !! s = Some n -> (s < sockets_made t)%nat).

(** [t'] has the send sockets, the send handlers and the reconnection set
    of [t]. *)
Definition same_send (t t' : TcpTransport) : Prop :=
  _sendSockets t' = _sendSockets t /\
  send_listeners t' = send_listeners t /\
  (sockets_made t <= sockets_made t')%nat /\
  _neighborsToReconnect t' = _neighborsToReconnect t.

End Transport.

Arguments Event Data : clear implicits.
Arguments Effect Data : clear implicits.
Arguments TcpTransport Data : clear implicits.

(** ** The earlier revision

    [src/tcp-transport.ts] as it was before the handshake was introduced:
    [_connectNeighbor] registers the socket and writes nothing, and [send]
    does not look at the neighbor's permission. *)
Module Legacy.
Section Legacy.
Context {Data : Type}.
Variable pack : Data -> text.

(** [_connectNeighbor]: there is no [close] handler on the connecting
    socket, so a close leaves the promise pending ([None]). *)
Definition _connectNeighbor (n : TcpNeighbor) (o : ConnectOutcome)
    (t : TcpTransport Data) : TcpTransport Data * option (Settled unit) :=
  let '(t1, s) := _connect_begin n t in
  match o with
  | Connect => (set_sendSockets (fun m => <[n := s]> m) t1, Some (Resolved tt))
  | ConnectClose => (t1, None)
  | ConnectError e => (t1, Some (Rejected e))
  end.

Definition send (data : Data) (n : TcpNeighbor) (w : WriteOutcome)
    (t : TcpTransport Data) : TcpTransport Data * Settled unit :=
  match _sendSockets t !! n with
  | None => (t, Rejected (NotConnected (address n)))
  | Some s =>
      let t1 := log (FxWrite (Outbound s) (pack data)) t in
      match write_promise w with
      | Resolved _ => (t1, Resolved tt)
      | Rejected e => (t1, Rejected e)
      end
  end.

(** [_disconnectNeighbor]: the [error] handler rejects, and the entry is
    deleted only after a [close]. *)
Definition _disconnectNeighbor (n : TcpNeighbor) (d : DisconnectOutcome)
    (t : TcpTransport Data) : TcpTransport Data * Settled unit :=
  match _sendSockets t !! n with
  | Some s =>
      let t1 := log (FxDestroy (Outbound s)) t in
      match d with
      | Close => (set_sendSockets (fun m => delete n m) t1, Resolved tt)
      | ErrorThenClose e => (t1, Rejected e)
      end
  | None => (t, Rejected (SystemError "TypeError"))
  end.

(** [addNeighbor]: the connect comes before the insertion into the table. *)
Definition addNeighbor (n : TcpNeighbor) (o : ConnectOutcome)
    (t : TcpTransport Data) : TcpTransport Data * option (Settled unit) :=
  if set_has n (_neighbors t)
  then (t, Some (Rejected (AlreadyExists (address n))))
  else if _isRunning t then
    match _connectNeighbor n o t with
    | (t1, Some (Resolved _)) =>
        (set_neighbors (set_add n) t1, Some (Resolved tt))
    | (t1, Some (Rejected _)) =>
        (set_neighbors (set_add n) (set_neighborsToReconnect (set_add n) t1),
         Some (Resolved tt))
    | (t1, None) => (t1, None)
    end
  else (set_neighbors (set_add n) t, Some (Resolved tt)).

(** [removeNeighbor]: neither the receive socket nor the reconnection set is
    touched. *)
Definition removeNeighbor (n : TcpNeighbor) (d : DisconnectOutcome)
    (t : TcpTransport Data) : TcpTransport Data * Settled unit :=
  if negb (set_has n (_neighbors t)) then (t, Rejected (NotFound (address n)))
  else
    let '(t1, r) := match _sendSockets t !! n with
                    | Some _ => _disconnectNeighbor n d t
                    | None => (t, Resolved tt)
                    end in
    match r with
    | Rejected e => (t1, Rejected e)
    | Resolved _ => (set_neighbors (set_delete n) t1, Resolved tt)
    end.

(** The settling of the connects of one tick; the flag tells whether all of
    them settled. *)
Fixpoint reconnect_settle (os : TcpNeighbor -> ConnectOutcome)
    (ps : list (TcpNeighbor * nat)) (t : TcpTransport Data)
    : TcpTransport Data * bool :=
  match ps with
  | [] => (t, true)
  | (n, s) :: ps =>
      match os n with
      | Connect =>
          reconnect_settle os ps
            (set_neighborsToReconnect (set_delete n)
               (set_sendSockets (fun m => <[n := s]> m) t))
      | ConnectError _ => reconnect_settle os ps t
      | ConnectClose => ((reconnect_settle os ps t).1, false)
      end
  end.

(** One firing of the reconnection timer. The next one is scheduled after
    [Promise.all], hence only if every connect settled. *)
Definition reconnect (os : TcpNeighbor -> ConnectOutcome) (t : TcpTransport Data)
    : TcpTransport Data :=
  let '(t1, ps) := connect_all_begin (_neighborsToReconnect t) t in
  let '(t2, settled) := reconnect_settle os ps t1 in
  if settled then _initReconnection t2 else t2.

End Legacy.
End Legacy.

(** ** A concrete setting

    A four-byte codec, three neighbors and a transport listening on port
    1440, for the examples. *)
Module Scenario.

Definition pack (data : text) : text := take 4 (data ++ replicate 4 "0"%char).
Definition unpack (packet : text) : text := packet.
Definition packetSize : nat := 4.

Definition alice : TcpNeighbor :=
  {| nid := inl 0%nat; host := "10.0.0.2"; port := 4010;
     gatewayCanSendTo := true; gatewayCanReceiveFrom := true |}.

Definition bob : TcpNeighbor :=
  {| nid := inl 1%nat; host := "10.0.0.3"; port := 4020;
     gatewayCanSendTo := true; gatewayCanReceiveFrom := true |}.

Definition mute : TcpNeighbor :=
  {| nid := inl 2%nat; host := "10.0.0.4"; port := 4030;
     gatewayCanSendTo := false; gatewayCanReceiveFrom := true |}.

(** A neighbor on the loopback address, as in the test suite. *)
Definition peer : TcpNeighbor :=
  {| nid := inl 3%nat; host := "127.0.0.1"; port := 4010;
     gatewayCanSendTo := true; gatewayCanReceiveFrom := true |}.

(** A neighbor whose host is the address the transport itself is bound to. *)
Definition here : TcpNeighbor :=
  {| nid := inl 4%nat; host := "10.0.0.1"; port := 4040;
     gatewayCanSendTo := true; gatewayCanReceiveFrom := true |}.

(** A connection from [alice]'s address, accepted on the local address
    10.0.0.1. *)
Definition from_alice : Socket :=
  {| sid := 7; localAddress := "10.0.0.1"; remoteAddress := "10.0.0.2" |}.

(** Two connections over the loopback interface. *)
Definition loop1 : Socket :=
  {| sid := 1; localAddress := "127.0.0.1"; remoteAddress := "127.0.0.1" |}.

Definition loop2 : Socket :=
  {| sid := 2; localAddress := "127.0.0.1"; remoteAddress := "127.0.0.1" |}.

Definition refused : ConnectOutcome := ConnectError (SystemError "ECONNREFUSED").

Definition always (o : ConnectOutcome) : TcpNeighbor -> ConnectOutcome := fun _ => o.
Definition flushed : TcpNeighbor -> WriteOutcome := fun _ => Flushed.
Definition closes : TcpNeighbor -> DisconnectOutcome := fun _ => Close.

(** [new TcpTransport({ port: 1440, reconnectionInterval: 50 })]. *)
Definition fresh : TcpTransport text := new_TcpTransport None 1440 (Some 50) false.

(** After [run()] without neighbors. *)
Definition running : TcpTransport text :=
  (run ServerOk (always Connect) flushed fresh).1.

(** After [addNeighbor(alice)] with a successful connect. *)
Definition connected : TcpTransport text :=
  (addNeighbor alice Connect Flushed running).1.

(** After [addNeighbor(bob)] whose connect was refused. *)
Definition waiting : TcpTransport text :=
  (addNeighbor bob refused Flushed connected).1.

(** [alice] and [here] both known, both connected. *)
Definition with_here : TcpTransport text :=
  (addNeighbor here Connect Flushed connected).1.

(** [peer] known and connected. *)
Definition with_peer : TcpTransport text :=
  (addNeighbor peer Connect Flushed running).1.

(** A valid port packet arrives on [from_alice]. *)
Definition accept_from_alice (t : TcpTransport text) : TcpTransport text :=
  (_receiveConnection from_alice (HandshakeData (txt "0000004010")) Connect Flushed t).1.

(** [peer] connects twice, then its first connection closes. *)
Definition peer_once : TcpTransport text :=
  (_receiveConnection loop1 (HandshakeData (txt "0000004010")) Connect Flushed with_peer).1.

Definition peer_twice : TcpTransport text :=
  (_receiveConnection loop2 (HandshakeData (txt "0000004010")) Connect Flushed peer_once).1.

Definition first_closed : TcpTransport text :=
  receive_socket_close (sid loop1) peer_twice.




(** [alice] and [bob] added before the transport is run. *)
Definition listed : TcpTransport text :=
  (addNeighbor bob Connect Flushed (addNeighbor alice Connect Flushed fresh).1).1.

(** [mute], who may not be sent to, known and connected. *)
Definition with_mute : TcpTransport text :=
  (addNeighbor mute Connect Flushed running).1.

(** A running transport made with [receiveUnknownNeighbor: true]. *)
Definition open_door : TcpTransport text :=
  (run ServerOk (always Connect) flushed (new_TcpTransport None 1440 (Some 50) true)).1.







(** [waiting] after a [shutdown()] during which the server failed to
    close. *)
Definition stuck : TcpTransport text :=
  (shutdown closes (ServerError (SystemError "EIO")) waiting).1.

(** [waiting] after a [shutdown()] that nothing overlapped. *)
Definition stopped : TcpTransport text := (shutdown closes ServerOk waiting).1.





End Scenario.

(** * Properties *)

Example portPacket_1440 : portPacket 1440 = txt "0000001440".
Proof. reflexivity. Qed.

Example portPacket_4000 :
  map N_of_ascii (portPacket 4000) = [48; 48; 48; 48; 48; 48; 52; 48; 48; 48].
Proof. reflexivity. Qed.

(** *** Facts about the decimal encoding *)

Lemma is_digit_digit_char d : d < 10 -> is_digit (digit_char d) = true.
Proof.
  intros Hd. unfold is_digit, digit_char.
  rewrite N_ascii_embedding by lia.
  apply andb_true_intro; split; apply N.leb_le; lia.
Qed.

Lemma digit_val_digit_char d : d < 10 -> digit_val (digit_char d) = d.
Proof.
  intros Hd. unfold digit_val, digit_char.
  rewrite N_ascii_embedding by lia. lia.
Qed.

Lemma decimal_rev_digits fuel n : forallb is_digit (decimal_rev fuel n) = true.
Proof.
  revert n. induction fuel as [|f IH]; intros n; simpl; [reflexivity|].
  rewrite is_digit_digit_char by (apply N.mod_lt; lia). simpl.
  destruct (n / 10 =? 0); [reflexivity | apply IH].
Qed.

Lemma decimal_rev_length fuel : forall k n,
  n < 10 ^ N.of_nat (S k) -> (length (decimal_rev fuel n) <= S k)%nat.
Proof.
  induction fuel as [|f IH]; intros k n Hn; simpl; [lia|].
  destruct (N.eqb_spec (n / 10) 0) as [Hz|Hz]; simpl; [lia|].
  destruct k as [|k].
  - exfalso. apply Hz. apply N.div_small. simpl in Hn. lia.
  - enough (length (decimal_rev f (n / 10)) <= S k)%nat by lia.
    apply IH. apply N.Div0.div_lt_upper_bound.
    replace (N.of_nat (S (S k))) with (N.succ (N.of_nat (S k))) in Hn by lia.
    rewrite N.pow_succ_r' in Hn. exact Hn.
Qed.

Lemma Number_of_digits_app s c :
  Number_of_digits (s ++ [c]) = 10 * Number_of_digits s + digit_val c.
Proof. unfold Number_of_digits. rewrite fold_left_app. reflexivity. Qed.

Lemma decimal_rev_value fuel : forall n,
  n < 10 ^ N.of_nat fuel -> Number_of_digits (rev (decimal_rev fuel n)) = n.
Proof.
  induction fuel as [|f IH]; intros n Hn.
  - simpl in Hn. assert (n = 0) by lia. subst. reflexivity.
  - cbn [decimal_rev rev].
    assert (Hm : n mod 10 < 10) by (apply N.mod_lt; lia).
    pose proof (N.div_mod n 10 ltac:(lia)) as Hdm.
    destruct (N.eqb_spec (n / 10) 0) as [Hz|Hz].
    + cbn. rewrite digit_val_digit_char by exact Hm. lia.
    + rewrite Number_of_digits_app, digit_val_digit_char by exact Hm.
      rewrite IH; [lia|].
      apply N.Div0.div_lt_upper_bound.
      replace (N.of_nat (S f)) with (N.succ (N.of_nat f)) in Hn by lia.
      rewrite N.pow_succ_r' in Hn. exact Hn.
Qed.

Lemma Number_of_digits_zeros k s :
  Number_of_digits (replicate k "0"%char ++ s) = Number_of_digits s.
Proof.
  induction k as [|k IH]; [reflexivity|].
  unfold Number_of_digits in *. simpl. exact IH.
Qed.

Lemma String_of_number_value n : Number_of_digits (String_of_number n) = n.
Proof.
  unfold String_of_number. apply decimal_rev_value.
  destruct (N.eq_dec n 0) as [->|Hn]; [reflexivity|].
  pose proof (N.log2_spec n ltac:(lia)) as [_ Hlt].
  eapply N.lt_le_trans; [exact Hlt|].
  replace (N.of_nat (S (N.to_nat (N.log2 n)))) with (N.succ (N.log2 n)) by lia.
  apply N.pow_le_mono_l. lia.
Qed.

Lemma String_of_number_nonempty n : (1 <= length (String_of_number n))%nat.
Proof. unfold String_of_number. rewrite length_rev. simpl. lia. Qed.

Lemma portPacket_length port :
  port < 10 ^ 10 -> length (portPacket port) = 10%nat.
Proof.
  intros Hp. unfold portPacket, padStart.
  rewrite length_app, length_replicate.
  assert (length (String_of_number port) <= 10)%nat; [|lia].
  unfold String_of_number. rewrite length_rev.
  apply (decimal_rev_length _ 9). exact Hp.
Qed.

Lemma portPacket_digits port : forallb is_digit (portPacket port) = true.
Proof.
  unfold portPacket, padStart. rewrite forallb_app.
  apply andb_true_intro; split.
  - induction (10 - length (String_of_number port))%nat; [reflexivity|exact IHn].
  - unfold String_of_number. rewrite forallb_forall. intros c Hc.
    apply in_rev in Hc. revert c Hc. rewrite <- forallb_forall.
    apply decimal_rev_digits.
Qed.

Lemma portPacket_value port : Number_of_digits (portPacket port) = port.
Proof.
  unfold portPacket, padStart.
  rewrite Number_of_digits_zeros. apply String_of_number_value.
Qed.

(** *** The check of the port packet on the receiving side *)

Lemma incorrect_port_false (s : text) :
  incorrect_port s = false <-> length s = 10%nat /\ forallb is_digit s = true.
Proof.
  unfold incorrect_port, regex_ten_digits.
  destruct (Nat.eqb_spec (length s) 10) as [Hl|Hl]; simpl.
  - destruct (forallb is_digit s); simpl; split; try tauto; try discriminate.
    intros [_ H]. discriminate.
  - split; [discriminate | tauto].
Qed.

(** The port packet a transport writes passes the check of its peer. *)
Lemma portPacket_correct port : port < 10 ^ 10 -> incorrect_port (portPacket port) = false.
Proof.
  intros Hp. apply incorrect_port_false.
  split; [by apply portPacket_length | apply portPacket_digits].
Qed.

(** ** Facts about the list model of [Set] *)

Section JsSetFacts.
Context {A : Type} `{EqDecision A}.

Lemma set_has_true (x : A) (l : list A) : set_has x l = true ↔ x ∈ l.
Proof. unfold set_has. apply bool_decide_eq_true. Qed.

Lemma set_has_false (x : A) (l : list A) : set_has x l = false ↔ x ∉ l.
Proof. unfold set_has. apply bool_decide_eq_false. Qed.

Lemma elem_of_set_add (x y : A) (l : list A) : y ∈ set_add x l ↔ y = x ∨ y ∈ l.
Proof.
  unfold set_add. destruct (set_has x l) eqn:E.
  - apply set_has_true in E. split; [auto|]. intros [->|]; assumption.
  - rewrite elem_of_app, list_elem_of_singleton. tauto.
Qed.

Lemma elem_of_set_delete (x y : A) (l : list A) : y ∈ set_delete x l ↔ y ≠ x ∧ y ∈ l.
Proof. unfold set_delete. by rewrite list_elem_of_filter. Qed.

Lemma NoDup_set_add (x : A) (l : list A) : NoDup l → NoDup (set_add x l).
Proof.
  intros Hl. unfold set_add. destruct (set_has x l) eqn:E; [exact Hl|].
  apply set_has_false in E. apply NoDup_app. split_and!; [exact Hl| |].
  - intros y Hy ->%list_elem_of_singleton. contradiction.
  - apply NoDup_singleton.
Qed.

Lemma NoDup_set_delete (x : A) (l : list A) : NoDup l → NoDup (set_delete x l).
Proof. apply NoDup_filter. Qed.

End JsSetFacts.

(** ** The transport *)

Section TransportFacts.
Context {Data : Type}.
Variable pack : Data -> text.
Variable unpack : text -> Data.
Variable packetSize : nat.

Implicit Types (t : TcpTransport Data) (n : TcpNeighbor) (tr : list (Effect Data)).

(** *** Sending *)

(** C4. With a codec whose [pack] yields [packetSize] bytes, [send] is
    rejected with [SendForbidden] when the neighbor forbids sending, whether
    or not it is connected; it is rejected with [NotConnected] when sending is
    allowed and the neighbor has no send socket; otherwise the one effect is
    the write of [pack data], [packetSize] bytes long, on the send socket,
    and the call resolves once the write is flushed. *)
Theorem send_checks_then_writes_packet
    (pack_size : forall data, length (pack data) = packetSize)
    (data : Data) n t :
  (gatewayCanSendTo n = false ->
     forall w, send pack data n w t = (t, Rejected (SendForbidden (address n)))) /\
  (gatewayCanSendTo n = true -> _sendSockets t !! n = None ->
     forall w, send pack data n w t = (t, Rejected (NotConnected (address n)))) /\
  (forall s, gatewayCanSendTo n = true -> _sendSockets t !! n = Some s ->
     send pack data n Flushed t = (log (FxWrite (Outbound s) (pack data)) t, Resolved tt) /\
     length (pack data) = packetSize).
Proof.
  unfold send. split_and!.
  - intros -> w. reflexivity.
  - intros -> -> w. reflexivity.
  - intros s -> ->. split; [reflexivity | apply pack_size].
Qed.

(** C10. Once the permission and the connection checks pass, [send]
    resolves whatever the outcome of the write: a write error is handed to
    the resolver and cannot reject the call. *)
Theorem send_resolves_on_write_error (data : Data) n s w t :
  gatewayCanSendTo n = true ->
  _sendSockets t !! n = Some s ->
  (send pack data n w t).2 = Resolved tt.
Proof.
  intros Hperm Hsock. unfold send. rewrite Hperm, Hsock. simpl.
  destruct w; reflexivity.
Qed.

(** *** Removing a neighbor *)

Lemma send_socket_close_lookup s n t :
  _sendSockets t !! n = None -> _sendSockets (send_socket_close s t) !! n = None.
Proof.
  intros Hn. unfold send_socket_close.
  destruct (send_listeners t !! s) as [m|]; simpl; [|exact Hn].
  rewrite lookup_delete. case_decide; [reflexivity | exact Hn].
Qed.

Lemma send_socket_close_trace s t :
  exists tr, trace (send_socket_close s t) = trace t ++ tr.
Proof.
  unfold send_socket_close. destruct (send_listeners t !! s); simpl.
  - eexists. reflexivity.
  - exists []. by rewrite app_nil_r.
Qed.

Lemma send_socket_error_trace s e t :
  exists tr, trace (send_socket_error s e t) = trace t ++ tr.
Proof.
  unfold send_socket_error. destruct (send_listeners t !! s); simpl.
  - eexists. reflexivity.
  - exists []. by rewrite app_nil_r.
Qed.

Lemma send_socket_error_fields s e t :
  let t' := send_socket_error s e t in
  _sendSockets t' = _sendSockets t /\ _receiveSockets t' = _receiveSockets t /\
  _neighbors t' = _neighbors t /\
  _neighborsToReconnect t' = _neighborsToReconnect t /\
  _isRunning t' = _isRunning t /\ sockets_made t' = sockets_made t.
Proof.
  unfold send_socket_error. destruct (send_listeners t !! s); simpl; done.
Qed.

Lemma send_socket_close_fields s t :
  let t' := send_socket_close s t in
  _receiveSockets t' = _receiveSockets t /\
  _neighbors t' = _neighbors t /\
  _neighborsToReconnect t' = _neighborsToReconnect t /\
  _isRunning t' = _isRunning t /\ sockets_made t' = sockets_made t.
Proof.
  unfold send_socket_close. destruct (send_listeners t !! s); simpl; done.
Qed.

Lemma _disconnect_settle_some n s d t :
  exists t', _disconnect_settle n (Some s) d t = (t', Resolved tt) /\
    _sendSockets t' !! n = None /\
    (forall m, _sendSockets t !! m = None -> _sendSockets t' !! m = None) /\
    _receiveSockets t' = _receiveSockets t /\
    _neighbors t' = _neighbors t /\
    _neighborsToReconnect t' = _neighborsToReconnect t /\
    _isRunning t' = _isRunning t /\
    exists tr, trace t' = trace t ++ tr.
Proof.
  unfold _disconnect_settle. eexists. split; [reflexivity|]. simpl.
  split; [apply lookup_delete_eq|].
  destruct d as [|e].
  - destruct (send_socket_close_fields s t) as (? & ? & ? & ? & ?).
    split_and!; try done.
    + intros m Hm. rewrite lookup_delete. case_decide; [done|].
      by apply send_socket_close_lookup.
    + apply send_socket_close_trace.
  - destruct (send_socket_error_fields s e t) as (Hs & ? & ? & ? & ? & ?).
    destruct (send_socket_close_fields s (send_socket_error s e t)) as (? & ? & ? & ? & ?).
    split_and!; try congruence.
    + intros m Hm. rewrite lookup_delete. case_decide; [done|].
      apply send_socket_close_lookup. by rewrite Hs.
    + destruct (send_socket_error_trace s e t) as [tr1 Ht1].
      destruct (send_socket_close_trace s (send_socket_error s e t)) as [tr2 Ht2].
      exists (tr1 ++ tr2). by rewrite Ht2, Ht1, app_assoc.
Qed.

Lemma _disconnect_some n s d t :
  _sendSockets t !! n = Some s ->
  exists t', _disconnect n d t = (t', Resolved tt) /\
    _sendSockets t' !! n = None /\
    _receiveSockets t' = _receiveSockets t /\
    _neighbors t' = _neighbors t /\
    _neighborsToReconnect t' = _neighborsToReconnect t /\
    exists tr, trace t' = trace t ++ FxDestroy (Outbound s) :: tr.
Proof.
  intros Hs. unfold _disconnect, _disconnect_begin. rewrite Hs.
  destruct (_disconnect_settle_some n s d (log (FxDestroy (Outbound s)) t))
    as (t' & -> & Hnone & _ & Hr & Hn & Hre & _ & tr & Htr).
  exists t'. split_and!; try done.
  exists tr. rewrite Htr. simpl. by rewrite <- app_assoc.
Qed.


(** [removeNeighbor] is its two segments one after the other. *)
Lemma removeNeighbor_whole n d t :
  removeNeighbor n d t =
    match removeNeighbor_begin n t with
    | (t1, Done r) => (t1, r)
    | (t1, Awaiting s) => removeNeighbor_resume n s d t1
    end.
Proof.
  unfold removeNeighbor, removeNeighbor_begin, removeNeighbor_resume.
  destruct (set_has n (_neighbors t)); simpl; [|done].
  set (t1 := match _receiveSockets t !! n with
             | Some s => _
             | None => t
             end).
  clearbody t1. unfold _disconnect, _disconnect_begin.
  destruct (_sendSockets t1 !! n) as [s|] eqn:Es; simpl; [|done].
  by destruct (_disconnect_settle n (Some s) d (log (FxDestroy (Outbound s)) t1))
    as [t2 [|e]].
Qed.

(** *** Framing and the handshake on the receiving side *)

Lemma BlockStream_blocks fuel size : forall buf,
  let r := BlockStream fuel size buf in
  Forall (fun b => length b = size) r.1 /\ concat r.1 ++ r.2 = buf.
Proof.
  induction fuel as [|f IH]; intros buf; simpl; [done|].
  destruct (Nat.eqb_spec size 0) as [Hz|Hz]; simpl; [done|].
  destruct (Nat.ltb_spec (length buf) size) as [Hlt|Hge]; simpl; [done|].
  specialize (IH (drop size buf)).
  destruct (BlockStream f size (drop size buf)) as [bs r]. simpl in *.
  destruct IH as [Hall Hcat]. split.
  - constructor; [|exact Hall]. rewrite length_take. lia.
  - rewrite <- app_assoc, Hcat. apply take_drop.
Qed.

(** The handshake promise resolves on the port packet of a peer, and the
    port read from it is the peer's port. *)
Lemma handshake_roundtrip port :
  port < 10 ^ 10 -> handshake_onData (portPacket port) = (Some (Resolved tt), port).
Proof.
  intros Hp. unfold handshake_onData.
  by rewrite portPacket_correct, portPacket_value.
Qed.

(** On an incorrect port packet the accept routine is rejected with the
    received text and leaves the transport, its trace included, as it was:
    no neighbor is looked up, and nothing is done to the socket. *)
Lemma incorrect_port_rejected sock portString o w t :
  incorrect_port portString = true ->
  _receiveConnection sock (HandshakeData portString) o w t
    = (t, Some (Rejected (IncorrectPort portString))).
Proof.
  intros H. unfold _receiveConnection, handshake_onData. by rewrite H.
Qed.

(** On a correct one the neighbor is looked up by [socket.address()]. *)
Lemma correct_port_identifies sock portString o w t :
  incorrect_port portString = false ->
  _receiveConnection sock (HandshakeData portString) o w t
    = (_receiveConnection_identify sock (Number_of_digits portString) o w t,
       Some (Resolved tt)).
Proof.
  intros H. unfold _receiveConnection, handshake_onData. by rewrite H.
Qed.

(** *** Connecting *)

Lemma connect_all_begin_spec ns : forall t,
  let r := connect_all_begin ns t in
  r.2.*1 = ns /\
  Forall (fun p => sockets_made t <= p.2 < sockets_made r.1)%nat r.2 /\
  trace r.1 = trace t ++ connect_effects (sockets_made t) ns /\
  sockets_made r.1 = (sockets_made t + length ns)%nat /\
  _sendSockets r.1 = _sendSockets t /\
  _receiveSockets r.1 = _receiveSockets t /\
  _neighbors r.1 = _neighbors t /\
  _neighborsToReconnect r.1 = _neighborsToReconnect t /\
  _isRunning r.1 = _isRunning t /\
  _port r.1 = _port t /\
  _reconnectionInterval r.1 = _reconnectionInterval t /\
  _reconnectionTimer r.1 = _reconnectionTimer t /\
  _onServerConnection r.1 = _onServerConnection t.
Proof.
  induction ns as [|n ns IH]; intros t; simpl.
  - unfold connect_effects. simpl. rewrite app_nil_r, Nat.add_0_r. split_and!; done.
  - specialize (IH (log (FxConnect (sockets_made t) (address n) (port n))
                      (set_sockets_made S t))).
    destruct (connect_all_begin ns _) as [t2 ps]. simpl in *.
    destruct IH as (H1 & H2 & H3 & H4 & H5 & H6 & H7 & H8 & H9 & H10 & H11 & H12 & H13).
    split_and!; try done.
    + f_equal. exact H1.
    + constructor; simpl; [lia|].
      eapply Forall_impl; [exact H2|]. simpl. intros; lia.
    + rewrite H3, <- app_assoc. f_equal. unfold connect_effects. simpl.
      rewrite Nat.add_0_r. f_equal. apply imap_ext. intros i x _. simpl.
      f_equal. lia.
    + lia.
Qed.

Lemma _connect_settle_fields n s o w t :
  let r := _connect_settle n s o w t in
  _receiveSockets r.1 = _receiveSockets t /\
  _neighbors r.1 = _neighbors t /\
  _neighborsToReconnect r.1 = _neighborsToReconnect t /\
  _isRunning r.1 = _isRunning t /\
  _port r.1 = _port t /\
  _reconnectionInterval r.1 = _reconnectionInterval t /\
  _reconnectionTimer r.1 = _reconnectionTimer t /\
  _onServerConnection r.1 = _onServerConnection t /\
  sockets_made r.1 = sockets_made t.
Proof. unfold _connect_settle. destruct o, w; simpl; done. Qed.

Lemma _connect_settle_connect n s w t :
  _connect_settle n s Connect w t =
    (log (FxWrite (Outbound s) (portPacket (_port t))) (_initSendSocket s n t),
     Resolved tt).
Proof. unfold _connect_settle. destruct w; reflexivity. Qed.

Lemma _connect_settle_failed n s o w t :
  o ≠ Connect ->
  exists e, _connect_settle n s o w t = (t, Rejected e).
Proof. intros Ho. destruct o; [done | | ]; simpl; eauto. Qed.

(** *** The reconnection tick *)

Lemma reconnect_settle_spec os ws ps : forall t,
  let t' := reconnect_settle os ws ps t in
  (forall n, n ∈ _neighborsToReconnect t' <->
     n ∈ _neighborsToReconnect t /\ ~ (n ∈ ps.*1 /\ os n = Connect)) /\
  (forall n, is_Some (_sendSockets t !! n) \/ (n ∈ ps.*1 /\ os n = Connect) ->
     is_Some (_sendSockets t' !! n)) /\
  (exists tr, trace t' = trace t ++ tr /\ Forall is_write tr) /\
  _reconnectionInterval t' = _reconnectionInterval t.
Proof.
  induction ps as [|[m s] ps IH]; intros t; simpl.
  - split_and!; try done.
    + intros n. rewrite elem_of_nil. tauto.
    + intros n [H|[H _]]; [done|]. by apply elem_of_nil in H.
    + exists []. by rewrite app_nil_r.
  - destruct (decide (os m = Connect)) as [Hm|Hm].
    + rewrite Hm, _connect_settle_connect.
      set (t1 := set_neighborsToReconnect _ _).
      destruct (IH t1) as (Hin & Hsome & (tr & Htr & Hw) & Hint).
      split_and!.
      * intros n. rewrite Hin. subst t1. simpl.
        rewrite elem_of_set_delete, elem_of_cons.
        split; [intros [[Hne Hn] Hno] | intros [Hn Hno]].
        -- split; [done|]. intros [[->|Hps] Ho]; [done|]. by apply Hno.
        -- split; [split; [|done] |].
           ++ intros ->. apply Hno. by split; [left|].
           ++ intros [Hps Ho]. apply Hno. by split; [right|].
      * intros n Hn. apply Hsome. subst t1. simpl.
        destruct (decide (n = m)) as [->|Hne].
        -- left. rewrite lookup_insert_eq. eauto.
        -- rewrite lookup_insert_ne by done.
           destruct Hn as [Hn|[Hn Ho]]; [by left|].
           apply elem_of_cons in Hn as [->|Hn]; [done|]. by right.
      * exists (FxWrite (Outbound s) (portPacket (_port t)) :: tr). split.
        -- rewrite Htr. subst t1. simpl. by rewrite <- app_assoc.
        -- constructor; [exact I | exact Hw].
      * rewrite Hint. reflexivity.
    + destruct (_connect_settle_failed m s (os m) (ws m) t Hm) as [e ->].
      destruct (IH t) as (Hin & Hsome & Htr & Hint).
      split_and!; try done.
      * intros n. rewrite Hin, elem_of_cons.
        split; intros [Hn Hno]; (split; [done|]); intros [Hps Ho].
        -- destruct Hps as [->|Hps]; [done|]. apply Hno. by split.
        -- apply Hno. split; [by right | done].
      * intros n Hn. apply Hsome. destruct Hn as [Hn|[Hn Ho]]; [by left|].
        apply elem_of_cons in Hn as [->|Hn]; [done|]. by right.
Qed.

(** C6. A reconnection tick starts a connect for every neighbor that was in
    the reconnection set when the timer fired. When all of them have
    settled, exactly the neighbors whose connect did not succeed are left in
    the set, those whose connect succeeded have a send socket, and the last
    effect of the tick, after every connect and every handshake write, is
    arming the timer anew with [reconnectionInterval]. *)
Theorem reconnect_retries_the_set_then_rearms os ws t :
  let t' := reconnect os ws t in
  (forall n, n ∈ _neighborsToReconnect t' <->
     n ∈ _neighborsToReconnect t /\ os n ≠ Connect) /\
  (forall n, n ∈ _neighborsToReconnect t -> os n = Connect ->
     is_Some (_sendSockets t' !! n)) /\
  (exists writes,
     trace t' = trace t
       ++ connect_effects (sockets_made t) (_neighborsToReconnect t)
       ++ writes ++ [FxSetTimeout (_reconnectionInterval t)] /\
     Forall is_write writes) /\
  _reconnectionTimer t' = true.
Proof.
  unfold reconnect.
  pose proof (connect_all_begin_spec (_neighborsToReconnect t) t) as Hb.
  destruct (connect_all_begin (_neighborsToReconnect t) t) as [t1 ps].
  simpl in Hb.
  destruct Hb as (Hps & _ & Htr1 & _ & _ & _ & _ & Hre & _ & _ & Hint1 & _).
  destruct (reconnect_settle_spec os ws ps t1) as (Hin & Hsome & (tr & Htr & Hw) & Hint).
  simpl. split_and!.
  - intros n. rewrite Hin, Hps, Hre. tauto.
  - intros n Hn Ho. apply Hsome. right. by rewrite Hps.
  - exists tr. split; [|exact Hw].
    rewrite Htr, Htr1, Hint, Hint1, <- !app_assoc. reflexivity.
  - reflexivity.
Qed.

(** *** Shutting down *)

Lemma disconnect_all_begin_spec ns : forall t,
  let r := disconnect_all_begin ns t in
  r.2 = map (fun n => (n, _sendSockets t !! n)) ns /\
  (exists tr, trace r.1 = trace t ++ tr /\
     forall n s, n ∈ ns -> _sendSockets t !! n = Some s -> FxDestroy (Outbound s) ∈ tr) /\
  _sendSockets r.1 = _sendSockets t /\
  _receiveSockets r.1 = _receiveSockets t /\
  _neighbors r.1 = _neighbors t /\
  _neighborsToReconnect r.1 = _neighborsToReconnect t /\
  _isRunning r.1 = _isRunning t.
Proof.
  induction ns as [|n ns IH]; intros t; simpl.
  - split_and!; try done. exists []. rewrite app_nil_r. split; [done|].
    intros n s Hn. by apply elem_of_nil in Hn.
  - unfold _disconnect_begin.
    destruct (_sendSockets t !! n) as [s|] eqn:Es.
    + specialize (IH (log (FxDestroy (Outbound s)) t)).
      destruct (disconnect_all_begin ns _) as [t2 ps]. simpl in *.
      destruct IH as (H1 & (tr & Htr & Hd) & H3 & H4 & H5 & H6 & H7).
      split_and!; try done.
      * by rewrite H1.
      * exists (FxDestroy (Outbound s) :: tr). split.
        -- rewrite Htr, <- app_assoc. reflexivity.
        -- intros m s' [->|Hm]%elem_of_cons Hs'.
           ++ rewrite Es in Hs'. injection Hs' as <-. apply list_elem_of_here.
           ++ apply list_elem_of_further. by apply (Hd m).
    + specialize (IH t).
      destruct (disconnect_all_begin ns _) as [t2 ps]. simpl in *.
      destruct IH as (H1 & (tr & Htr & Hd) & H3 & H4 & H5 & H6 & H7).
      split_and!; try done.
      * by rewrite H1.
      * exists tr. split; [done|].
        intros m s' [->|Hm]%elem_of_cons Hs'; [congruence|]. by apply (Hd m).
Qed.

Lemma disconnect_all_settle_spec ds ps : forall t,
  Forall (fun p => is_Some p.2) ps ->
  exists t', disconnect_all_settle ds ps t = (t', None) /\
    (forall n, n ∈ ps.*1 -> _sendSockets t' !! n = None) /\
    (forall n, _sendSockets t !! n = None -> _sendSockets t' !! n = None) /\
    _receiveSockets t' = _receiveSockets t /\
    _neighbors t' = _neighbors t /\
    _neighborsToReconnect t' = _neighborsToReconnect t /\
    _isRunning t' = _isRunning t /\
    exists tr, trace t' = trace t ++ tr.
Proof.
  induction ps as [|[n s] ps IH]; intros t Hall; simpl.
  - exists t. split_and!; try done.
    + intros n Hn. by apply elem_of_nil in Hn.
    + exists []. by rewrite app_nil_r.
  - apply Forall_cons in Hall as [[s' Hs'] Hall]. simpl in Hs'. subst s.
    destruct (_disconnect_settle_some n s' (ds n) t)
      as (t1 & -> & Hnone & Hkeep & Hr & Hn & Hre & Hrun & tr1 & Htr1).
    destruct (IH t1 Hall) as (t2 & -> & Hnone2 & Hkeep2 & Hr2 & Hn2 & Hre2 & Hrun2 & tr2 & Htr2).
    exists t2. split_and!; try congruence.
    + intros m [->|Hm]%elem_of_cons; [by apply Hkeep2 | by apply Hnone2].
    + intros m Hm. by apply Hkeep2, Hkeep.
    + exists (tr1 ++ tr2). by rewrite Htr2, Htr1, app_assoc.
Qed.

Lemma shutdown_detached ds c t :
  _isRunning t = true -> _onServerConnection t = false ->
  shutdown ds c t = (t, Rejected (SystemError "TypeError")).
Proof.
  intros Hrun Hoff. unfold shutdown, shutdown_begin, _destroyServerListeners.
  by rewrite Hrun, Hoff.
Qed.

Lemma shutdown_running_spec ds c t :
  _isRunning t = true ->
  _onServerConnection t = true ->
  (exists t', shutdown ds ServerOk t = (t', Resolved tt)) /\
  forall t', shutdown ds c t = (t', Resolved tt) ->
    _reconnectionTimer t' = false /\
    FxClearTimeout ∈ trace t' /\
    _neighborsToReconnect t' = [] /\
    _sendSockets t' = ∅ /\
    (forall n s, _sendSockets t !! n = Some s -> FxDestroy (Outbound s) ∈ trace t') /\
    isRunning t' = false.
Proof.
  unfold shutdown, shutdown_begin, _destroyServerListeners. intros -> ->. simpl.
  set (t1 := set_onServerConnection (fun _ => false) t).
  set (ns := (map_to_list (_sendSockets t)).*1).
  assert (Hns : forall n, n ∈ ns <-> is_Some (_sendSockets t !! n)).
  { intros n. subst ns. rewrite list_elem_of_fmap. split.
    - intros ([m s] & -> & Hin). apply elem_of_map_to_list in Hin. eauto.
    - intros [s Hs]. exists (n, s). split; [done|]. by apply elem_of_map_to_list. }
  pose proof (disconnect_all_begin_spec ns t1) as Hb.
  destruct (disconnect_all_begin ns t1) as [t2 ps]. simpl in Hb.
  destruct Hb as (Hps & (tr2 & Htr2 & Hd) & Hs2 & _).
  assert (Hall : Forall (fun p : TcpNeighbor * option nat => is_Some p.2) ps).
  { rewrite Hps. apply Forall_forall. intros [m o] Hin.
    apply list_elem_of_fmap in Hin as (m' & [= -> ->] & Hm'). simpl.
    by apply Hns. }
  unfold shutdown_resume.
  destruct (disconnect_all_settle_spec ds ps t2 Hall)
    as (t3 & -> & Hnone & Hkeep & _ & _ & _ & _ & tr3 & Htr3).
  assert (Hresult : forall t',
    (set_isRunning (fun _ => false)
       (set_neighborsToReconnect (fun _ => [])
          (_destroyReconnection (log FxServerClose t3))), Resolved tt)
      = (t', Resolved tt) ->
    _reconnectionTimer t' = false /\ FxClearTimeout ∈ trace t' /\
    _neighborsToReconnect t' = [] /\ _sendSockets t' = ∅ /\
    (forall n s, _sendSockets t !! n = Some s -> FxDestroy (Outbound s) ∈ trace t') /\
    isRunning t' = false).
  { intros t' [= <-]. simpl. split_and!; try done.
    - apply elem_of_app. right. apply list_elem_of_here.
    - apply map_empty. intros n.
      destruct (_sendSockets t !! n) as [s|] eqn:Es.
      + apply Hnone. rewrite Hps, <- list_fmap_compose.
        change (n ∈ id <$> ns). rewrite list_fmap_id. apply Hns. eauto.
      + apply Hkeep. by rewrite Hs2.
    - intros n s Hs. rewrite Htr3, Htr2, !elem_of_app. left. left. left. right.
      apply (Hd n); [|done]. apply Hns. eauto. }
  split; [eauto|].
  destruct c; [exact Hresult | discriminate].
Qed.


(** *** The invariants along a run *)

Lemma writes_on_app s (tr1 tr2 : list (Effect Data)) :
  writes_on s (tr1 ++ tr2) = writes_on s tr1 ++ writes_on s tr2.
Proof. unfold writes_on. apply omap_app. Qed.

Lemma elem_of_writes_on s bytes (tr : list (Effect Data)) : bytes ∈ writes_on s tr <-> FxWrite s bytes ∈ tr.
Proof.
  unfold writes_on. rewrite list_elem_of_omap. split.
  - intros (fx & Hfx & Hb). destruct fx; try discriminate.
    case_bool_decide; [|discriminate]. injection Hb as ->. by subst.
  - intros H. exists (FxWrite s bytes). split; [done|].
    by rewrite bool_decide_eq_true_2.
Qed.

Lemma writes_on_quiet s (fx : Effect Data) : ~ is_write fx -> writes_on s [fx] = [].
Proof. intros H. destruct fx; try reflexivity. by destruct H. Qed.

Lemma shrinks_refl t : shrinks t t.
Proof. unfold shrinks. split_and!; done. Qed.

Lemma shrinks_trans t1 t2 t3 : shrinks t1 t2 -> shrinks t2 t3 -> shrinks t1 t3.
Proof.
  intros (A1 & A2 & A3 & A4 & A5 & A6 & A7) (B1 & B2 & B3 & B4 & B5 & B6 & B7).
  unfold shrinks. split_and!; try congruence; [lia|].
  intros n s H. by apply A5, B5.
Qed.

Lemma shrinks_inv_core t t' : inv_core t -> shrinks t t' -> inv_core t'.
Proof.
  intros (I1 & I2 & I3 & I4 & I5) (A1 & A2 & A3 & A4 & A5 & A6 & A7).
  unfold inv_core, needsReconnect_ok. rewrite A1, A2. split_and!.
  - intros n Hn. destruct (I1 n Hn) as [Hin Hnone]. split; [done|].
    destruct (_sendSockets t' !! n) as [s|] eqn:E; [|done].
    apply A5 in E. congruence.
  - intros n [s Hs]. apply I2. apply A5 in Hs. eauto.
  - exact I3.
  - intros n s Hs. apply A5, I4 in Hs. lia.
  - intros k b H. apply elem_of_writes_on in H. rewrite A6 in H.
    apply elem_of_writes_on, I5 in H. lia.
Qed.

Lemma shrinks_idle_ok t t' : idle_ok t -> shrinks t t' -> idle_ok t'.
Proof.
  intros I (A1 & A2 & A3 & A4 & A5 & A6 & A7). unfold idle_ok.
  rewrite A2, A3. intros Hrun. destruct (I Hrun) as [He Hre]. split; [|done].
  apply map_empty. intros n.
  destruct (_sendSockets t' !! n) as [s|] eqn:E; [|done].
  apply A5 in E. rewrite He in E. by rewrite lookup_empty in E.
Qed.

Lemma shrinks_inv t t' : inv t -> shrinks t t' -> inv t'.
Proof.
  intros [Hc Hi] Hs. split; [by eapply shrinks_inv_core | by eapply shrinks_idle_ok].
Qed.

Lemma shrinks_log fx t :
  (forall s, writes_on s [fx] = []) -> shrinks t (log fx t).
Proof.
  intros Hfx. unfold shrinks. simpl. split_and!; try done.
  intros s. by rewrite writes_on_app, Hfx, app_nil_r.
Qed.

Lemma shrinks_send_socket_error s e t : shrinks t (send_socket_error s e t).
Proof.
  unfold send_socket_error. destruct (send_listeners t !! s).
  - by apply shrinks_log.
  - apply shrinks_refl.
Qed.

Lemma shrinks_delete_sendSocket n t :
  shrinks t (set_sendSockets (fun m => delete n m) t).
Proof.
  unfold shrinks. simpl. split_and!; try done.
  intros m s. rewrite lookup_delete. case_decide; [discriminate | done].
Qed.

Lemma shrinks_delete_receiveSocket n t :
  shrinks t (set_receiveSockets (fun m => delete n m) t).
Proof. unfold shrinks. simpl. split_and!; done. Qed.

Lemma shrinks_send_socket_close s t : shrinks t (send_socket_close s t).
Proof.
  unfold send_socket_close. destruct (send_listeners t !! s) as [n|].
  - eapply shrinks_trans; [|apply shrinks_delete_sendSocket].
    eapply shrinks_trans; [|by apply shrinks_log].
    unfold shrinks. simpl. split_and!; done.
  - apply shrinks_refl.
Qed.

Lemma shrinks_silence_and_destroy s t : shrinks t (silence_and_destroy s t).
Proof.
  unfold silence_and_destroy.
  eapply shrinks_trans; by apply shrinks_log.
Qed.

Lemma shrinks_receive_tables f g t :
  shrinks t (set_receiveSockets f (set_receive_listeners g t)).
Proof. unfold shrinks. simpl. split_and!; done. Qed.

Lemma shrinks__initReceiveSocket sock n t : shrinks t (_initReceiveSocket sock n t).
Proof. apply shrinks_receive_tables. Qed.

Lemma shrinks__receiveConnection_admit sock n t :
  shrinks t (_receiveConnection_admit sock n t).
Proof.
  unfold _receiveConnection_admit. destruct (negb _).
  - apply shrinks_silence_and_destroy.
  - apply shrinks__initReceiveSocket.
Qed.

Lemma shrinks_emit_all (f : text -> Event Data) bs : forall t,
  shrinks t (fold_left (fun t packet => log (FxEmit (f packet)) t) bs t).
Proof.
  induction bs as [|b bs IH]; intros t; simpl; [apply shrinks_refl|].
  eapply shrinks_trans; [|apply IH]. by apply shrinks_log.
Qed.

Lemma shrinks_receive_socket_data s bytes t :
  shrinks t (receive_socket_data unpack packetSize s bytes t).
Proof.
  unfold receive_socket_data.
  destruct (receive_listeners t !! s) as [[[n a] buf]|]; [|apply shrinks_refl].
  destruct (BlockStream _ _ _) as [bs r].
  eapply shrinks_trans; [|apply (shrinks_emit_all (fun p => EvReceive (unpack p) n a))].
  unfold shrinks. simpl. split_and!; done.
Qed.

Lemma shrinks_receive_socket_error s e t : shrinks t (receive_socket_error s e t).
Proof.
  unfold receive_socket_error. destruct (receive_listeners t !! s).
  - by apply shrinks_log.
  - apply shrinks_refl.
Qed.

Lemma shrinks_receive_socket_close s t : shrinks t (receive_socket_close s t).
Proof.
  unfold receive_socket_close.
  destruct (receive_listeners t !! s) as [[[n a] buf]|]; [|apply shrinks_refl].
  eapply shrinks_trans; [|apply shrinks_delete_receiveSocket].
  eapply shrinks_trans; [|by apply shrinks_log].
  unfold shrinks. simpl. split_and!; done.
Qed.

Lemma shrinks__disconnect_begin n t : shrinks t (_disconnect_begin n t).1.
Proof.
  unfold _disconnect_begin. destruct (_sendSockets t !! n); simpl.
  - by apply shrinks_log.
  - apply shrinks_refl.
Qed.

Lemma shrinks__disconnect_settle n s d t : shrinks t (_disconnect_settle n s d t).1.
Proof.
  unfold _disconnect_settle. destruct s as [s|]; simpl; [|apply shrinks_refl].
  eapply shrinks_trans; [|apply shrinks_delete_sendSocket].
  destruct d.
  - apply shrinks_send_socket_close.
  - eapply shrinks_trans; [apply shrinks_send_socket_error | apply shrinks_send_socket_close].
Qed.

Lemma shrinks__disconnect n d t : shrinks t (_disconnect n d t).1.
Proof.
  unfold _disconnect.
  pose proof (shrinks__disconnect_begin n t) as Hb.
  destruct (_disconnect_begin n t) as [t1 s]. simpl in Hb.
  eapply shrinks_trans; [exact Hb | apply shrinks__disconnect_settle].
Qed.

Lemma shrinks_server_error e t : shrinks t (server_error e t).
Proof.
  unfold server_error. destruct (_onServerConnection t).
  - by apply shrinks_log.
  - apply shrinks_refl.
Qed.

Lemma writes_on_imap_quiet s ns : forall g : nat -> TcpNeighbor -> Effect Data,
  (forall i n, ~ is_write (g i n)) -> writes_on s (imap g ns) = [].
Proof.
  induction ns as [|n ns IH]; intros g Hg; [reflexivity|].
  simpl. change (writes_on s ([g 0%nat n] ++ imap (g ∘ S) ns) = []).
  rewrite writes_on_app, writes_on_quiet by apply Hg.
  simpl. apply IH. intros i m. apply Hg.
Qed.

Lemma shrinks_connect_all_begin ns t : shrinks t (connect_all_begin ns t).1.
Proof.
  destruct (connect_all_begin_spec ns t)
    as (_ & _ & Htr & Hm & Hs & _ & Hn & Hre & Hrun & Hp & _).
  unfold shrinks. rewrite Hn, Hre, Hrun, Hm, Hs, Htr, Hp. split_and!; try done; [lia|].
  intros s. rewrite writes_on_app. unfold connect_effects.
  rewrite writes_on_imap_quiet; [by rewrite app_nil_r|]. intros i n H. exact H.
Qed.

Lemma shrinks_disconnect_all_begin ns : forall t,
  shrinks t (disconnect_all_begin ns t).1.
Proof.
  induction ns as [|n ns IH]; intros t; simpl; [apply shrinks_refl|].
  pose proof (shrinks__disconnect_begin n t) as Hb.
  destruct (_disconnect_begin n t) as [t1 s]. simpl in Hb.
  specialize (IH t1). destruct (disconnect_all_begin ns t1) as [t2 ps].
  simpl in *. by eapply shrinks_trans.
Qed.

Lemma shrinks_disconnect_all_settle ds ps : forall t,
  shrinks t (disconnect_all_settle ds ps t).1.
Proof.
  induction ps as [|[n s] ps IH]; intros t; simpl; [apply shrinks_refl|].
  pose proof (shrinks__disconnect_settle n s (ds n) t) as Hb.
  destruct (_disconnect_settle n s (ds n) t) as [t1 r]. simpl in Hb.
  specialize (IH t1). destruct (disconnect_all_settle ds ps t1) as [t2 e].
  simpl in *. by eapply shrinks_trans.
Qed.

(** A connect that succeeded, for a neighbor that is not marked. *)
Lemma connected_inv_core n s pkt t :
  inv_core t -> n ∈ _neighbors t -> n ∉ _neighborsToReconnect t ->
  (s < sockets_made t)%nat ->
  inv_core (log (FxWrite (Outbound s) pkt) (_initSendSocket s n t)).
Proof.
  intros (I1 & I2 & I3 & I4 & I5) Hn Hre Hs.
  unfold inv_core, needsReconnect_ok. simpl. split_and!.
  - intros m Hm. destruct (I1 m Hm) as [? ?]. split; [done|].
    rewrite lookup_insert_ne; [done|]. by intros ->.
  - intros m. rewrite lookup_insert. case_decide; [by subst | apply I2].
  - exact I3.
  - intros m s'. rewrite lookup_insert. case_decide; [by intros [= <-] | apply I4].
  - intros k b [H|H%list_elem_of_singleton]%elem_of_app; [by apply (I5 k b)|].
    by injection H as -> _.
Qed.

(** A connect that succeeded during a tick: the neighbor is unmarked. *)
Lemma reconnected_inv_core n s pkt t :
  inv_core t -> n ∈ _neighbors t -> (s < sockets_made t)%nat ->
  inv_core (set_neighborsToReconnect (set_delete n)
              (log (FxWrite (Outbound s) pkt) (_initSendSocket s n t))).
Proof.
  intros (I1 & I2 & I3 & I4 & I5) Hn Hs.
  unfold inv_core, needsReconnect_ok. simpl. split_and!.
  - intros m [Hne Hm]%elem_of_set_delete. destruct (I1 m Hm) as [? ?].
    split; [done|]. by rewrite lookup_insert_ne.
  - intros m. rewrite lookup_insert. case_decide; [by subst | apply I2].
  - exact I3.
  - intros m s'. rewrite lookup_insert. case_decide; [by intros [= <-] | apply I4].
  - intros k b [H|H%list_elem_of_singleton]%elem_of_app; [by apply (I5 k b)|].
    by injection H as -> _.
Qed.

(** A connect that failed: the neighbor is marked. *)
Lemma marked_inv_core n t :
  inv_core t -> n ∈ _neighbors t -> _sendSockets t !! n = None ->
  inv_core (set_neighborsToReconnect (set_add n) t).
Proof.
  intros (I1 & I2 & I3 & I4 & I5) Hn Hs.
  unfold inv_core, needsReconnect_ok. simpl. split_and!; try done.
  intros m [->|Hm]%elem_of_set_add; [done | by apply I1].
Qed.

Lemma added_inv_core n t :
  inv_core t -> inv_core (set_neighbors (set_add n) t).
Proof.
  intros (I1 & I2 & I3 & I4 & I5).
  unfold inv_core, needsReconnect_ok. simpl. split_and!; try done.
  - intros m Hm. destruct (I1 m Hm). split; [|done].
    apply elem_of_set_add. by right.
  - intros m Hm. apply elem_of_set_add. right. by apply I2.
  - by apply NoDup_set_add.
Qed.

Lemma fresh_socket_unwritten t k :
  inv_core t -> (sockets_made t <= k)%nat -> writes_on (Outbound k) (trace t) = [].
Proof.
  intros (_ & _ & _ & _ & I5) Hk.
  destruct (writes_on (Outbound k) (trace t)) as [|b l] eqn:E; [done|].
  assert (Hb : b ∈ writes_on (Outbound k) (trace t)) by (rewrite E; left).
  apply elem_of_writes_on, I5 in Hb. lia.
Qed.

Lemma pending_ok_shrinks n s t t' : pending_ok n s t -> shrinks t t' -> pending_ok n s t'.
Proof.
  intros (Hc & Hrun & Hn & Hre & Hs & Hlt & Hw) Hsh.
  pose proof (shrinks_inv_core _ _ Hc Hsh) as Hc'.
  destruct Hsh as (A1 & A2 & A3 & A4 & A5 & A6 & A7).
  unfold pending_ok. rewrite A1, A2, A3, A6. split_and!; try done.
  - destruct (_sendSockets t' !! n) as [s'|] eqn:E; [|done].
    apply A5 in E. congruence.
  - lia.
Qed.

Lemma addNeighbor_begin_spec n t :
  inv t ->
  match addNeighbor_begin n t with
  | (t1, Done _) => inv t1
  | (t1, Awaiting s) => pending_ok n s t1
  end.
Proof.
  intros [Hc Hi]. unfold addNeighbor_begin.
  destruct (set_has n (_neighbors t)) eqn:Has; [by split|].
  apply set_has_false in Has.
  pose proof (added_inv_core n t Hc) as Hc1.
  simpl. destruct (_isRunning t) eqn:Hrun; simpl.
  - pose proof Hc as (I1 & I2 & _).
    assert (Hp : pending_ok n (sockets_made t)
                   (set_sockets_made S (set_neighbors (set_add n) t))).
    { unfold pending_ok. simpl. split_and!; try done.
      - eapply shrinks_inv_core; [exact Hc1|].
        unfold shrinks. simpl. split_and!; try done. lia.
      - apply elem_of_set_add. by left.
      - intros Hn. by destruct (I1 n Hn).
      - destruct (_sendSockets t !! n) eqn:E; [|done].
        exfalso. apply Has, I2. eauto.
      - lia.
      - by apply fresh_socket_unwritten. }
    eapply pending_ok_shrinks; [exact Hp|]. by apply shrinks_log.
  - split; [exact Hc1|]. unfold idle_ok. simpl. exact Hi.
Qed.

Lemma addNeighbor_resume_inv n s o w t :
  pending_ok n s t -> inv (addNeighbor_resume n s o w t).1.
Proof.
  intros (Hc & Hrun & Hn & Hre & Hs & Hlt & _). unfold addNeighbor_resume.
  destruct (decide (o = Connect)) as [->|Ho].
  - rewrite _connect_settle_connect. simpl. split.
    + by apply connected_inv_core.
    + unfold idle_ok. simpl. congruence.
  - destruct (_connect_settle_failed n s o w t Ho) as [e ->]. simpl. split.
    + by apply marked_inv_core.
    + unfold idle_ok. simpl. congruence.
Qed.

Lemma addNeighbor_inv n o w t : inv t -> inv (addNeighbor n o w t).1.
Proof.
  intros Hinv. unfold addNeighbor.
  pose proof (addNeighbor_begin_spec n t Hinv) as Hb.
  destruct (addNeighbor_begin n t) as [t1 [r|s]]; [exact Hb|].
  by apply addNeighbor_resume_inv.
Qed.

Lemma removeNeighbor_inv n d t : inv t -> inv (removeNeighbor n d t).1.
Proof.
  intros Hinv. unfold removeNeighbor.
  destruct (negb (set_has n (_neighbors t))); [exact Hinv|].
  set (t1 := match _receiveSockets t !! n with Some s => _ | None => t end).
  assert (H1 : shrinks t t1).
  { subst t1. destruct (_receiveSockets t !! n); [|apply shrinks_refl].
    eapply shrinks_trans; [apply shrinks_silence_and_destroy|].
    unfold shrinks. simpl. split_and!; done. }
  clearbody t1.
  assert (exists t2, shrinks t1 t2 /\ _sendSockets t2 !! n = None /\
            match _sendSockets t1 !! n with
            | Some _ => _disconnect n d t1
            | None => (t1, Resolved tt)
            end = (t2, Resolved tt)) as (t2 & H2 & Hnone & ->).
  { destruct (_sendSockets t1 !! n) as [s|] eqn:Es.
    - destruct (_disconnect_some n s d t1 Es) as (t2 & Heq & Hnone & _).
      exists t2. split_and!; [|done..].
      pose proof (shrinks__disconnect n d t1) as Hd. by rewrite Heq in Hd.
    - exists t1. split_and!; [apply shrinks_refl|done..]. }
  simpl.
  pose proof (shrinks_inv _ _ Hinv (shrinks_trans _ _ _ H1 H2)) as [Hc Hi].
  destruct Hc as (I1 & I2 & I3 & I4 & I5). split.
  - unfold inv_core, needsReconnect_ok. simpl. split_and!; try done.
    + intros m [Hne Hm]%elem_of_set_delete. destruct (I1 m Hm).
      split; [|done]. by apply elem_of_set_delete.
    + intros m Hm. apply elem_of_set_delete. split; [|by apply I2].
      intros ->. rewrite Hnone in Hm. by destruct Hm.
    + by apply NoDup_set_delete.
  - unfold idle_ok. simpl. intros Hrun. destruct (Hi Hrun) as [? Hre].
    split; [done|]. by rewrite Hre.
Qed.

Lemma send_inv data n w t : inv t -> inv (send pack data n w t).1.
Proof.
  intros [Hc Hi]. unfold send.
  destruct (negb (gatewayCanSendTo n)); [by split|].
  destruct (_sendSockets t !! n) as [s|] eqn:Es; [|by split].
  assert (inv (log (FxWrite (Outbound s) (pack data)) t)) as Hinv.
  { destruct Hc as (I1 & I2 & I3 & I4 & I5). split; [|exact Hi].
    unfold inv_core, needsReconnect_ok. simpl. split_and!; try done.
    intros k b [H|H%list_elem_of_singleton]%elem_of_app; [by apply (I5 k b)|].
    injection H as -> _. by apply (I4 n). }
  destruct w; exact Hinv.
Qed.

Lemma shrinks__initReconnection t : shrinks t (_initReconnection t).
Proof.
  unfold _initReconnection.
  eapply shrinks_trans; [|by apply shrinks_log].
  unfold shrinks. simpl. split_and!; done.
Qed.

Lemma shrinks__destroyReconnection t : shrinks t (_destroyReconnection t).
Proof.
  unfold _destroyReconnection.
  eapply shrinks_trans; [by apply (shrinks_log FxClearTimeout)|].
  unfold shrinks. simpl. split_and!; done.
Qed.

Lemma run_settle_inv_core os ws ps : forall t,
  inv_core t -> NoDup ps.*1 ->
  Forall (fun p => p.1 ∈ _neighbors t /\ (p.1 ∉ _neighborsToReconnect t) /\
                   _sendSockets t !! p.1 = None /\ (p.2 < sockets_made t)%nat) ps ->
  inv_core (run_settle os ws ps t).
Proof.
  induction ps as [|[n s] ps IH]; intros t Hc Hnd Hall; simpl; [exact Hc|].
  apply NoDup_cons in Hnd as [Hn Hnd].
  apply Forall_cons in Hall as [(Hin & Hre & Hs & Hlt) Hall]. simpl in *.
  destruct (decide (os n = Connect)) as [Ho|Ho].
  - rewrite Ho, _connect_settle_connect. apply IH; [|exact Hnd|].
    + by apply connected_inv_core.
    + apply Forall_forall. intros [m s'] Hm.
      rewrite Forall_forall in Hall. destruct (Hall _ Hm) as (? & ? & ? & ?).
      simpl in *. split_and!; try done.
      rewrite lookup_insert_ne; [done|]. intros ->. apply Hn.
      apply list_elem_of_fmap. by exists (m, s').
  - destruct (_connect_settle_failed n s (os n) (ws n) t Ho) as [e ->].
    apply IH; [|exact Hnd|].
    + by apply marked_inv_core.
    + apply Forall_forall. intros [m s'] Hm.
      rewrite Forall_forall in Hall. destruct (Hall _ Hm) as (? & ? & ? & ?).
      simpl in *. split_and!; try done.
      intros [Heq|?]%elem_of_set_add; [|done]. apply Hn. rewrite <- Heq.
      apply list_elem_of_fmap. by exists (m, s').
Qed.

Lemma run_inv l os ws t : inv t -> inv (run l os ws t).1.
Proof.
  intros [Hc Hi]. unfold run.
  destruct (_isRunning t) eqn:Hrun; [by split|].
  destruct (Hi Hrun) as [Hempty Hnil].
  pose proof (shrinks_log (FxListen (_host t) (_port t)) t ltac:(done)) as H1.
  destruct l as [|e]; [|simpl; by apply (shrinks_inv t)].
  set (t2 := _initServerListeners _).
  assert (H2 : shrinks t t2).
  { eapply shrinks_trans; [exact H1|]. unfold shrinks. simpl. split_and!; done. }
  pose proof (connect_all_begin_spec (_neighbors t2) t2) as Hb.
  pose proof (shrinks_connect_all_begin (_neighbors t2) t2) as H3.
  destruct (connect_all_begin (_neighbors t2) t2) as [t3 ps]. simpl in Hb, H3.
  destruct Hb as (Hps & Hlt & _ & _ & Hs3 & _ & Hn3 & Hre3 & _).
  pose proof (shrinks_inv_core _ _ Hc (shrinks_trans _ _ _ H2 H3)) as Hc3.
  simpl. split; [|unfold idle_ok; simpl; discriminate].
  refine (shrinks_inv_core _ _ _ (shrinks__initReconnection _)).
  apply run_settle_inv_core; [exact Hc3| |].
  - rewrite Hps. subst t2. simpl. by destruct Hc as (_ & _ & ? & _).
  - apply Forall_forall. intros [m s] Hm.
    rewrite Forall_forall in Hlt. specialize (Hlt _ Hm). simpl in *.
    rewrite Hn3, Hre3, Hs3. subst t2. simpl. rewrite Hnil, Hempty.
    split_and!; [|apply not_elem_of_nil|apply lookup_empty|lia].
    rewrite <- Hps. apply list_elem_of_fmap. by exists (m, s).
Qed.

Lemma shutdown_cases ds c t :
  _isRunning t = true ->
  exists t4, shrinks t t4 /\
    ((exists e, shutdown ds c t = (t4, Rejected e)) \/
     shutdown ds c t =
       (set_isRunning (fun _ => false)
          (set_neighborsToReconnect (fun _ => []) (_destroyReconnection t4)),
        Resolved tt)).
Proof.
  intros Hrun. destruct (_onServerConnection t) eqn:Hon.
  2:{ exists t. split; [apply shrinks_refl|]. left.
      rewrite (shutdown_detached ds c t Hrun Hon). eauto. }
  unfold shutdown, shutdown_begin, _destroyServerListeners. rewrite Hrun, Hon. simpl.
  set (t1 := set_onServerConnection (fun _ => false) t).
  assert (H1 : shrinks t t1) by (unfold shrinks; simpl; split_and!; done).
  pose proof (shrinks_disconnect_all_begin (map_to_list (_sendSockets t)).*1 t1) as H2.
  destruct (disconnect_all_begin _ t1) as [t2 ps]. simpl in H2.
  unfold shutdown_resume.
  pose proof (shrinks_disconnect_all_settle ds ps t2) as H3.
  destruct (disconnect_all_settle ds ps t2) as [t3 [e|]]; simpl in H3.
  - exists t3. split; [|left; eauto].
    eapply shrinks_trans; [|exact H3]. by eapply shrinks_trans.
  - exists (log FxServerClose t3). split.
    + eapply shrinks_trans; [|by apply shrinks_log].
      eapply shrinks_trans; [|exact H3]. by eapply shrinks_trans.
    + destruct c; [right; reflexivity | left; eauto].
Qed.

Lemma shutdown_inv ds c t : inv t -> inv (shutdown ds c t).1.
Proof.
  intros Hinv. destruct (_isRunning t) eqn:Hrun.
  - destruct (_onServerConnection t) eqn:Hon.
    2:{ by rewrite (shutdown_detached ds c t Hrun Hon). }
    destruct (shutdown_running_spec ds c t Hrun Hon) as [_ Hres].
    destruct (shutdown_cases ds c t Hrun) as (t4 & Hsh & [[e He]|He]).
    + rewrite He. simpl. by apply (shrinks_inv t).
    + specialize (Hres _ He). rewrite He. simpl.
      destruct Hres as (_ & _ & _ & Hempty & _).
      pose proof (shrinks_inv_core _ _ (proj1 Hinv)
                    (shrinks_trans _ _ _ Hsh (shrinks__destroyReconnection t4)))
        as (I1 & I2 & I3 & I4 & I5).
      split.
      * unfold inv_core, needsReconnect_ok. simpl. split_and!; try done.
        intros n Hn. by apply elem_of_nil in Hn.
      * unfold idle_ok. simpl. intros _. by split.
  - unfold shutdown, shutdown_begin. rewrite Hrun. exact Hinv.
Qed.

Lemma reconnect_settle_inv_core os ws ps : forall t,
  inv_core t ->
  Forall (fun p => p.1 ∈ _neighbors t /\ (p.2 < sockets_made t)%nat) ps ->
  inv_core (reconnect_settle os ws ps t) /\
  _isRunning (reconnect_settle os ws ps t) = _isRunning t.
Proof.
  induction ps as [|[n s] ps IH]; intros t Hc Hall; simpl; [done|].
  apply Forall_cons in Hall as [[Hin Hlt] Hall]. simpl in *.
  destruct (decide (os n = Connect)) as [Ho|Ho].
  - rewrite Ho, _connect_settle_connect.
    set (t1 := set_neighborsToReconnect _ _).
    destruct (IH t1) as [H1 H2]; [by apply reconnected_inv_core|exact Hall|].
    split; [exact H1|]. rewrite H2. reflexivity.
  - destruct (_connect_settle_failed n s (os n) (ws n) t Ho) as [e ->].
    by apply IH.
Qed.

Lemma reconnect_inv os ws t : inv t -> inv (reconnect os ws t).
Proof.
  intros [Hc Hi]. unfold reconnect.
  pose proof (connect_all_begin_spec (_neighborsToReconnect t) t) as Hb.
  pose proof (shrinks_connect_all_begin (_neighborsToReconnect t) t) as H1.
  destruct (connect_all_begin (_neighborsToReconnect t) t) as [t1 ps]. simpl in Hb, H1.
  destruct Hb as (Hps & Hlt & _ & _ & _ & _ & Hn1 & _ & Hrun1 & _).
  destruct (reconnect_settle_inv_core os ws ps t1) as [Hc2 Hrun2].
  - by eapply shrinks_inv_core.
  - apply Forall_forall. intros [m s] Hm.
    rewrite Forall_forall in Hlt. specialize (Hlt _ Hm). simpl in *.
    split; [|lia]. rewrite Hn1. apply (proj1 Hc).
    rewrite <- Hps. apply list_elem_of_fmap. by exists (m, s).
  - pose proof (shrinks__initReconnection (reconnect_settle os ws ps t1)) as H3.
    split; [by eapply shrinks_inv_core|].
    unfold idle_ok. destruct H3 as (_ & _ & -> & _). rewrite Hrun2, Hrun1.
    intros Hrun. destruct (Hi Hrun) as [Hempty Hnil].
    rewrite Hnil in Hps. apply fmap_nil_inv in Hps. subst ps. simpl.
    destruct H1 as (_ & Hre & _ & _ & Hsub & _). rewrite Hre. split; [|done].
    apply map_empty. intros n.
    destruct (_sendSockets t1 !! n) as [s|] eqn:E; [|done].
    apply Hsub in E. rewrite Hempty in E. by rewrite lookup_empty in E.
Qed.

Lemma _receiveConnection_inv sock h o w t :
  inv t -> inv (_receiveConnection sock h o w t).1.
Proof.
  intros Hinv. unfold _receiveConnection.
  destruct h as [p|e| |]; simpl; try done.
  - unfold handshake_onData.
    destruct (incorrect_port p); simpl; [done|].
    unfold _receiveConnection_identify.
    destruct (List.find _ _) as [n|].
    { apply (shrinks_inv t); [done|]. apply shrinks__receiveConnection_admit. }
    destruct (_receiveUnknownNeighbor t);
      [|apply (shrinks_inv t); [done|]; apply shrinks_silence_and_destroy].
    set (n := new_TcpNeighbor _ _ _).
    set (t1 := set_neighbors_made S t).
    assert (Hinv1 : inv t1).
    { apply (shrinks_inv t); [done|]. unfold shrinks. simpl. split_and!; done. }
    pose proof (addNeighbor_begin_spec n t1 Hinv1) as Hb.
    destruct (addNeighbor_begin n t1) as [t2 [r|s]].
    + apply (shrinks_inv t2); [done|].
      eapply shrinks_trans; [|apply shrinks__receiveConnection_admit].
      by apply shrinks_log.
    + apply addNeighbor_resume_inv.
      eapply pending_ok_shrinks; [exact Hb|].
      eapply shrinks_trans; [|apply shrinks__receiveConnection_admit].
      by apply shrinks_log.
  - apply (shrinks_inv t); [done|]. apply shrinks_silence_and_destroy.
Qed.

Lemma new_TcpTransport_inv h p i r : inv (new_TcpTransport (Data := Data) h p i r).
Proof.
  split.
  - unfold inv_core, needsReconnect_ok. simpl. split_and!.
    + intros n Hn. by apply elem_of_nil in Hn.
    + intros n [s Hs]. by rewrite lookup_empty in Hs.
    + apply NoDup_nil_2.
    + intros n s Hs. by rewrite lookup_empty in Hs.
    + intros k b Hb. by apply elem_of_nil in Hb.
  - unfold idle_ok. simpl. done.
Qed.

Lemma step_inv t t' : step pack unpack packetSize t t' -> inv t -> inv t'.
Proof.
  intros Hstep Hinv. destruct Hstep.
  - by apply addNeighbor_inv.
  - by apply removeNeighbor_inv.
  - by apply run_inv.
  - by apply shutdown_inv.
  - by apply send_inv.
  - by apply reconnect_inv.
  - by apply _receiveConnection_inv.
  - apply (shrinks_inv t); [done|]. apply shrinks_send_socket_error.
  - apply (shrinks_inv t); [done|]. apply shrinks_send_socket_close.
  - apply (shrinks_inv t); [done|]. apply shrinks_receive_socket_data.
  - apply (shrinks_inv t); [done|]. apply shrinks_receive_socket_error.
  - apply (shrinks_inv t); [done|]. apply shrinks_receive_socket_close.
  - apply (shrinks_inv t); [done|]. apply shrinks_server_error.
Qed.


(** *** The handshake discipline along a run *)

Lemma quiet_refl t : quiet t t.
Proof. unfold quiet. split_and!; done. Qed.

Lemma quiet_trans t1 t2 t3 : quiet t1 t2 -> quiet t2 t3 -> quiet t1 t3.
Proof.
  intros (A1 & A2 & A3) (B1 & B2 & B3). unfold quiet. split_and!; try congruence.
  intros n s H. by apply A2, B2.
Qed.

Lemma shrinks_quiet t t' : shrinks t t' -> quiet t t'.
Proof. intros (_ & _ & _ & _ & A5 & A6 & A7). by split_and!. Qed.

Lemma quiet_disciplined t t' : disciplined pack t -> quiet t t' -> disciplined pack t'.
Proof.
  intros [D1 D2] (A1 & A2 & A3). split.
  - intros k. rewrite A3, A1. apply D1.
  - intros n s Hs. rewrite A3. apply (D2 n). by apply A2.
Qed.

Lemma writes_on_write_eq s bytes : writes_on (Data := Data) s [FxWrite s bytes] = [bytes].
Proof. unfold writes_on. simpl. by rewrite bool_decide_eq_true_2. Qed.

Lemma writes_on_write_ne s s' bytes :
  s' ≠ s -> writes_on (Data := Data) s [FxWrite s' bytes] = [].
Proof. intros H. unfold writes_on. simpl. by rewrite bool_decide_eq_false_2. Qed.

Lemma connected_disciplined n s t :
  disciplined pack t -> writes_on (Outbound s) (trace t) = [] ->
  disciplined pack (log (FxWrite (Outbound s) (portPacket (_port t))) (_initSendSocket s n t)).
Proof.
  intros [D1 D2] Hs. split; simpl.
  - intros k. rewrite writes_on_app. destruct (decide (k = s)) as [->|Hk].
    + right. exists []. by rewrite Hs, writes_on_write_eq.
    + rewrite writes_on_write_ne, app_nil_r by congruence. apply D1.
  - intros m s'. rewrite writes_on_app, lookup_insert. case_decide.
    + intros [= <-]. by rewrite Hs, writes_on_write_eq.
    + intros Hm Hnil. apply app_eq_nil in Hnil as [Hnil _]. by apply (D2 m s').
Qed.

Lemma sent_disciplined data n s t :
  disciplined pack t -> _sendSockets t !! n = Some s ->
  disciplined pack (log (FxWrite (Outbound s) (pack data)) t).
Proof.
  intros [D1 D2] Hs. split; simpl.
  - intros k. rewrite writes_on_app. destruct (decide (k = s)) as [->|Hk].
    + right. rewrite writes_on_write_eq.
      destruct (D1 s) as [Hnil|[ds Hds]]; [by destruct (D2 n s)|].
      exists (ds ++ [data]). by rewrite Hds, map_app.
    + rewrite writes_on_write_ne, app_nil_r by congruence. apply D1.
  - intros m s' Hm Hnil. rewrite writes_on_app in Hnil.
    apply app_eq_nil in Hnil as [Hnil _]. by apply (D2 m s').
Qed.

Lemma connect_all_begin_sockets ns : forall t,
  (connect_all_begin ns t).2.*2 = seq (sockets_made t) (length ns).
Proof.
  induction ns as [|n ns IH]; intros t; simpl; [reflexivity|].
  specialize (IH (log (FxConnect (sockets_made t) (address n) (port n))
                    (set_sockets_made S t))).
  destruct (connect_all_begin ns _) as [t2 ps]. simpl in *. f_equal. exact IH.
Qed.

Lemma connect_all_begin_unwritten ns t :
  inv_core t ->
  let r := connect_all_begin ns t in
  NoDup r.2.*2 /\
  Forall (fun p => writes_on (Outbound p.2) (trace r.1) = []) r.2.
Proof.
  intros Hc. simpl. split.
  - rewrite connect_all_begin_sockets. apply NoDup_seq.
  - destruct (connect_all_begin_spec ns t) as (_ & Hlt & _).
    destruct (shrinks_connect_all_begin ns t) as (_ & _ & _ & _ & _ & Hw & _).
    eapply Forall_impl; [exact Hlt|]. simpl. intros [m s] Hs. simpl in *.
    rewrite Hw. apply fresh_socket_unwritten; [done | lia].
Qed.

Lemma settle_one_unwritten n s s' pkt t :
  s' ≠ s -> writes_on (Outbound s') (trace t) = [] ->
  writes_on (Outbound s')
    (trace (log (FxWrite (Outbound s) pkt) (_initSendSocket s n t))) = [].
Proof.
  intros Hne Hw. simpl. rewrite writes_on_app, Hw, writes_on_write_ne; [done|].
  congruence.
Qed.

Lemma run_settle_disciplined os ws ps : forall t,
  disciplined pack t -> NoDup ps.*2 ->
  Forall (fun p => writes_on (Outbound p.2) (trace t) = []) ps ->
  disciplined pack (run_settle os ws ps t).
Proof.
  induction ps as [|[n s] ps IH]; intros t Hd Hnd Hall; simpl; [exact Hd|].
  apply NoDup_cons in Hnd as [Hn Hnd].
  apply Forall_cons in Hall as [Hs Hall]. simpl in *.
  destruct (decide (os n = Connect)) as [Ho|Ho].
  - rewrite Ho, _connect_settle_connect. apply IH; [|exact Hnd|].
    + by apply connected_disciplined.
    + apply Forall_forall. intros [m s'] Hm.
      rewrite Forall_forall in Hall. specialize (Hall _ Hm). simpl in *.
      apply (settle_one_unwritten n s s' (portPacket (_port t))); [|exact Hall].
      intros ->. apply Hn. apply list_elem_of_fmap. by exists (m, s).
  - destruct (_connect_settle_failed n s (os n) (ws n) t Ho) as [e ->].
    apply IH; [|exact Hnd|exact Hall].
    apply (quiet_disciplined t); [done|]. unfold quiet. simpl. split_and!; done.
Qed.

Lemma reconnect_settle_disciplined os ws ps : forall t,
  disciplined pack t -> NoDup ps.*2 ->
  Forall (fun p => writes_on (Outbound p.2) (trace t) = []) ps ->
  disciplined pack (reconnect_settle os ws ps t).
Proof.
  induction ps as [|[n s] ps IH]; intros t Hd Hnd Hall; simpl; [exact Hd|].
  apply NoDup_cons in Hnd as [Hn Hnd].
  apply Forall_cons in Hall as [Hs Hall]. simpl in *.
  destruct (decide (os n = Connect)) as [Ho|Ho].
  - rewrite Ho, _connect_settle_connect. apply IH; [|exact Hnd|].
    + eapply quiet_disciplined; [by apply (connected_disciplined n s)|].
      unfold quiet. simpl. split_and!; done.
    + apply Forall_forall. intros [m s'] Hm.
      rewrite Forall_forall in Hall. specialize (Hall _ Hm). simpl in *.
      apply (settle_one_unwritten n s s' (portPacket (_port t))); [|exact Hall].
      intros ->. apply Hn. apply list_elem_of_fmap. by exists (m, s).
  - destruct (_connect_settle_failed n s (os n) (ws n) t Ho) as [e ->].
    by apply IH.
Qed.

Lemma addNeighbor_begin_quiet n t : quiet t (addNeighbor_begin n t).1.
Proof.
  unfold addNeighbor_begin. destruct (set_has n (_neighbors t)); [apply quiet_refl|].
  simpl. destruct (_isRunning t); simpl.
  - unfold quiet. simpl. split_and!; try done.
    intros s. by rewrite writes_on_app, app_nil_r.
  - unfold quiet. simpl. split_and!; done.
Qed.

Lemma addNeighbor_resume_disciplined n s o w t :
  disciplined pack t -> writes_on (Outbound s) (trace t) = [] ->
  disciplined pack (addNeighbor_resume n s o w t).1.
Proof.
  intros Hd Hs. unfold addNeighbor_resume.
  destruct (decide (o = Connect)) as [->|Ho].
  - rewrite _connect_settle_connect. simpl. by apply connected_disciplined.
  - destruct (_connect_settle_failed n s o w t Ho) as [e ->]. simpl.
    apply (quiet_disciplined t); [done|]. unfold quiet. simpl. split_and!; done.
Qed.

Lemma addNeighbor_disciplined n o w t :
  inv t -> disciplined pack t -> disciplined pack (addNeighbor n o w t).1.
Proof.
  intros Hinv Hd. unfold addNeighbor.
  pose proof (addNeighbor_begin_spec n t Hinv) as Hb.
  pose proof (addNeighbor_begin_quiet n t) as Hq.
  destruct (addNeighbor_begin n t) as [t1 [r|s]]; simpl in *.
  - by apply (quiet_disciplined t).
  - destruct Hb as (_ & _ & _ & _ & _ & _ & Hw).
    apply addNeighbor_resume_disciplined; [|exact Hw].
    by apply (quiet_disciplined t).
Qed.

Lemma removeNeighbor_quiet n d t : quiet t (removeNeighbor n d t).1.
Proof.
  unfold removeNeighbor.
  destruct (negb (set_has n (_neighbors t))); [apply quiet_refl|].
  set (t1 := match _receiveSockets t !! n with Some s => _ | None => t end).
  assert (H1 : quiet t t1).
  { subst t1. destruct (_receiveSockets t !! n); [|apply quiet_refl].
    eapply quiet_trans; [apply shrinks_quiet, shrinks_silence_and_destroy|].
    unfold quiet. simpl. split_and!; done. }
  clearbody t1.
  destruct (_sendSockets t1 !! n) as [s|].
  - pose proof (shrinks_quiet _ _ (shrinks__disconnect n d t1)) as H2.
    destruct (_disconnect n d t1) as [t2 [[]|e]]; simpl in *;
      (eapply quiet_trans; [exact H1|]); [|exact H2].
    eapply quiet_trans; [exact H2|]. unfold quiet. simpl. split_and!; done.
  - simpl. eapply quiet_trans; [exact H1|]. unfold quiet. simpl. split_and!; done.
Qed.

Lemma run_disciplined l os ws t :
  inv t -> disciplined pack t -> disciplined pack (run l os ws t).1.
Proof.
  intros [Hc Hi] Hd. unfold run.
  destruct (_isRunning t) eqn:Hrun; [done|].
  pose proof (shrinks_log (FxListen (_host t) (_port t)) t ltac:(done)) as H1.
  destruct l as [|e]; [|simpl; by apply (quiet_disciplined t), shrinks_quiet].
  set (t2 := _initServerListeners _).
  assert (H2 : shrinks t t2).
  { eapply shrinks_trans; [exact H1|]. unfold shrinks. simpl. split_and!; done. }
  pose proof (connect_all_begin_unwritten (_neighbors t2) t2
                (shrinks_inv_core _ _ Hc H2)) as [Hnd Hw].
  pose proof (shrinks_connect_all_begin (_neighbors t2) t2) as H3.
  destruct (connect_all_begin (_neighbors t2) t2) as [t3 ps]. simpl in *.
  apply (quiet_disciplined (_initReconnection (run_settle os ws ps t3))).
  - apply (quiet_disciplined (run_settle os ws ps t3)).
    + apply run_settle_disciplined; [|exact Hnd|exact Hw].
      apply (quiet_disciplined t); [done|].
      apply shrinks_quiet. by eapply shrinks_trans.
    + apply shrinks_quiet, shrinks__initReconnection.
  - unfold quiet. simpl. split_and!; done.
Qed.

Lemma shutdown_quiet ds c t : quiet t (shutdown ds c t).1.
Proof.
  destruct (_isRunning t) eqn:Hrun.
  - destruct (shutdown_cases ds c t Hrun) as (t4 & Hsh & [[e He]|He]); rewrite He; simpl.
    + by apply shrinks_quiet.
    + eapply quiet_trans; [apply shrinks_quiet, Hsh|].
      eapply quiet_trans; [apply shrinks_quiet, shrinks__destroyReconnection|].
      unfold quiet. simpl. split_and!; done.
  - unfold shutdown, shutdown_begin. rewrite Hrun. apply quiet_refl.
Qed.

Lemma send_disciplined data n w t :
  disciplined pack t -> disciplined pack (send pack data n w t).1.
Proof.
  intros Hd. unfold send.
  destruct (negb (gatewayCanSendTo n)); [done|].
  destruct (_sendSockets t !! n) as [s|] eqn:Es; [|done].
  destruct w; simpl; by apply (sent_disciplined data n).
Qed.

Lemma reconnect_disciplined os ws t :
  inv t -> disciplined pack t -> disciplined pack (reconnect os ws t).
Proof.
  intros [Hc Hi] Hd. unfold reconnect.
  pose proof (connect_all_begin_unwritten (_neighborsToReconnect t) t Hc) as [Hnd Hw].
  pose proof (shrinks_connect_all_begin (_neighborsToReconnect t) t) as H1.
  destruct (connect_all_begin (_neighborsToReconnect t) t) as [t1 ps]. simpl in *.
  apply (quiet_disciplined (reconnect_settle os ws ps t1)).
  - apply reconnect_settle_disciplined; [|exact Hnd|exact Hw].
    by apply (quiet_disciplined t), shrinks_quiet.
  - apply shrinks_quiet, shrinks__initReconnection.
Qed.

Lemma _receiveConnection_disciplined sock h o w t :
  inv t -> disciplined pack t ->
  disciplined pack (_receiveConnection sock h o w t).1.
Proof.
  intros Hinv Hd. unfold _receiveConnection.
  destruct h as [p|e| |]; simpl; try done.
  - unfold handshake_onData.
    destruct (incorrect_port p); simpl; [done|].
    unfold _receiveConnection_identify.
    destruct (List.find _ _) as [n|].
    { apply (quiet_disciplined t); [done|].
      apply shrinks_quiet, shrinks__receiveConnection_admit. }
    destruct (_receiveUnknownNeighbor t);
      [|apply (quiet_disciplined t); [done|];
        apply shrinks_quiet, shrinks_silence_and_destroy].
    set (n := new_TcpNeighbor _ _ _).
    set (t1 := set_neighbors_made S t).
    assert (Hsh1 : shrinks t t1) by (unfold shrinks; simpl; split_and!; done).
    pose proof (addNeighbor_begin_spec n t1 (shrinks_inv _ _ Hinv Hsh1)) as Hb.
    pose proof (addNeighbor_begin_quiet n t1) as Hq.
    destruct (addNeighbor_begin n t1) as [t2 pending]. simpl in Hq.
    set (t4 := _receiveConnection_admit sock n (log (FxEmit (EvNeighbor n)) t2)).
    assert (Hsh4 : shrinks t2 t4).
    { eapply shrinks_trans; [|apply shrinks__receiveConnection_admit].
      by apply shrinks_log. }
    assert (Hd4 : disciplined pack t4).
    { apply (quiet_disciplined t); [done|].
      eapply quiet_trans; [apply shrinks_quiet, Hsh1|].
      eapply quiet_trans; [exact Hq | by apply shrinks_quiet]. }
    destruct pending as [r|s]; [exact Hd4|].
    apply addNeighbor_resume_disciplined; [exact Hd4|].
    by destruct (pending_ok_shrinks _ _ _ _ Hb Hsh4) as (_ & _ & _ & _ & _ & _ & Hw).
  - apply (quiet_disciplined t); [done|].
    apply shrinks_quiet, shrinks_silence_and_destroy.
Qed.

Lemma new_TcpTransport_disciplined h p i r :
  disciplined pack (new_TcpTransport (Data := Data) h p i r).
Proof.
  split; simpl.
  - intros k. by left.
  - intros n s Hs. by rewrite lookup_empty in Hs.
Qed.

Lemma step_disciplined t t' :
  step pack unpack packetSize t t' -> inv t -> disciplined pack t ->
  disciplined pack t'.
Proof.
  intros Hstep Hinv Hd. destruct Hstep.
  - by apply addNeighbor_disciplined.
  - apply (quiet_disciplined t); [done | apply removeNeighbor_quiet].
  - by apply run_disciplined.
  - apply (quiet_disciplined t); [done | apply shutdown_quiet].
  - by apply send_disciplined.
  - by apply reconnect_disciplined.
  - by apply _receiveConnection_disciplined.
  - apply (quiet_disciplined t); [done|]. apply shrinks_quiet, shrinks_send_socket_error.
  - apply (quiet_disciplined t); [done|]. apply shrinks_quiet, shrinks_send_socket_close.
  - apply (quiet_disciplined t); [done|]. apply shrinks_quiet, shrinks_receive_socket_data.
  - apply (quiet_disciplined t); [done|]. apply shrinks_quiet, shrinks_receive_socket_error.
  - apply (quiet_disciplined t); [done|]. apply shrinks_quiet, shrinks_receive_socket_close.
  - apply (quiet_disciplined t); [done|]. apply shrinks_quiet, shrinks_server_error.
Qed.

Lemma reachable_disciplined t :
  reachable pack unpack packetSize t -> inv t /\ disciplined pack t.
Proof.
  intros (h & p & i & r & Hrtc).
  revert t Hrtc. apply (rtc_ind_r (fun t => inv t /\ disciplined pack t)).
  - split; [apply new_TcpTransport_inv | apply new_TcpTransport_disciplined].
  - intros t1 t2 _ Hstep [Hinv Hd]. split.
    + by eapply step_inv.
    + by eapply step_disciplined.
Qed.

(** *** The port handshake *)

(** C1. On a transport reached by whole operations and listening on a port
    below [10^10], a connect that succeeds registers the new socket as the
    neighbor's send socket and writes on it one packet, the only bytes
    written on that socket so far: ten ASCII digits whose decimal value is
    the local port. In every such state, whatever has been written on a
    socket the transport made is that port packet followed by packets of the
    codec only, and every registered send socket has had its port packet
    written. *)
Theorem connect_writes_the_port_handshake n w t :
  reachable pack unpack packetSize t ->
  _port t < 10 ^ 10 ->
  let s := sockets_made t in
  let t' := (_connect n Connect w t).1 in
  ((_connect n Connect w t).2 = Resolved tt /\
   _sendSockets t' !! n = Some s /\
   trace t' = trace t ++ [FxConnect s (address n) (port n);
                          FxWrite (Outbound s) (portPacket (_port t))] /\
   writes_on (Outbound s) (trace t') = [portPacket (_port t)]) /\
  (length (portPacket (_port t)) = 10%nat /\
   forallb is_digit (portPacket (_port t)) = true /\
   Number_of_digits (portPacket (_port t)) = _port t) /\
  (forall k, writes_on (Outbound k) (trace t) = [] \/
     exists ds, writes_on (Outbound k) (trace t) = portPacket (_port t) :: map pack ds) /\
  (forall m k, _sendSockets t !! m = Some k ->
     exists ds, writes_on (Outbound k) (trace t) = portPacket (_port t) :: map pack ds).
Proof.
  intros Hreach Hport s t'.
  destruct (reachable_disciplined t Hreach) as [[Hc _] [D1 D2]].
  assert (Heq : _connect n Connect w t =
    (log (FxWrite (Outbound s) (portPacket (_port t)))
       (_initSendSocket s n
          (log (FxConnect s (address n) (port n)) (set_sockets_made S t))),
     Resolved tt)).
  { unfold _connect, _connect_begin. rewrite _connect_settle_connect. reflexivity. }
  subst t'. rewrite Heq. simpl. split_and!.
  - reflexivity.
  - apply lookup_insert_eq.
  - by rewrite <- app_assoc.
  - rewrite !writes_on_app, (fresh_socket_unwritten t s Hc) by done.
    simpl. apply writes_on_write_eq.
  - by apply portPacket_length.
  - apply portPacket_digits.
  - apply portPacket_value.
  - exact D1.
  - intros m k Hm. destruct (D1 k) as [Hnil|Hds]; [|exact Hds].
    by destruct (D2 m k Hm).
Qed.

(** *** The reconnection set *)


(** *** The earlier revision *)

(** Before the handshake was introduced a successful connect wrote nothing
    on the new socket. *)
Lemma Legacy_connect_writes_nothing n t :
  forall s, writes_on s (trace (Legacy._connectNeighbor n Connect t).1)
            = writes_on s (trace t).
Proof.
  intros s. unfold Legacy._connectNeighbor. simpl.
  by rewrite writes_on_app, app_nil_r.
Qed.

(** Before the permission check was introduced [send] wrote to a connected
    neighbor whatever its [gatewayCanSendTo]. *)
Lemma Legacy_send_ignores_permission (data : Data) n s t :
  _sendSockets t !! n = Some s ->
  Legacy.send pack data n Flushed t
    = (log (FxWrite (Outbound s) (pack data)) t, Resolved tt).
Proof. intros Hs. unfold Legacy.send. by rewrite Hs. Qed.

(** *** The neighbor table *)

Lemma find_snoc {A} (f : A -> bool) (l : list A) (x : A) :
  List.find f (l ++ [x]) =
    match List.find f l with
    | Some y => Some y
    | None => if f x then Some x else None
    end.
Proof.
  induction l as [|y l IH]; simpl; [reflexivity|].
  destruct (f y); [reflexivity | exact IH].
Qed.

Lemma addNeighbor_cases n o w t :
  let r := addNeighbor n o w t in
  (n ∈ _neighbors t -> r = (t, Rejected (AlreadyExists (address n)))) /\
  ((n ∉ _neighbors t) ->
     r.2 = Resolved tt /\
     _neighbors r.1 = _neighbors t ++ [n] /\
     (_isRunning t = false -> r.1 = set_neighbors (set_add n) t) /\
     (_isRunning t = true -> o = Connect ->
        _sendSockets r.1 = <[n := sockets_made t]> (_sendSockets t) /\
        _neighborsToReconnect r.1 = _neighborsToReconnect t) /\
     (_isRunning t = true -> o ≠ Connect ->
        _sendSockets r.1 = _sendSockets t /\
        _neighborsToReconnect r.1 = set_add n (_neighborsToReconnect t))).
Proof.
  simpl. unfold addNeighbor, addNeighbor_begin. split.
  - intros Hn%set_has_true. by rewrite Hn.
  - intros Hn. pose proof Hn as Hhas%set_has_false. rewrite Hhas. simpl.
    assert (Hadd : set_add n (_neighbors t) = _neighbors t ++ [n])
      by (unfold set_add; by rewrite Hhas).
    destruct (_isRunning t) eqn:Hrun; simpl.
    + unfold addNeighbor_resume.
      destruct (decide (o = Connect)) as [->|Ho].
      * rewrite _connect_settle_connect. simpl. split_and!; try done.
      * destruct (_connect_settle_failed n (sockets_made t) o w
                    (log (FxConnect (sockets_made t) (address n) (port n))
                       (set_sockets_made S (set_neighbors (set_add n) t))) Ho)
          as [e ->].
        simpl. split_and!; try done.
    + split_and!; try done.
Qed.

(** [addNeighbor] is rejected for a neighbor already in the table and leaves
    the transport as it was. For a new neighbor it resolves whatever the
    outcome of the connect, and appends the neighbor to the table. While the
    transport is not running it does nothing else; while it is running, a
    successful connect registers the new socket and leaves the reconnection
    set alone, and a failed one adds the neighbor to the reconnection set and
    leaves the send sockets alone. *)
Theorem addNeighbor_outcomes n o w t :
  let r := addNeighbor n o w t in
  (n ∈ _neighbors t -> r = (t, Rejected (AlreadyExists (address n)))) /\
  ((n ∉ _neighbors t) ->
     r.2 = Resolved tt /\
     _neighbors r.1 = _neighbors t ++ [n] /\
     (_isRunning t = false -> r.1 = set_neighbors (set_add n) t) /\
     (_isRunning t = true -> o = Connect ->
        _sendSockets r.1 = <[n := sockets_made t]> (_sendSockets t) /\
        _neighborsToReconnect r.1 = _neighborsToReconnect t) /\
     (_isRunning t = true -> o ≠ Connect ->
        _sendSockets r.1 = _sendSockets t /\
        _neighborsToReconnect r.1 = set_add n (_neighborsToReconnect t))).
Proof. apply addNeighbor_cases. Qed.

Lemma removeNeighbor_resolves n d t :
  n ∈ _neighbors t ->
  exists t2, removeNeighbor n d t =
      (set_neighbors (set_delete n) (set_neighborsToReconnect (set_delete n) t2),
       Resolved tt) /\
    _neighbors t2 = _neighbors t /\
    _neighborsToReconnect t2 = _neighborsToReconnect t /\
    _isRunning t2 = _isRunning t /\
    _sendSockets t2 !! n = None /\
    (forall m, m ≠ n -> _receiveSockets t2 !! m = _receiveSockets t !! m) /\
    _receiveSockets t2 !! n = None.
Proof.
  intros Hn%set_has_true. unfold removeNeighbor. rewrite Hn. simpl.
  set (t1 := match _receiveSockets t !! n with Some s => _ | None => t end).
  assert (H1 : _neighbors t1 = _neighbors t /\
               _neighborsToReconnect t1 = _neighborsToReconnect t /\
               _isRunning t1 = _isRunning t /\
               _receiveSockets t1 = delete n (_receiveSockets t)).
  { subst t1. destruct (_receiveSockets t !! n) eqn:E; simpl; split_and!; try done.
    symmetry. by apply delete_id. }
  clearbody t1. destruct H1 as (Hn1 & Hre1 & Hrun1 & Hr1).
  destruct (_sendSockets t1 !! n) as [s|] eqn:Es.
  - pose proof (shrinks__disconnect n d t1) as Hsh.
    destruct (_disconnect_some n s d t1 Es) as (t2 & Heq & Hnone & Hr2 & Hn2 & Hre2 & _).
    rewrite Heq in *. simpl in Hsh. destruct Hsh as (_ & _ & Hrun2 & _).
    exists t2. split_and!; try congruence.
    + intros m Hm. by rewrite Hr2, Hr1, lookup_delete_ne.
    + by rewrite Hr2, Hr1, lookup_delete_eq.
  - exists t1. split_and!; try done.
    + intros m Hm. by rewrite Hr1, lookup_delete_ne.
    + by rewrite Hr1, lookup_delete_eq.
Qed.

(** Adding and removing in sequence: a second [addNeighbor] of the same
    neighbor is rejected with [AlreadyExists], a second [removeNeighbor] with
    [NotFound], and a neighbor that was removed can be added again. *)
Theorem add_remove_in_sequence n o w o' w' d d' t :
  ((n ∉ _neighbors t) ->
     (addNeighbor n o' w' (addNeighbor n o w t).1).2
       = Rejected (AlreadyExists (address n))) /\
  (n ∈ _neighbors t ->
     (removeNeighbor n d' (removeNeighbor n d t).1).2
       = Rejected (NotFound (address n)) /\
     (addNeighbor n o w (removeNeighbor n d t).1).2 = Resolved tt).
Proof.
  split.
  - intros Hn.
    destruct (addNeighbor_cases n o w t) as [_ Hnew].
    destruct (Hnew Hn) as (_ & Hadd & _).
    destruct (addNeighbor_cases n o' w' (addNeighbor n o w t).1) as [Hold _].
    rewrite Hold; [done|]. rewrite Hadd, elem_of_app, list_elem_of_singleton. by right.
  - intros Hn. destruct (removeNeighbor_resolves n d t Hn) as (t2 & -> & _).
    simpl.
    set (t' := set_neighbors _ _).
    assert (Hgone : n ∉ _neighbors t').
    { subst t'. simpl. rewrite elem_of_set_delete. tauto. }
    split.
    + unfold removeNeighbor. apply set_has_false in Hgone. by rewrite Hgone.
    + destruct (addNeighbor_cases n o w t') as [_ Hnew].
      by destruct (Hnew Hgone) as (? & _).
Qed.

(** [getNeighbor] returns a neighbor of the table whose host is the given
    address, the first such in insertion order, and [null] exactly when the
    table has none. *)
Theorem getNeighbor_first_match t a :
  (forall n, getNeighbor t a = Some n ->
     host n = a /\
     exists before after, _neighbors t = before ++ n :: after /\
       forall m, m ∈ before -> host m ≠ a) /\
  (getNeighbor t a = None <-> forall n, n ∈ _neighbors t -> host n ≠ a).
Proof.
  unfold getNeighbor, match_address.
  induction (_neighbors t) as [|m l [IHsome IHnone]]; simpl.
  - split; [discriminate|]. split; [|done]. intros _ n Hn. by apply elem_of_nil in Hn.
  - case_bool_decide as Hm; split.
    + intros n [= <-]. split; [done|]. exists [], l. split; [done|].
      intros k Hk. by apply elem_of_nil in Hk.
    + split; [discriminate|]. intros Hall. exfalso. apply (Hall m); [left | done].
    + intros n Hfind. destruct (IHsome n Hfind) as (Hhost & before & after & -> & Hbefore).
      split; [done|]. exists (m :: before), after. split; [done|].
      intros k [->|Hk]%elem_of_cons; [done | by apply Hbefore].
    + rewrite IHnone. split.
      * intros Hall n [->|Hn]%elem_of_cons; [done | by apply Hall].
      * intros Hall n Hn. apply Hall. by right.
Qed.

(** A neighbor added later never takes the place of an earlier one with the
    same host: after [addNeighbor] of a new neighbor, [getNeighbor] answers
    as before wherever it had an answer, and finds the new neighbor only for
    an address that had none. After [removeNeighbor] it never returns the
    removed neighbor. *)
Theorem getNeighbor_after_add_and_remove n o w d t a :
  ((n ∉ _neighbors t) ->
     getNeighbor (addNeighbor n o w t).1 a =
       match getNeighbor t a with
       | Some m => Some m
       | None => if bool_decide (host n = a) then Some n else None
       end) /\
  (n ∈ _neighbors t -> getNeighbor (removeNeighbor n d t).1 a ≠ Some n).
Proof.
  split.
  - intros Hn. destruct (addNeighbor_cases n o w t) as [_ Hnew].
    destruct (Hnew Hn) as (_ & Hadd & _).
    unfold getNeighbor. rewrite Hadd, find_snoc. reflexivity.
  - intros Hn Hfind. destruct (removeNeighbor_resolves n d t Hn) as (t2 & Heq & _).
    rewrite Heq in Hfind. unfold getNeighbor in Hfind. simpl in Hfind.
    apply find_some in Hfind as [Hin _].
    apply list_elem_of_In, elem_of_set_delete in Hin. tauto.
Qed.

(** *** Starting *)

Lemma run_settle_cases os ws ps : forall t,
  let t' := run_settle os ws ps t in
  _neighbors t' = _neighbors t /\
  _reconnectionTimer t' = _reconnectionTimer t /\
  _onServerConnection t' = _onServerConnection t /\
  _isRunning t' = _isRunning t /\
  (forall n, n ∈ _neighborsToReconnect t' <->
     n ∈ _neighborsToReconnect t \/ (n ∈ ps.*1 /\ os n ≠ Connect)) /\
  (forall n, n ∈ ps.*1 -> os n = Connect -> is_Some (_sendSockets t' !! n)) /\
  (forall n, ~ (n ∈ ps.*1 /\ os n = Connect) ->
     _sendSockets t' !! n = _sendSockets t !! n).
Proof.
  induction ps as [|[m s] ps IH]; intros t; simpl.
  - split_and!; try done.
    + intros n. rewrite elem_of_nil. tauto.
    + intros n Hn. by apply elem_of_nil in Hn.
  - destruct (decide (os m = Connect)) as [Hm|Hm].
    + rewrite Hm, _connect_settle_connect.
      set (t1 := log _ _).
      destruct (IH t1) as (H1 & H2 & H3 & H4 & Hin & Hsome & Hkeep).
      split_and!; try done.
      * intros n. rewrite Hin, elem_of_cons. subst t1. simpl.
        split; [intros [?|[? ?]]; [by left | right; by split; [right|]] |].
        intros [?|[[->|?] ?]]; [by left | done | by right].
      * intros n [->|Hn]%elem_of_cons Ho; [|by apply Hsome].
        destruct (decide (m ∈ ps.*1)) as [Hps|Hps]; [by apply Hsome|].
        rewrite Hkeep by tauto. subst t1. simpl. rewrite lookup_insert_eq. eauto.
      * intros n Hn. rewrite Hkeep.
        -- subst t1. simpl. apply lookup_insert_ne. intros ->. apply Hn.
           split; [left | done].
        -- intros [? ?]. apply Hn. split; [by right | done].
    + destruct (_connect_settle_failed m s (os m) (ws m) t Hm) as [e ->].
      set (t1 := set_neighborsToReconnect _ _).
      destruct (IH t1) as (H1 & H2 & H3 & H4 & Hin & Hsome & Hkeep).
      split_and!; try done.
      * intros n. rewrite Hin, elem_of_cons. subst t1. simpl.
        rewrite elem_of_set_add.
        split.
        -- intros [[->|?]|[? ?]]; [right; by split; [left|] | by left |
                                    right; by split; [right|]].
        -- intros [?|[[->|?] ?]]; [left; by right | left; by left | by right].
      * intros n [->|Hn]%elem_of_cons Ho; [done | by apply Hsome].
      * intros n Hn. rewrite Hkeep; [done|].
        intros [? ?]. apply Hn. split; [by right | done].
Qed.

Lemma run_cases l os ws t :
  let r := run l os ws t in
  (_isRunning t = true -> r = (t, Rejected AlreadyRunning)) /\
  (_isRunning t = false -> forall e, l = ServerError e ->
     r = (log (FxListen (_host t) (_port t)) t, Rejected e)) /\
  (_isRunning t = false -> l = ServerOk ->
     r.2 = Resolved tt /\
     _isRunning r.1 = true /\
     _reconnectionTimer r.1 = true /\
     _onServerConnection r.1 = true /\
     _neighbors r.1 = _neighbors t /\
     (forall n, n ∈ _neighbors t -> os n = Connect ->
        is_Some (_sendSockets r.1 !! n)) /\
     (forall n, n ∈ _neighbors t -> os n ≠ Connect ->
        n ∈ _neighborsToReconnect r.1 /\
        _sendSockets r.1 !! n = _sendSockets t !! n)).
Proof.
  simpl. unfold run. split_and!.
  - by intros ->.
  - by intros -> e ->.
  - intros -> ->.
    set (t2 := _initServerListeners _).
    pose proof (connect_all_begin_spec (_neighbors t2) t2) as Hb.
    destruct (connect_all_begin (_neighbors t2) t2) as [t3 ps]. simpl in Hb.
    destruct Hb as (Hps & _ & _ & _ & Hs3 & _ & Hn3 & Hre3 & _ & _ & _ & _ & Hon3).
    destruct (run_settle_cases os ws ps t3) as (H1 & H2 & H3 & H4 & Hin & Hsome & Hkeep).
    simpl. split_and!; try done.
    + by rewrite H3, Hon3.
    + by rewrite H1, Hn3.
    + intros n Hn Ho. apply Hsome; [|done]. by rewrite Hps.
    + intros n Hn Ho. split.
      * apply Hin. right. by rewrite Hps.
      * rewrite Hkeep, Hs3; [done|]. intros [_ ?]. done.
Qed.

(** [run] is rejected with [AlreadyRunning] on a running transport, which it
    leaves as it was. When the listener fails, it is rejected with that
    error and has done nothing but the [listen] call: the transport is not
    running, no connect was started and no timer armed. When the listener
    comes up, [run] resolves with the transport running, the timer armed and
    the server handlers attached; the neighbor table is as before, and each
    neighbor is connected if its connect succeeded and is in the
    reconnection set if it did not. *)
Theorem run_outcomes l os ws t :
  let r := run l os ws t in
  (_isRunning t = true -> r = (t, Rejected AlreadyRunning)) /\
  (_isRunning t = false -> forall e, l = ServerError e ->
     r = (log (FxListen (_host t) (_port t)) t, Rejected e)) /\
  (_isRunning t = false -> l = ServerOk ->
     r.2 = Resolved tt /\
     _isRunning r.1 = true /\
     _reconnectionTimer r.1 = true /\
     _onServerConnection r.1 = true /\
     _neighbors r.1 = _neighbors t /\
     (forall n, n ∈ _neighbors t -> os n = Connect ->
        is_Some (_sendSockets r.1 !! n)) /\
     (forall n, n ∈ _neighbors t -> os n ≠ Connect ->
        n ∈ _neighborsToReconnect r.1 /\
        _sendSockets r.1 !! n = _sendSockets t !! n)).
Proof. apply run_cases. Qed.

(** *** Stopping *)

Lemma send_side_only_refl t : send_side_only t t.
Proof.
  unfold send_side_only. split_and!; try done.
  exists []. by rewrite app_nil_r.
Qed.

Lemma send_side_only_trans t1 t2 t3 :
  send_side_only t1 t2 -> send_side_only t2 t3 -> send_side_only t1 t3.
Proof.
  intros (A1 & A2 & A3 & A4 & A5 & A6 & A7 & A8 & tr1 & Htr1 & Hs1)
         (B1 & B2 & B3 & B4 & B5 & B6 & B7 & B8 & tr2 & Htr2 & Hs2).
  unfold send_side_only. split_and!; try congruence.
  exists (tr1 ++ tr2). split; [by rewrite Htr2, Htr1, app_assoc|].
  by apply Forall_app.
Qed.

Lemma send_side_only_log fx t : send_side fx -> send_side_only t (log fx t).
Proof.
  intros Hfx. unfold send_side_only. simpl. split_and!; try done.
  exists [fx]. split; [done|]. by constructor.
Qed.

Lemma send_side_only_send_socket_error s e t :
  send_side_only t (send_socket_error s e t).
Proof.
  unfold send_socket_error. destruct (send_listeners t !! s).
  - by apply send_side_only_log.
  - apply send_side_only_refl.
Qed.

Lemma send_side_only_send_socket_close s t :
  send_side_only t (send_socket_close s t).
Proof.
  unfold send_socket_close. destruct (send_listeners t !! s); [|apply send_side_only_refl].
  unfold send_side_only. simpl. split_and!; try done.
  exists [FxDestroy (Outbound s)]. split; [done|]. by constructor.
Qed.

Lemma send_side_only__disconnect_begin n t :
  send_side_only t (_disconnect_begin n t).1.
Proof.
  unfold _disconnect_begin. destruct (_sendSockets t !! n); simpl.
  - by apply send_side_only_log.
  - apply send_side_only_refl.
Qed.

Lemma send_side_only__disconnect_settle n s d t :
  send_side_only t (_disconnect_settle n s d t).1.
Proof.
  unfold _disconnect_settle. destruct s as [s|]; simpl; [|apply send_side_only_refl].
  eapply send_side_only_trans;
    [|unfold send_side_only; simpl; split_and!; try done;
      exists []; by rewrite app_nil_r].
  destruct d.
  - apply send_side_only_send_socket_close.
  - eapply send_side_only_trans;
      [apply send_side_only_send_socket_error | apply send_side_only_send_socket_close].
Qed.

Lemma send_side_only_disconnect_all_begin ns : forall t,
  send_side_only t (disconnect_all_begin ns t).1.
Proof.
  induction ns as [|n ns IH]; intros t; simpl; [apply send_side_only_refl|].
  pose proof (send_side_only__disconnect_begin n t) as Hb.
  destruct (_disconnect_begin n t) as [t1 s]. simpl in Hb.
  specialize (IH t1). destruct (disconnect_all_begin ns t1) as [t2 ps].
  simpl in *. by eapply send_side_only_trans.
Qed.

Lemma send_side_only_disconnect_all_settle ds ps : forall t,
  send_side_only t (disconnect_all_settle ds ps t).1.
Proof.
  induction ps as [|[n s] ps IH]; intros t; simpl; [apply send_side_only_refl|].
  pose proof (send_side_only__disconnect_settle n s (ds n) t) as Hb.
  destruct (_disconnect_settle n s (ds n) t) as [t1 r]. simpl in Hb.
  specialize (IH t1). destruct (disconnect_all_settle ds ps t1) as [t2 e].
  simpl in *. by eapply send_side_only_trans.
Qed.

(** [shutdown] of a running transport, step by step: the send sockets are
    torn down, the server is closed, and what follows depends on the
    server. *)
Lemma shutdown_running_cases ds c t :
  _isRunning t = true ->
  _onServerConnection t = true ->
  exists t3, send_side_only (set_onServerConnection (fun _ => false) t) t3 /\
    _sendSockets t3 = ∅ /\
    shutdown ds c t =
      match c with
      | ServerOk =>
          (set_isRunning (fun _ => false)
             (set_neighborsToReconnect (fun _ => [])
                (_destroyReconnection (log FxServerClose t3))), Resolved tt)
      | ServerError e => (log FxServerClose t3, Rejected e)
      end.
Proof.
  intros Hrun Hon.
  unfold shutdown, shutdown_begin, _destroyServerListeners. rewrite Hrun, Hon. simpl.
  set (t1 := set_onServerConnection (fun _ => false) t).
  set (ns := (map_to_list (_sendSockets t)).*1).
  assert (Hns : forall n, n ∈ ns <-> is_Some (_sendSockets t !! n)).
  { intros n. subst ns. rewrite list_elem_of_fmap. split.
    - intros ([m s] & -> & Hin). apply elem_of_map_to_list in Hin. eauto.
    - intros [s Hs]. exists (n, s). split; [done|]. by apply elem_of_map_to_list. }
  pose proof (disconnect_all_begin_spec ns t1) as Hb.
  pose proof (send_side_only_disconnect_all_begin ns t1) as Hso2.
  destruct (disconnect_all_begin ns t1) as [t2 ps]. simpl in Hb, Hso2.
  unfold shutdown_resume.
  destruct Hb as (Hps & _ & Hs2 & _).
  assert (Hall : Forall (fun p : TcpNeighbor * option nat => is_Some p.2) ps).
  { rewrite Hps. apply Forall_forall. intros [m o] Hin.
    apply list_elem_of_fmap in Hin as (m' & [= -> ->] & Hm'). simpl.
    by apply Hns. }
  pose proof (send_side_only_disconnect_all_settle ds ps t2) as Hso3.
  destruct (disconnect_all_settle_spec ds ps t2 Hall)
    as (t3 & Heq & Hnone & Hkeep & _).
  rewrite Heq in Hso3 |- *. simpl in Hso3.
  exists t3. split_and!.
  - by eapply send_side_only_trans.
  - apply map_empty. intros n.
    destruct (_sendSockets t !! n) as [s|] eqn:Es.
    + apply Hnone. rewrite Hps, <- list_fmap_compose.
      change (n ∈ id <$> ns). rewrite list_fmap_id. apply Hns. eauto.
    + apply Hkeep. by rewrite Hs2.
  - by destruct c.
Qed.

(** When the server fails to close, [shutdown] of a running transport with
    its server handlers attached is rejected with the server's error after
    the send sockets are gone and the handlers detached: the transport still
    counts as running, its timer and its reconnection set are as before. It
    can then be neither run nor shut down: [run] is refused as already
    running, and another [shutdown] fails on the detached handlers and
    changes nothing. *)
Theorem shutdown_failure_leaves_transport_running ds e t :
  _isRunning t = true ->
  _onServerConnection t = true ->
  let r := shutdown ds (ServerError e) t in
  r.2 = Rejected e /\
  _isRunning r.1 = true /\
  _onServerConnection r.1 = false /\
  _sendSockets r.1 = ∅ /\
  _reconnectionTimer r.1 = _reconnectionTimer t /\
  _neighborsToReconnect r.1 = _neighborsToReconnect t /\
  (forall l os ws, run l os ws r.1 = (r.1, Rejected AlreadyRunning)) /\
  (forall ds' c, shutdown ds' c r.1 = (r.1, Rejected (SystemError "TypeError"))).
Proof.
  intros Hrun Hon. simpl.
  destruct (shutdown_running_cases ds (ServerError e) t Hrun Hon)
    as (t3 & (A1 & A2 & A3 & A4 & A5 & _) & Hempty & ->).
  simpl in *. split_and!.
  - reflexivity.
  - by rewrite A3.
  - by rewrite A5.
  - exact Hempty.
  - by rewrite A4.
  - by rewrite A2.
  - intros l os ws. apply run_cases. simpl. by rewrite A3.
  - intros ds' c. apply shutdown_detached; simpl; [by rewrite A3 | by rewrite A5].
Qed.

Lemma destroyed_app s (tr1 tr2 : list (Effect Data)) :
  destroyed s (tr1 ++ tr2) = destroyed s tr1 || destroyed s tr2.
Proof. unfold destroyed. apply existsb_app. Qed.

Lemma destroyed_send_side k (tr : list (Effect Data)) :
  Forall send_side tr -> destroyed (Inbound k) tr = false.
Proof.
  induction 1 as [|fx tr Hfx _ IH]; [reflexivity|].
  simpl. rewrite IH, orb_false_r.
  destruct fx as [| | | | |[]| | |]; try done.
Qed.

Lemma emit_all_trace (f : text -> Event Data) bs : forall t,
  trace (fold_left (fun t packet => log (FxEmit (f packet)) t) bs t)
    = trace t ++ map (fun packet => FxEmit (f packet)) bs.
Proof.
  induction bs as [|b bs IH]; intros t; simpl; [by rewrite app_nil_r|].
  rewrite IH. simpl. by rewrite <- app_assoc.
Qed.

Lemma receive_socket_data_trace s bytes t :
  trace (receive_socket_data unpack packetSize s bytes t) =
    trace t ++
      match receive_listeners t !! s with
      | Some (n, a, buf) =>
          receive_events unpack n a
            (BlockStream (length (buf ++ bytes)) packetSize (buf ++ bytes)).1
      | None => []
      end.
Proof.
  unfold receive_socket_data.
  destruct (receive_listeners t !! s) as [[[n a] buf]|]; [|by rewrite app_nil_r].
  destruct (BlockStream _ _ _) as [bs r]. simpl.
  by rewrite (emit_all_trace (fun p => EvReceive (unpack p) n a)).
Qed.

(** [shutdown] does not touch the receiving side: whatever its outcome, the
    neighbor table, the receive-socket table and the handlers on the receive
    sockets are as before, no accepted socket is destroyed, and data that
    arrives afterwards on a receive socket is emitted as the very receive
    events it would have been emitted as before. *)
Theorem shutdown_spares_receive_sockets ds c t :
  let t' := (shutdown ds c t).1 in
  _neighbors t' = _neighbors t /\
  _receiveSockets t' = _receiveSockets t /\
  receive_listeners t' = receive_listeners t /\
  (forall k, destroyed (Inbound k) (trace t') = destroyed (Inbound k) (trace t)) /\
  (forall s bytes, exists events,
     trace (receive_socket_data unpack packetSize s bytes t) = trace t ++ events /\
     trace (receive_socket_data unpack packetSize s bytes t') = trace t' ++ events).
Proof.
  simpl.
  assert (Hdata : forall t', receive_listeners t' = receive_listeners t ->
    forall s bytes, exists events,
      trace (receive_socket_data unpack packetSize s bytes t) = trace t ++ events /\
      trace (receive_socket_data unpack packetSize s bytes t') = trace t' ++ events).
  { intros t' Hl s bytes. eexists. rewrite !receive_socket_data_trace, Hl. done. }
  destruct (_isRunning t) eqn:Hrun.
  - destruct (_onServerConnection t) eqn:Hon.
    2:{ rewrite (shutdown_detached ds c t Hrun Hon). simpl.
        split_and!; try done. by apply Hdata. }
    destruct (shutdown_running_cases ds c t Hrun Hon)
      as (t3 & (A1 & A2 & A3 & A4 & A5 & A6 & A7 & A8 & tr & Htr & Hs) & _ & ->).
    simpl in *.
    assert (Hd : forall k tail,
      (forall fx, fx ∈ tail -> fx = FxServerClose \/ fx = FxClearTimeout) ->
      destroyed (Inbound k) (trace t3 ++ tail) = destroyed (Inbound k) (trace t)).
    { intros k tail Htail.
      rewrite Htr, !destroyed_app, (destroyed_send_side k tr Hs), orb_false_r.
      assert (destroyed (Inbound k) tail = false) as ->; [|apply orb_false_r].
      induction tail as [|fx tail IH]; [done|]. simpl.
      rewrite IH by (intros; apply Htail; by right).
      destruct (Htail fx) as [-> | ->]; [left|done..]. }
    destruct c; simpl; (split_and!; [done..| |by apply Hdata]); intros k.
    + rewrite <- app_assoc. apply Hd.
      intros fx [->|[->|H]%elem_of_cons]%elem_of_cons; [by left | by right|].
      by apply elem_of_nil in H.
    + apply Hd. intros fx [->|H]%elem_of_cons; [by left|]. by apply elem_of_nil in H.
  - unfold shutdown, shutdown_begin. rewrite Hrun. simpl. split_and!; try done. by apply Hdata.
Qed.

(** *** Receiving *)

Lemma receive_socket_data_only_emits_aux s bytes t n a buf :
  receive_listeners t !! s = Some (n, a, buf) ->
  let t' := receive_socket_data unpack packetSize s bytes t in
  (_isRunning t' = _isRunning t /\ _reconnectionTimer t' = _reconnectionTimer t /\
   _onServerConnection t' = _onServerConnection t) /\
  (exists packets rest,
     trace t' = trace t ++ receive_events unpack n a packets /\
     receive_listeners t' = <[s := (n, a, rest)]> (receive_listeners t)) /\
  _neighbors t' = _neighbors t /\
  _neighborsToReconnect t' = _neighborsToReconnect t /\
  _sendSockets t' = _sendSockets t /\
  _receiveSockets t' = _receiveSockets t.
Proof.
  intros Hs. simpl.
  pose proof (receive_socket_data_trace s bytes t) as Htr. rewrite Hs in Htr.
  unfold receive_socket_data in *. rewrite Hs in *.
  destruct (BlockStream _ _ _) as [bs r]. simpl in *.
  set (t1 := set_receive_listeners _ t) in *.
  assert (Hfold : forall (l : list text) (u : TcpTransport Data),
    let u' := fold_left (fun t packet => log (FxEmit (EvReceive (unpack packet) n a)) t) l u in
    receive_listeners u' = receive_listeners u /\ _neighbors u' = _neighbors u /\
    _neighborsToReconnect u' = _neighborsToReconnect u /\
    _sendSockets u' = _sendSockets u /\ _receiveSockets u' = _receiveSockets u /\
    _isRunning u' = _isRunning u /\ _reconnectionTimer u' = _reconnectionTimer u /\
    _onServerConnection u' = _onServerConnection u).
  { induction l as [|b l IH]; intros u; simpl; [done|].
    apply (IH (log (FxEmit (EvReceive (unpack b) n a)) u)). }
  destruct (Hfold bs t1) as (H1 & H2 & H3 & H4 & H5 & H6 & H7 & H8).
  split_and!; try done.
  exists bs, r. split; [exact Htr|]. by rewrite H1.
Qed.

(** Data on a socket that has no receive handlers, be it never admitted or
    already closed, changes nothing. Data on a receive socket only emits
    receive events, all carrying the neighbor and the address fixed when the
    socket was admitted; the tables are as before. *)
Theorem receive_socket_data_only_emits s bytes t :
  (receive_listeners t !! s = None ->
     receive_socket_data unpack packetSize s bytes t = t) /\
  (forall n a buf, receive_listeners t !! s = Some (n, a, buf) ->
     let t' := receive_socket_data unpack packetSize s bytes t in
     (exists packets rest,
        trace t' = trace t ++ receive_events unpack n a packets /\
        receive_listeners t' = <[s := (n, a, rest)]> (receive_listeners t)) /\
     _neighbors t' = _neighbors t /\
     _neighborsToReconnect t' = _neighborsToReconnect t /\
     _sendSockets t' = _sendSockets t /\
     _receiveSockets t' = _receiveSockets t /\
     _isRunning t' = _isRunning t).
Proof.
  split.
  - intros Hs. unfold receive_socket_data. by rewrite Hs.
  - intros n a buf Hs.
    destruct (receive_socket_data_only_emits_aux s bytes t n a buf Hs)
      as ((? & _) & ? & ? & ? & ? & ?).
    simpl. split_and!; done.
Qed.

(** *** The port packet, written and read *)

(** The check on the first payload accepts exactly the strings of ten
    characters that are all between ['0'] and ['9']; the length test adds
    nothing to the regular expression. *)
Theorem port_check_accepts_exactly_ten_digits (s : text) :
  (incorrect_port s = false <->
     length s = 10%nat /\ Forall (fun c => 48 <= N_of_ascii c <= 57) s) /\
  incorrect_port s = negb (regex_ten_digits s).
Proof.
  split.
  - rewrite incorrect_port_false, forallb_forall, Forall_forall.
    split; intros [Hl Hd]; (split; [exact Hl|]); intros c Hc.
    + apply list_elem_of_In, Hd in Hc. unfold is_digit in Hc.
      apply andb_prop in Hc as [?%N.leb_le ?%N.leb_le]. done.
    + apply list_elem_of_In, Hd in Hc. unfold is_digit.
      apply andb_true_intro. split; apply N.leb_le; lia.
  - unfold incorrect_port, regex_ten_digits.
    destruct (length s =? 10)%nat; simpl; [reflexivity|reflexivity].
Qed.

(** What [_connect] writes, [_receiveConnection] reads back: for a local port
    below [10^10] the port packet has exactly ten characters, the handshake
    promise of the peer resolves on it, and the port the peer reads is the
    local port; so two transports on different ports never send the same
    port packet. *)
Theorem port_packet_read_back port :
  port < 10 ^ 10 ->
  length (portPacket port) = 10%nat /\
  handshake_onData (portPacket port) = (Some (Resolved tt), port) /\
  (forall port', port' < 10 ^ 10 -> portPacket port' = portPacket port -> port' = port).
Proof.
  intros Hp. split_and!.
  - by apply portPacket_length.
  - unfold handshake_onData. by rewrite portPacket_correct, portPacket_value.
  - intros port' Hp' Heq.
    by rewrite <- (portPacket_value port'), Heq, portPacket_value.
Qed.

(** *** Accepting a connection *)

Lemma incorrect_port_length (s : text) : length s ≠ 10%nat -> incorrect_port s = true.
Proof.
  intros Hl. unfold incorrect_port.
  by destruct (Nat.eqb_spec (length s) 10).
Qed.

(** A first payload that is not exactly ten bytes long is rejected as a
    whole, also when it begins with a correct port packet that merely arrived
    together with the first bytes of a packet, or when the ten digits arrive
    in two pieces: the routine does not cut the payload. *)
Theorem handshake_must_arrive_alone sock (portString rest : text) o w t :
  length portString = 10%nat ->
  (rest ≠ [] ->
     _receiveConnection sock (HandshakeData (portString ++ rest)) o w t
       = (t, Some (Rejected (IncorrectPort (portString ++ rest))))) /\
  (forall k, (k < 10)%nat ->
     _receiveConnection sock (HandshakeData (take k portString)) o w t
       = (t, Some (Rejected (IncorrectPort (take k portString))))).
Proof.
  intros Hl. split.
  - intros Hrest. apply incorrect_port_rejected, incorrect_port_length.
    rewrite length_app. destruct rest; [done|]. simpl. lia.
  - intros k Hk. apply incorrect_port_rejected, incorrect_port_length.
    rewrite length_take. lia.
Qed.

(** Unless the first payload is a correct port packet, the accept routine is
    rejected and registers nothing: the tables and the handlers are as
    before, no event is emitted, and the only effect, on a timeout, is that
    the socket is given a no-op error listener and destroyed. *)
Theorem failed_handshake_registers_nothing sock h o w t :
  (forall portString, h = HandshakeData portString -> incorrect_port portString = true) ->
  let r := _receiveConnection sock h o w t in
  (exists e, r.2 = Some (Rejected e)) /\
  _neighbors r.1 = _neighbors t /\
  _neighborsToReconnect r.1 = _neighborsToReconnect t /\
  _sendSockets r.1 = _sendSockets t /\
  _receiveSockets r.1 = _receiveSockets t /\
  receive_listeners r.1 = receive_listeners t /\
  trace r.1 = trace t ++
    match h with
    | HandshakeTimeout =>
        [FxSilence (Inbound (sid sock)); FxDestroy (Inbound (sid sock))]
    | _ => []
    end.
Proof.
  intros Hh. destruct h as [p|e| |]; cbv zeta.
  - rewrite incorrect_port_rejected by by apply Hh. simpl.
    rewrite app_nil_r. split_and!; eauto.
  - simpl. rewrite app_nil_r. split_and!; eauto.
  - simpl. rewrite app_nil_r. split_and!; eauto.
  - simpl. rewrite <- app_assoc. split_and!; eauto.
Qed.

Lemma find_none_not_in (a : string) (l : list TcpNeighbor) (n : TcpNeighbor) :
  List.find (fun m => match_address m a) l = None -> host n = a -> n ∉ l.
Proof.
  intros Hfind Hhost Hin. apply list_elem_of_In in Hin.
  pose proof (find_none _ _ Hfind n Hin) as Hm. unfold match_address in Hm.
  by apply bool_decide_eq_false in Hm.
Qed.

(** After a correct port packet, a connection whose address belongs to a
    known neighbor that may be received from becomes that neighbor's receive
    socket, with nothing emitted and nothing buffered. It is dropped, with a
    no-op error listener and a destroy as the only effects and the routine
    resolving all the same, when the neighbor found may not be received
    from, and when none is found and unknown neighbors are not received. *)
Theorem inbound_connection_admitted_or_dropped sock portString o w t :
  incorrect_port portString = false ->
  let a := socket_address sock in
  let r := _receiveConnection sock (HandshakeData portString) o w t in
  (forall n, getNeighbor t a = Some n -> gatewayCanReceiveFrom n = true ->
     r = (_initReceiveSocket sock n t, Some (Resolved tt)) /\
     _receiveSockets r.1 !! n = Some (sid sock) /\
     receive_listeners r.1 !! sid sock = Some (n, a, []) /\
     trace r.1 = trace t) /\
  (forall n, getNeighbor t a = Some n -> gatewayCanReceiveFrom n = false ->
     r = (silence_and_destroy (sid sock) t, Some (Resolved tt))) /\
  (getNeighbor t a = None -> _receiveUnknownNeighbor t = false ->
     r = (silence_and_destroy (sid sock) t, Some (Resolved tt))).
Proof.
  intros Hp. cbv zeta. rewrite correct_port_identifies by done.
  unfold getNeighbor, _receiveConnection_identify, _receiveConnection_admit.
  split_and!.
  - intros n -> ->. simpl. split_and!; try done; apply lookup_insert_eq.
  - by intros n -> ->.
  - by intros -> ->.
Qed.

(** After a correct port packet from an address no known neighbor has, a
    transport that receives unknown neighbors makes a neighbor with that
    address as host and the announced port, appends it to the table, emits
    it in a [neighbor] event and makes the connection its receive socket;
    from then on [getNeighbor] finds it under that address. A running
    transport also starts a connect to that host and port; one that is not
    running starts none. *)
Theorem unknown_neighbor_is_admitted sock portString o w t :
  incorrect_port portString = false ->
  getNeighbor t (socket_address sock) = None ->
  _receiveUnknownNeighbor t = true ->
  let a := socket_address sock in
  let n := new_TcpNeighbor (neighbors_made t) a (Number_of_digits portString) in
  let r := _receiveConnection sock (HandshakeData portString) o w t in
  r.2 = Some (Resolved tt) /\
  _neighbors r.1 = _neighbors t ++ [n] /\
  getNeighbor r.1 a = Some n /\
  _receiveSockets r.1 !! n = Some (sid sock) /\
  FxEmit (EvNeighbor n) ∈ trace r.1 /\
  (_isRunning t = true ->
     exists tr, trace r.1 = trace t ++
       FxConnect (sockets_made t) a (Number_of_digits portString) :: tr) /\
  (_isRunning t = false ->
     trace r.1 = trace t ++ [FxEmit (EvNeighbor n)]).
Proof.
  intros Hp Hfind Hflag a n r. subst r.
  rewrite correct_port_identifies by done.
  unfold getNeighbor in Hfind. unfold _receiveConnection_identify.
  rewrite Hfind, Hflag. fold a in Hfind |- *. fold n.
  assert (Hnew : n ∉ _neighbors t) by by apply (find_none_not_in a).
  unfold addNeighbor_begin. simpl.
  apply set_has_false in Hnew as Hhas. rewrite Hhas.
  assert (Hadd : set_add n (_neighbors t) = _neighbors t ++ [n])
    by (unfold set_add; by rewrite Hhas).
  assert (Hget : List.find (fun m => match_address m a) (_neighbors t ++ [n]) = Some n).
  { rewrite find_snoc, Hfind. unfold match_address. by rewrite bool_decide_eq_true_2. }
  unfold _receiveConnection_admit. simpl.
  destruct (_isRunning t) eqn:Hrun; simpl.
  - unfold addNeighbor_resume.
    destruct (decide (o = Connect)) as [->|Ho].
    + rewrite _connect_settle_connect. simpl. unfold getNeighbor. simpl.
      rewrite Hadd. split_and!; try done.
      * apply lookup_insert_eq.
      * rewrite !elem_of_app, !list_elem_of_singleton. left. by right.
      * intros _. rewrite <- !app_assoc. simpl. eauto.
    + match goal with |- context [_connect_settle ?n ?s ?o ?w ?u] =>
        destruct (_connect_settle_failed n s o w u Ho) as [e ->] end.
      simpl. unfold getNeighbor. simpl. rewrite Hadd. split_and!; try done.
      * apply lookup_insert_eq.
      * rewrite !elem_of_app, !list_elem_of_singleton. by right.
      * intros _. rewrite <- !app_assoc. simpl. eauto.
  - unfold getNeighbor. simpl. rewrite Hadd. split_and!; try done.
    + apply lookup_insert_eq.
    + rewrite elem_of_app, list_elem_of_singleton. by right.
Qed.

(** *** Running and idle *)

Lemma same_mode_refl t : same_mode t t.
Proof. by unfold same_mode. Qed.

Lemma same_mode_trans t1 t2 t3 : same_mode t1 t2 -> same_mode t2 t3 -> same_mode t1 t3.
Proof. intros (? & ? & ?) (? & ? & ?). unfold same_mode. split_and!; congruence. Qed.

Lemma same_mode_send_side_only t t' : send_side_only t t' -> same_mode t t'.
Proof. intros (_ & _ & ? & ? & ? & _). by unfold same_mode. Qed.

Lemma same_mode__connect_settle n s o w t : same_mode t (_connect_settle n s o w t).1.
Proof.
  destruct (_connect_settle_fields n s o w t) as (_ & _ & _ & ? & _ & _ & ? & ? & _).
  by unfold same_mode.
Qed.

Lemma same_mode_addNeighbor_begin n t : same_mode t (addNeighbor_begin n t).1.
Proof.
  unfold addNeighbor_begin. destruct (set_has n (_neighbors t)); [apply same_mode_refl|].
  simpl. by destruct (_isRunning t).
Qed.

Lemma same_mode_addNeighbor_resume n s o w t : same_mode t (addNeighbor_resume n s o w t).1.
Proof.
  unfold addNeighbor_resume.
  pose proof (same_mode__connect_settle n s o w t) as H.
  by destruct (_connect_settle n s o w t) as [t1 [[]|e]].
Qed.

Lemma same_mode_addNeighbor n o w t : same_mode t (addNeighbor n o w t).1.
Proof.
  unfold addNeighbor.
  pose proof (same_mode_addNeighbor_begin n t) as Hb.
  destruct (addNeighbor_begin n t) as [t1 [r|s]]; [exact Hb|].
  eapply same_mode_trans; [exact Hb | apply same_mode_addNeighbor_resume].
Qed.

Lemma same_mode_removeNeighbor n d t : same_mode t (removeNeighbor n d t).1.
Proof.
  unfold removeNeighbor.
  destruct (negb (set_has n (_neighbors t))); [apply same_mode_refl|].
  set (t1 := match _receiveSockets t !! n with Some s => _ | None => t end).
  assert (H1 : same_mode t t1) by (subst t1; by destruct (_receiveSockets t !! n)).
  clearbody t1.
  destruct (_sendSockets t1 !! n) as [s|]; [|exact H1].
  unfold _disconnect.
  pose proof (send_side_only__disconnect_begin n t1) as Hb.
  destruct (_disconnect_begin n t1) as [t2 s2]. simpl in Hb.
  pose proof (send_side_only__disconnect_settle n s2 d t2) as Hs.
  destruct (_disconnect_settle n s2 d t2) as [t3 r]. simpl in Hs.
  assert (H3 : same_mode t1 t3).
  { apply same_mode_send_side_only. by eapply send_side_only_trans. }
  destruct r as [[]|e]; simpl;
    (eapply same_mode_trans; [exact H1|]);
    (eapply same_mode_trans; [exact H3|]); by unfold same_mode.
Qed.

Lemma same_mode_send data n w t : same_mode t (send pack data n w t).1.
Proof.
  unfold send. destruct (negb (gatewayCanSendTo n)); [apply same_mode_refl|].
  destruct (_sendSockets t !! n); [|apply same_mode_refl]. by destruct w.
Qed.

Lemma same_mode__receiveConnection sock h o w t :
  same_mode t (_receiveConnection sock h o w t).1.
Proof.
  unfold _receiveConnection. destruct h as [p|e| |]; simpl; try done.
  unfold handshake_onData. destruct (incorrect_port p); simpl; [apply same_mode_refl|].
  unfold _receiveConnection_identify, _receiveConnection_admit.
  destruct (List.find _ _) as [n|]; [by destruct (negb _)|].
  destruct (_receiveUnknownNeighbor t); [|done].
  set (n := new_TcpNeighbor _ _ _). set (t1 := set_neighbors_made S t).
  pose proof (same_mode_addNeighbor_begin n t1) as Hb.
  destruct (addNeighbor_begin n t1) as [t2 pending]. simpl in Hb.
  set (t4 := if negb (gatewayCanReceiveFrom n) then _ else _).
  assert (H4 : same_mode t t4).
  { eapply same_mode_trans; [exact Hb|]. subst t4. by destruct (negb _). }
  destruct pending as [r|s]; [exact H4|].
  eapply same_mode_trans; [exact H4 | apply same_mode_addNeighbor_resume].
Qed.

Lemma reconnect_settle_mode os ws ps : forall t,
  same_mode t (reconnect_settle os ws ps t).
Proof.
  induction ps as [|[n s] ps IH]; intros t; simpl; [apply same_mode_refl|].
  pose proof (same_mode__connect_settle n s (os n) (ws n) t) as H.
  destruct (_connect_settle n s (os n) (ws n) t) as [t1 [[]|e]]; simpl in H;
    (eapply same_mode_trans; [|apply IH]); exact H.
Qed.

Lemma reconnect_mode os ws t :
  let t' := reconnect os ws t in
  _isRunning t' = _isRunning t /\ _reconnectionTimer t' = true /\
  _onServerConnection t' = _onServerConnection t.
Proof.
  simpl. unfold reconnect.
  pose proof (connect_all_begin_spec (_neighborsToReconnect t) t) as Hb.
  destruct (connect_all_begin (_neighborsToReconnect t) t) as [t1 ps]. simpl in Hb.
  destruct Hb as (_ & _ & _ & _ & _ & _ & _ & _ & Hrun & _ & _ & _ & Hon).
  destruct (reconnect_settle_mode os ws ps t1) as (H1 & _ & H3).
  simpl. split_and!; congruence.
Qed.

Lemma same_mode_events t t' :
  (exists s e, t' = send_socket_error s e t) \/
  (exists s, t' = send_socket_close s t) \/
  (exists s bytes, t' = receive_socket_data unpack packetSize s bytes t) \/
  (exists s e, t' = receive_socket_error s e t) \/
  (exists s, t' = receive_socket_close s t) \/
  (exists e, t' = server_error e t) ->
  same_mode t t'.
Proof.
  intros [(s & e & ->)|[(s & ->)|[(s & bytes & ->)|[(s & e & ->)|[(s & ->)|(e & ->)]]]]].
  - apply same_mode_send_side_only, send_side_only_send_socket_error.
  - apply same_mode_send_side_only, send_side_only_send_socket_close.
  - destruct (receive_listeners t !! s) as [[[n a] buf]|] eqn:Hs.
    + destruct (receive_socket_data_only_emits_aux s bytes t n a buf Hs) as (? & _).
      by unfold same_mode.
    + unfold receive_socket_data. rewrite Hs. apply same_mode_refl.
  - unfold receive_socket_error. by destruct (receive_listeners t !! s).
  - unfold receive_socket_close. by destruct (receive_listeners t !! s) as [[[? ?] ?]|].
  - unfold server_error. by destruct (_onServerConnection t).
Qed.

Lemma same_mode_step t t' :
  step pack unpack packetSize t t' ->
  same_mode t t' \/
  (exists l os ws, t' = (run l os ws t).1) \/
  (exists ds c, t' = (shutdown ds c t).1) \/
  (exists os ws, _reconnectionTimer t = true /\ t' = reconnect os ws t).
Proof.
  intros Hstep. destruct Hstep.
  - left. apply same_mode_addNeighbor.
  - left. apply same_mode_removeNeighbor.
  - right. left. eauto.
  - right. right. left. eauto.
  - left. apply same_mode_send.
  - right. right. right. eauto.
  - left. apply same_mode__receiveConnection.
  - left. apply same_mode_events. left. eauto.
  - left. apply same_mode_events. right. left. eauto.
  - left. apply same_mode_events. do 2 right. left. eauto.
  - left. apply same_mode_events. do 3 right. left. eauto.
  - left. apply same_mode_events. do 4 right. left. eauto.
  - left. apply same_mode_events. do 5 right. eauto.
Qed.

(** [isRunning] changes only when [run] or [shutdown] resolves: any other
    operation, timer firing or socket event, and every rejected [run] or
    [shutdown], leaves it as it was. *)
Theorem isRunning_changes_only_on_run_and_shutdown t t' :
  step pack unpack packetSize t t' ->
  _isRunning t' ≠ _isRunning t ->
  (_isRunning t = false /\ _isRunning t' = true /\
     exists os ws, run ServerOk os ws t = (t', Resolved tt)) \/
  (_isRunning t = true /\ _isRunning t' = false /\
     exists ds, shutdown ds ServerOk t = (t', Resolved tt)).
Proof.
  intros Hstep Hne.
  destruct (same_mode_step t t' Hstep)
    as [(H & _)|[(l & os & ws & ->)|[(ds & c & ->)|(os & ws & _ & ->)]]].
  - done.
  - left. destruct (run_cases l os ws t) as (Hrunning & Hfail & Hok).
    destruct (_isRunning t) eqn:Hrun.
    + rewrite Hrunning in Hne by done. simpl in Hne. congruence.
    + destruct l as [|e].
      * destruct (Hok eq_refl eq_refl) as (Hres & Hrun' & _).
        split_and!; try done. exists os, ws.
        rewrite <- Hres. by destruct (run ServerOk os ws t).
      * rewrite (Hfail eq_refl e eq_refl) in Hne. simpl in Hne. congruence.
  - right. destruct (_isRunning t) eqn:Hrun.
    + destruct (_onServerConnection t) eqn:Hon.
      2:{ rewrite (shutdown_detached ds c t Hrun Hon) in Hne. simpl in Hne. congruence. }
      destruct (shutdown_running_cases ds c t Hrun Hon)
        as (t3 & (_ & _ & A3 & _) & _ & Heq).
      destruct c as [|e].
      * rewrite Heq. split_and!; try done. by exists ds.
      * rewrite Heq in Hne. simpl in *. congruence.
    + unfold shutdown, shutdown_begin in Hne. rewrite Hrun in Hne. simpl in Hne. congruence.
  - destruct (reconnect_mode os ws t) as (H & _). done.
Qed.

Lemma same_mode_mode_ok t t' : mode_ok t -> same_mode t t' -> mode_ok t'.
Proof. intros [? ?] (H1 & H2 & H3). unfold mode_ok. rewrite H1, H2, H3. by split. Qed.

Lemma step_mode_ok t t' :
  step pack unpack packetSize t t' -> mode_ok t -> mode_ok t'.
Proof.
  intros Hstep [Htimer Hon].
  assert (Hoff : _isRunning t = false -> _onServerConnection t = false).
  { intros Hrun. destruct (_onServerConnection t); [|done].
    rewrite Hon in Hrun; done. }
  destruct (same_mode_step t t' Hstep)
    as [H|[(l & os & ws & ->)|[(ds & c & ->)|(os & ws & Harmed & ->)]]].
  - by apply (same_mode_mode_ok t).
  - destruct (run_cases l os ws t) as (Hrunning & Hfail & Hok).
    destruct (_isRunning t) eqn:Hrun.
    + rewrite Hrunning by done. split; simpl; congruence.
    + destruct l as [|e].
      * destruct (Hok eq_refl eq_refl) as (_ & Hrun' & Htimer' & _).
        split; congruence.
      * rewrite (Hfail eq_refl e eq_refl). split; simpl; [congruence|].
        rewrite Hoff; done.
  - destruct (_isRunning t) eqn:Hrun.
    + destruct (_onServerConnection t) eqn:Hon'.
      2:{ rewrite (shutdown_detached ds c t Hrun Hon'). simpl. split; congruence. }
      destruct (shutdown_running_cases ds c t Hrun Hon')
        as (t3 & (_ & _ & A3 & A4 & A5 & _) & _ & ->).
      simpl in *. destruct c; split; simpl; congruence.
    + unfold shutdown, shutdown_begin. rewrite Hrun. simpl. split; [congruence|].
      rewrite Hoff; done.
  - destruct (reconnect_mode os ws t) as (H1 & H2 & H3).
    split; [congruence|]. rewrite H1, H3. exact Hon.
Qed.

Lemma reachable_mode_ok t : reachable pack unpack packetSize t -> mode_ok t.
Proof.
  intros (h & p & i & r & Hrtc).
  revert t Hrtc. apply (rtc_ind_r (fun t => mode_ok t)).
  - by split.
  - intros t1 t2 _ Hstep IH. by eapply step_mode_ok.
Qed.

(** In every state reached by whole operations the reconnection timer is
    armed exactly while the transport is running, and connections are
    accepted only while it is running. *)
Theorem timer_armed_exactly_while_running t :
  reachable pack unpack packetSize t ->
  _reconnectionTimer t = isRunning t /\
  (_onServerConnection t = true -> isRunning t = true).
Proof. apply reachable_mode_ok. Qed.

(** In every state reached by whole operations a neighbor that is connected
    is in the neighbor table and is not in the reconnection set. *)
Theorem connected_neighbor_is_known n t :
  reachable pack unpack packetSize t ->
  isConnectedTo t n = true ->
  n ∈ _neighbors t /\ (n ∉ _neighborsToReconnect t).
Proof.
  intros [((I1 & I2 & _) & _) _]%reachable_disciplined Hc.
  apply bool_decide_eq_true in Hc. split; [by apply I2|].
  intros Hre. destruct (I1 n Hre) as [_ Hnone]. rewrite Hnone in Hc. by destruct Hc.
Qed.

(** In every state reached by whole operations a transport that is not
    running is connected to no neighbor and has an empty reconnection set. *)
Theorem idle_transport_has_no_connection t :
  reachable pack unpack packetSize t ->
  isRunning t = false ->
  (forall n, isConnectedTo t n = false) /\ _neighborsToReconnect t = [].
Proof.
  intros [[_ Hidle] _]%reachable_disciplined Hrun.
  destruct (Hidle Hrun) as [Hempty Hnil]. split; [|done].
  intros n. apply bool_decide_eq_false. rewrite Hempty, lookup_empty.
  by intros [? ?].
Qed.

(** *** Send sockets and their handlers *)

Ltac solve_same_send := unfold same_send; simpl; split_and!; (done || lia).

Lemma same_send_refl t : same_send t t.
Proof. solve_same_send. Qed.

Lemma same_send_trans t1 t2 t3 : same_send t1 t2 -> same_send t2 t3 -> same_send t1 t3.
Proof.
  intros (A1 & A2 & A3 & A4) (B1 & B2 & B3 & B4).
  unfold same_send. split_and!; (congruence || lia).
Qed.

Lemma same_send_paired t t' : paired t -> same_send t t' -> paired t'.
Proof.
  intros (P1 & P2 & P3) (A1 & A2 & A3 & A4). unfold paired.
  rewrite A1, A2, A4. split_and!; try done.
  intros s n Hs. apply P3 in Hs. lia.
Qed.

Lemma paired_reconnection_set f t :
  (NoDup (_neighborsToReconnect t) -> NoDup (f (_neighborsToReconnect t))) ->
  paired t -> paired (set_neighborsToReconnect f t).
Proof. intros Hf (P1 & P2 & P3). unfold paired. simpl. split_and!; auto. Qed.

Lemma paired_send_socket_close s t : paired t -> paired (send_socket_close s t).
Proof.
  intros (P1 & P2 & P3). unfold send_socket_close.
  destruct (send_listeners t !! s) as [n|] eqn:Hs; [|done].
  pose proof (proj2 (P1 n s) Hs) as Hn.
  unfold paired. simpl. split_and!; try done.
  - intros m k. rewrite !lookup_delete. repeat case_decide; subst.
    + split; discriminate.
    + split; [discriminate|]. intros Hk. apply P1 in Hk. congruence.
    + split; [|discriminate]. intros Hm. apply P1 in Hm. congruence.
    + apply P1.
  - intros k m. rewrite lookup_delete. case_decide; [discriminate | apply P3].
Qed.

Lemma same_send_send_socket_error s e t : same_send t (send_socket_error s e t).
Proof. unfold send_socket_error. destruct (send_listeners t !! s); solve_same_send. Qed.

Lemma same_send__disconnect_begin n t : same_send t (_disconnect_begin n t).1.
Proof. unfold _disconnect_begin. destruct (_sendSockets t !! n); solve_same_send. Qed.

Lemma paired__disconnect_settle n s d t :
  paired t -> _sendSockets t !! n = Some s ->
  let t' := (_disconnect_settle n (Some s) d t).1 in
  paired t' /\ _sendSockets t' !! n = None /\
  (forall m, m ≠ n -> _sendSockets t' !! m = _sendSockets t !! m).
Proof.
  intros Hp Hn. simpl.
  set (t0 := match d with Close => t | ErrorThenClose e => send_socket_error s e t end).
  assert (H0 : same_send t t0).
  { subst t0. destruct d; [apply same_send_refl | apply same_send_send_socket_error]. }
  assert (Heq : match d with
                | Close => send_socket_close s t
                | ErrorThenClose e => send_socket_close s (send_socket_error s e t)
                end = send_socket_close s t0) by (subst t0; by destruct d).
  rewrite Heq. clear Heq.
  pose proof (same_send_paired _ _ Hp H0) as Hp0.
  destruct H0 as (A1 & A2 & _). rewrite <- A1 in Hn. rewrite <- A1. clearbody t0.
  pose proof (paired_send_socket_close s t0 Hp0) as Hp1.
  assert (Hl : send_listeners t0 !! s = Some n) by by apply Hp0.
  assert (Hs1 : _sendSockets (send_socket_close s t0) = delete n (_sendSockets t0)).
  { unfold send_socket_close. by rewrite Hl. }
  split_and!.
  - destruct Hp1 as (P1 & P2 & P3). unfold paired. simpl. split_and!; try done.
    intros m k. rewrite Hs1, delete_delete_eq, <- Hs1. apply P1.
  - apply lookup_delete_eq.
  - intros m Hm. by rewrite lookup_delete_ne, Hs1, lookup_delete_ne.
Qed.

Lemma paired_connected n s pkt t :
  paired t -> _sendSockets t !! n = None -> send_listeners t !! s = None ->
  (s < sockets_made t)%nat ->
  paired (log (FxWrite (Outbound s) pkt) (_initSendSocket s n t)).
Proof.
  intros (P1 & P2 & P3) Hn Hs Hlt. unfold paired. simpl. split_and!; try done.
  - intros m k. rewrite !lookup_insert. repeat case_decide; subst.
    + split; congruence.
    + split; [congruence|]. intros Hk. apply P1 in Hk. congruence.
    + split; [|congruence]. intros Hm. apply P1 in Hm. congruence.
    + apply P1.
  - intros k m. rewrite lookup_insert. case_decide; [by intros [= <-]; subst | apply P3].
Qed.

Lemma connect_all_begin_same_send ns : forall t,
  same_send t (connect_all_begin ns t).1.
Proof.
  induction ns as [|n ns IH]; intros t; simpl; [apply same_send_refl|].
  specialize (IH (log (FxConnect (sockets_made t) (address n) (port n))
                    (set_sockets_made S t))).
  destruct (connect_all_begin ns _) as [t2 ps]. simpl in *.
  eapply same_send_trans; [|exact IH]. solve_same_send.
Qed.

(** What a loop of connects relies on when its sockets settle: the sockets
    and the neighbors are pairwise different, no socket carries a handler
    yet and no neighbor has a send socket. *)
Lemma connect_all_begin_ready ns t :
  paired t -> NoDup ns -> (forall n, n ∈ ns -> _sendSockets t !! n = None) ->
  let r := connect_all_begin ns t in
  paired r.1 /\ NoDup r.2.*1 /\ NoDup r.2.*2 /\
  Forall (fun p => _sendSockets r.1 !! p.1 = None /\
                   send_listeners r.1 !! p.2 = None /\
                   (p.2 < sockets_made r.1)%nat) r.2.
Proof.
  intros Hp Hnd Hnone. simpl.
  pose proof (connect_all_begin_same_send ns t) as Hss.
  pose proof (connect_all_begin_spec ns t) as (Hps & Hlt & _).
  pose proof (connect_all_begin_sockets ns t) as Hsock.
  destruct (connect_all_begin ns t) as [t1 ps]. simpl in *.
  split_and!.
  - by eapply same_send_paired.
  - by rewrite Hps.
  - rewrite Hsock. apply NoDup_seq.
  - destruct Hss as (A1 & A2 & _). destruct Hp as (_ & _ & P3).
    apply Forall_forall. intros [n s] Hin.
    rewrite Forall_forall in Hlt. specialize (Hlt _ Hin). simpl in *.
    rewrite A1, A2. split_and!.
    + apply Hnone. rewrite <- Hps. apply list_elem_of_fmap. by exists (n, s).
    + destruct (send_listeners t !! s) as [m|] eqn:E; [|done].
      apply P3 in E. lia.
    + lia.
Qed.

Lemma run_settle_paired os ws ps : forall t,
  paired t -> NoDup ps.*1 -> NoDup ps.*2 ->
  Forall (fun p => _sendSockets t !! p.1 = None /\
                   send_listeners t !! p.2 = None /\
                   (p.2 < sockets_made t)%nat) ps ->
  paired (run_settle os ws ps t).
Proof.
  induction ps as [|[n s] ps IH]; intros t Hp Hnd1 Hnd2 Hall; [done|].
  simpl.
  apply NoDup_cons in Hnd1 as [Hn Hnd1]. apply NoDup_cons in Hnd2 as [Hs Hnd2].
  apply Forall_cons in Hall as [(Hnone & Hfree & Hlt) Hall]. simpl in *.
  destruct (decide (os n = Connect)) as [Ho|Ho].
  - rewrite Ho, _connect_settle_connect. apply IH; try done.
    + by apply paired_connected.
    + apply Forall_forall. intros [m k] Hin.
      rewrite Forall_forall in Hall. destruct (Hall _ Hin) as (? & ? & ?). simpl in *.
      split_and!; [| |done].
      * rewrite lookup_insert_ne; [done|]. intros ->. apply Hn.
        apply list_elem_of_fmap. by exists (m, k).
      * rewrite lookup_insert_ne; [done|]. intros ->. apply Hs.
        apply list_elem_of_fmap. by exists (m, k).
  - destruct (_connect_settle_failed n s (os n) (ws n) t Ho) as [e ->].
    apply IH; try done. apply paired_reconnection_set; [apply NoDup_set_add | done].
Qed.

Lemma reconnect_settle_paired os ws ps : forall t,
  paired t -> NoDup ps.*1 -> NoDup ps.*2 ->
  Forall (fun p => _sendSockets t !! p.1 = None /\
                   send_listeners t !! p.2 = None /\
                   (p.2 < sockets_made t)%nat) ps ->
  paired (reconnect_settle os ws ps t).
Proof.
  induction ps as [|[n s] ps IH]; intros t Hp Hnd1 Hnd2 Hall; [done|].
  simpl.
  apply NoDup_cons in Hnd1 as [Hn Hnd1]. apply NoDup_cons in Hnd2 as [Hs Hnd2].
  apply Forall_cons in Hall as [(Hnone & Hfree & Hlt) Hall]. simpl in *.
  destruct (decide (os n = Connect)) as [Ho|Ho].
  - rewrite Ho, _connect_settle_connect. apply IH; try done.
    + apply paired_reconnection_set; [apply NoDup_set_delete|].
      by apply paired_connected.
    + apply Forall_forall. intros [m k] Hin.
      rewrite Forall_forall in Hall. destruct (Hall _ Hin) as (? & ? & ?). simpl in *.
      split_and!; [| |done].
      * rewrite lookup_insert_ne; [done|]. intros ->. apply Hn.
        apply list_elem_of_fmap. by exists (m, k).
      * rewrite lookup_insert_ne; [done|]. intros ->. apply Hs.
        apply list_elem_of_fmap. by exists (m, k).
  - destruct (_connect_settle_failed n s (os n) (ws n) t Ho) as [e ->].
    by apply IH.
Qed.

Lemma same_send_log fx t : same_send t (log fx t).
Proof. solve_same_send. Qed.

Lemma paired_addNeighbor_begin n t :
  inv t -> paired t ->
  match addNeighbor_begin n t with
  | (t1, Done _) => paired t1
  | (t1, Awaiting s) =>
      paired t1 /\ _sendSockets t1 !! n = None /\
      send_listeners t1 !! s = None /\ (s < sockets_made t1)%nat
  end.
Proof.
  intros [(_ & I2 & _) _] Hp. unfold addNeighbor_begin.
  destruct (set_has n (_neighbors t)) eqn:Has; [done|].
  apply set_has_false in Has. simpl.
  destruct (_isRunning t); simpl.
  - split_and!.
    + apply (same_send_paired t); [done | solve_same_send].
    + destruct (_sendSockets t !! n) eqn:E; [|done]. exfalso. apply Has, I2. eauto.
    + destruct Hp as (_ & _ & P3).
      destruct (send_listeners t !! sockets_made t) as [m|] eqn:E; [|done].
      apply P3 in E. lia.
    + lia.
  - apply (same_send_paired t); [done | solve_same_send].
Qed.

Lemma paired_addNeighbor_resume n s o w t :
  paired t -> _sendSockets t !! n = None -> send_listeners t !! s = None ->
  (s < sockets_made t)%nat ->
  paired (addNeighbor_resume n s o w t).1.
Proof.
  intros Hp Hn Hs Hlt. unfold addNeighbor_resume.
  destruct (decide (o = Connect)) as [->|Ho].
  - rewrite _connect_settle_connect. simpl. by apply paired_connected.
  - destruct (_connect_settle_failed n s o w t Ho) as [e ->]. simpl.
    apply paired_reconnection_set; [apply NoDup_set_add | done].
Qed.

Lemma paired_addNeighbor n o w t : inv t -> paired t -> paired (addNeighbor n o w t).1.
Proof.
  intros Hinv Hp. unfold addNeighbor.
  pose proof (paired_addNeighbor_begin n t Hinv Hp) as Hb.
  destruct (addNeighbor_begin n t) as [t1 [r|s]]; [exact Hb|].
  destruct Hb as (? & ? & ? & ?). by apply paired_addNeighbor_resume.
Qed.

Lemma paired__disconnect n s d t :
  paired t -> _sendSockets t !! n = Some s ->
  paired (_disconnect n d t).1 /\
  (forall m, m ≠ n -> _sendSockets (_disconnect n d t).1 !! m = _sendSockets t !! m) /\
  _sendSockets (_disconnect n d t).1 !! n = None.
Proof.
  intros Hp Hs. unfold _disconnect, _disconnect_begin. rewrite Hs.
  set (t1 := log (FxDestroy (Outbound s)) t).
  destruct (paired__disconnect_settle n s d t1) as (H1 & H2 & H3).
  - apply (same_send_paired t); [done | apply same_send_log].
  - exact Hs.
  - by split_and!.
Qed.

Lemma paired_removeNeighbor n d t : paired t -> paired (removeNeighbor n d t).1.
Proof.
  intros Hp. unfold removeNeighbor.
  destruct (negb (set_has n (_neighbors t))); [done|].
  set (t1 := match _receiveSockets t !! n with Some s => _ | None => t end).
  assert (H1 : paired t1).
  { apply (same_send_paired t); [done|]. subst t1.
    destruct (_receiveSockets t !! n); solve_same_send. }
  clearbody t1.
  assert (Hend : forall u : TcpTransport Data, paired u ->
    paired (set_neighbors (set_delete n) (set_neighborsToReconnect (set_delete n) u))).
  { intros u Hu. apply (same_send_paired (set_neighborsToReconnect (set_delete n) u)).
    - apply paired_reconnection_set; [apply NoDup_set_delete | done].
    - solve_same_send. }
  destruct (_sendSockets t1 !! n) as [s|] eqn:Es; [|by apply Hend].
  destruct (paired__disconnect n s d t1 H1 Es) as (H2 & _).
  destruct (_disconnect n d t1) as [t2 [[]|e]]; simpl in *; [by apply Hend | done].
Qed.

Lemma paired_run l os ws t : inv t -> paired t -> paired (run l os ws t).1.
Proof.
  intros [(_ & _ & Hnd & _) Hi] Hp. unfold run.
  destruct (_isRunning t) eqn:Hrun; [done|].
  destruct (Hi Hrun) as [Hempty _].
  destruct l as [|e]; [|simpl; apply (same_send_paired t); [done | apply same_send_log]].
  set (t2 := _initServerListeners _).
  assert (H2 : same_send t t2) by (subst t2; solve_same_send).
  destruct (connect_all_begin_ready (_neighbors t2) t2) as (H3 & N1 & N2 & Hall).
  - by eapply same_send_paired.
  - exact Hnd.
  - intros n _. subst t2. simpl. by rewrite Hempty, lookup_empty.
  - destruct (connect_all_begin (_neighbors t2) t2) as [t3 ps]. simpl in *.
    apply (same_send_paired (run_settle os ws ps t3)).
    + by apply run_settle_paired.
    + solve_same_send.
Qed.

Lemma same_send_disconnect_all_begin ns : forall t,
  same_send t (disconnect_all_begin ns t).1.
Proof.
  induction ns as [|n ns IH]; intros t; simpl; [apply same_send_refl|].
  pose proof (same_send__disconnect_begin n t) as Hb.
  destruct (_disconnect_begin n t) as [t1 s]. simpl in Hb.
  specialize (IH t1). destruct (disconnect_all_begin ns t1) as [t2 ps].
  simpl in *. by eapply same_send_trans.
Qed.

Lemma paired_disconnect_all_settle ds ps : forall t,
  paired t -> NoDup ps.*1 ->
  Forall (fun p => _sendSockets t !! p.1 = p.2 /\ is_Some p.2) ps ->
  paired (disconnect_all_settle ds ps t).1.
Proof.
  induction ps as [|[n s] ps IH]; intros t Hp Hnd Hall; simpl; [done|].
  apply NoDup_cons in Hnd as [Hn Hnd].
  apply Forall_cons in Hall as [[Hs Hsome] Hall]. simpl in Hs, Hsome.
  destruct s as [k|]; [|by destruct Hsome].
  destruct (paired__disconnect_settle n k (ds n) t Hp Hs) as (H1 & _ & Hkeep).
  destruct (_disconnect_settle n (Some k) (ds n) t) as [t1 r]. simpl in *.
  specialize (IH t1 H1 Hnd).
  destruct (disconnect_all_settle ds ps t1) as [t2 err]. simpl in *. apply IH.
  apply Forall_forall. intros [m o] Hin.
  rewrite Forall_forall in Hall. destruct (Hall _ Hin) as [Hm Ho]. simpl in *.
  split; [|done]. rewrite Hkeep; [done|]. intros ->. apply Hn.
  apply list_elem_of_fmap. by exists (n, o).
Qed.

Lemma paired_shutdown ds c t : paired t -> paired (shutdown ds c t).1.
Proof.
  intros Hp. unfold shutdown, shutdown_begin, _destroyServerListeners.
  destruct (_isRunning t); [|done]. simpl.
  destruct (_onServerConnection t); [|done]. simpl.
  set (t1 := set_onServerConnection (fun _ => false) t).
  set (ns := (map_to_list (_sendSockets t)).*1).
  assert (Hns : NoDup ns) by apply NoDup_fst_map_to_list.
  assert (Hin : forall n, n ∈ ns -> is_Some (_sendSockets t !! n)).
  { intros n. subst ns. rewrite list_elem_of_fmap.
    intros ([m s] & -> & Hin). apply elem_of_map_to_list in Hin. eauto. }
  pose proof (disconnect_all_begin_spec ns t1) as Hb.
  pose proof (same_send_disconnect_all_begin ns t1) as Hss.
  destruct (disconnect_all_begin ns t1) as [t2 ps]. simpl in Hb, Hss.
  cbv beta iota. unfold shutdown_resume.
  destruct Hb as (Hps & _ & Hs2 & _).
  assert (H2 : paired t2).
  { apply (same_send_paired t); [done|].
    eapply same_send_trans; [|exact Hss]. subst t1. solve_same_send. }
  assert (H3 : paired (disconnect_all_settle ds ps t2).1).
  { apply paired_disconnect_all_settle; [done| |].
    - rewrite Hps, <- list_fmap_compose. change (NoDup (id <$> ns)).
      by rewrite list_fmap_id.
    - rewrite Hps. apply Forall_forall. intros [m o] Hm.
      apply list_elem_of_fmap in Hm as (m' & [= -> ->] & Hm'). simpl.
      rewrite Hs2. split; [done | by apply Hin]. }
  destruct (disconnect_all_settle ds ps t2) as [t3 [e|]]; simpl in *; [done|].
  destruct c; simpl.
  - apply (same_send_paired
             (set_neighborsToReconnect (fun _ => [])
                (_destroyReconnection (log FxServerClose t3)))); [|solve_same_send].
    apply paired_reconnection_set; [intros _; apply NoDup_nil_2|].
    apply (same_send_paired t3); [done | solve_same_send].
  - apply (same_send_paired t3); [done | apply same_send_log].
Qed.

Lemma paired_reconnect os ws t : inv t -> paired t -> paired (reconnect os ws t).
Proof.
  intros [(I1 & _) _] Hp. unfold reconnect.
  destruct (connect_all_begin_ready (_neighborsToReconnect t) t) as (H1 & N1 & N2 & Hall).
  - exact Hp.
  - by destruct Hp as (_ & ? & _).
  - intros n Hn. by destruct (I1 n Hn).
  - destruct (connect_all_begin (_neighborsToReconnect t) t) as [t1 ps]. simpl in *.
    apply (same_send_paired (reconnect_settle os ws ps t1)).
    + by apply reconnect_settle_paired.
    + solve_same_send.
Qed.

Lemma same_send__receiveConnection_admit sock n t :
  same_send t (_receiveConnection_admit sock n t).
Proof. unfold _receiveConnection_admit. destruct (negb _); solve_same_send. Qed.

Lemma paired__receiveConnection sock h o w t :
  inv t -> paired t -> paired (_receiveConnection sock h o w t).1.
Proof.
  intros Hinv Hp. unfold _receiveConnection.
  destruct h as [p|e| |]; simpl; try done.
  - unfold handshake_onData. destruct (incorrect_port p); simpl; [done|].
    unfold _receiveConnection_identify.
    destruct (List.find _ _) as [n|].
    { apply (same_send_paired t); [done | apply same_send__receiveConnection_admit]. }
    destruct (_receiveUnknownNeighbor t);
      [|apply (same_send_paired t); [done | solve_same_send]].
    set (n := new_TcpNeighbor _ _ _). set (t1 := set_neighbors_made S t).
    assert (Hinv1 : inv t1).
    { apply (shrinks_inv t); [done|]. unfold shrinks. simpl. split_and!; done. }
    assert (Hp1 : paired t1) by (apply (same_send_paired t); [done | solve_same_send]).
    pose proof (paired_addNeighbor_begin n t1 Hinv1 Hp1) as Hb.
    destruct (addNeighbor_begin n t1) as [t2 pending].
    set (t4 := _receiveConnection_admit sock n (log (FxEmit (EvNeighbor n)) t2)).
    assert (H4 : same_send t2 t4).
    { eapply same_send_trans; [apply (same_send_log (FxEmit (EvNeighbor n)))|].
      apply same_send__receiveConnection_admit. }
    destruct pending as [r|s]; [by apply (same_send_paired t2)|].
    destruct Hb as (Hp2 & Hn & Hs & Hlt).
    destruct H4 as (A1 & A2 & A3 & A4).
    apply paired_addNeighbor_resume.
    + apply (same_send_paired t2); [done | by split_and!].
    + by rewrite A1.
    + by rewrite A2.
    + lia.
Qed.

Lemma same_send_emit_all (f : text -> Event Data) bs : forall t,
  same_send t (fold_left (fun t packet => log (FxEmit (f packet)) t) bs t).
Proof.
  induction bs as [|b bs IH]; intros t; simpl; [apply same_send_refl|].
  eapply same_send_trans; [|apply IH]. apply same_send_log.
Qed.

Lemma same_send_receive_socket_data s bytes t :
  same_send t (receive_socket_data unpack packetSize s bytes t).
Proof.
  unfold receive_socket_data.
  destruct (receive_listeners t !! s) as [[[n a] buf]|]; [|apply same_send_refl].
  destruct (BlockStream _ _ _) as [bs r].
  eapply same_send_trans;
    [|apply (same_send_emit_all (fun p => EvReceive (unpack p) n a))].
  solve_same_send.
Qed.

Lemma new_TcpTransport_paired h p i r : paired (new_TcpTransport (Data := Data) h p i r).
Proof.
  unfold paired. simpl. split_and!.
  - intros n s. by rewrite !lookup_empty.
  - apply NoDup_nil_2.
  - intros s n Hs. by rewrite lookup_empty in Hs.
Qed.

Lemma step_paired t t' :
  step pack unpack packetSize t t' -> inv t -> paired t -> paired t'.
Proof.
  intros Hstep Hinv Hp. destruct Hstep.
  - by apply paired_addNeighbor.
  - by apply paired_removeNeighbor.
  - by apply paired_run.
  - by apply paired_shutdown.
  - apply (same_send_paired t); [done|]. unfold send.
    destruct (negb _); [apply same_send_refl|].
    destruct (_sendSockets t !! n); [|apply same_send_refl].
    destruct w; solve_same_send.
  - by apply paired_reconnect.
  - by apply paired__receiveConnection.
  - apply (same_send_paired t); [done | apply same_send_send_socket_error].
  - by apply paired_send_socket_close.
  - apply (same_send_paired t); [done | apply same_send_receive_socket_data].
  - apply (same_send_paired t); [done|]. unfold receive_socket_error.
    destruct (receive_listeners t !! s); solve_same_send.
  - apply (same_send_paired t); [done|]. unfold receive_socket_close.
    destruct (receive_listeners t !! s) as [[[? ?] ?]|]; solve_same_send.
  - apply (same_send_paired t); [done|]. unfold server_error.
    destruct (_onServerConnection t); solve_same_send.
Qed.

Lemma reachable_paired t : reachable pack unpack packetSize t -> paired t.
Proof.
  intros (h & p & i & r & Hrtc).
  assert (inv t /\ paired t) as [_ ?]; [|done].
  revert t Hrtc. apply (rtc_ind_r (fun t => inv t /\ paired t)).
  - split; [apply new_TcpTransport_inv | apply new_TcpTransport_paired].
  - intros t1 t2 _ Hstep [Hinv Hp]. split.
    + by eapply step_inv.
    + by eapply step_paired.
Qed.


(** *** The earlier revision and the later one *)

Lemma Legacy_reconnect_settle_connects os ps : forall t n,
  n ∈ ps.*1 -> os n = Connect ->
  is_Some (_sendSockets (Legacy.reconnect_settle os ps t).1 !! n) /\
  _neighbors (Legacy.reconnect_settle os ps t).1 = _neighbors t.
Proof.
  assert (Hkeep : forall ps t,
    _neighbors (Legacy.reconnect_settle os ps t).1 = _neighbors t /\
    forall n, is_Some (_sendSockets t !! n) ->
      is_Some (_sendSockets (Legacy.reconnect_settle os ps t).1 !! n)).
  { clear ps. induction ps as [|[m s] ps IH]; intros t; simpl; [done|].
    destruct (os m) eqn:Hm; simpl.
    - destruct (IH (set_neighborsToReconnect (set_delete m)
                      (set_sendSockets (fun k => <[m := s]> k) t))) as [H1 H2].
      split; [exact H1|]. intros n Hn. apply H2. simpl.
      rewrite lookup_insert. case_decide; eauto.
    - apply IH.
    - apply IH. }
  induction ps as [|[m s] ps IH]; intros t n Hn Ho; simpl in *.
  - by apply elem_of_nil in Hn.
  - apply elem_of_cons in Hn as [->|Hn].
    + rewrite Ho.
      destruct (Hkeep ps (set_neighborsToReconnect (set_delete m)
                            (set_sendSockets (fun k => <[m := s]> k) t))) as [H1 H2].
      split; [|exact H1]. apply H2. simpl. rewrite lookup_insert_eq. eauto.
    + destruct (os m) eqn:Hm; simpl.
      * destruct (IH (set_neighborsToReconnect (set_delete m)
                        (set_sendSockets (fun k => <[m := s]> k) t)) n Hn Ho)
          as [H1 H2]. done.
      * by apply IH.
      * by apply IH.
Qed.

(** In the earlier revision [removeNeighbor] leaves the reconnection set
    alone: a neighbor removed while it waits for reconnection stays in the
    set, and the next tick whose connect to it succeeds connects the
    transport to a neighbor that is no longer in its table. The later
    revision takes the neighbor out of the set. *)
Theorem Legacy_removed_neighbor_is_reconnected n d os t :
  n ∈ _neighbors t ->
  n ∈ _neighborsToReconnect t ->
  _sendSockets t !! n = None ->
  let t1 := (Legacy.removeNeighbor n d t).1 in
  (Legacy.removeNeighbor n d t).2 = Resolved tt /\
  (n ∉ _neighbors t1) /\
  n ∈ _neighborsToReconnect t1 /\
  (os n = Connect ->
     isConnectedTo (Legacy.reconnect os t1) n = true /\
     (n ∉ _neighbors (Legacy.reconnect os t1))) /\
  (n ∉ _neighborsToReconnect (removeNeighbor n d t).1).
Proof.
  intros Hn Hre Hs. simpl.
  assert (Heq : Legacy.removeNeighbor n d t = (set_neighbors (set_delete n) t, Resolved tt)).
  { unfold Legacy.removeNeighbor. apply set_has_true in Hn. by rewrite Hn, Hs. }
  rewrite Heq. simpl. split_and!; try done.
  - rewrite elem_of_set_delete. tauto.
  - intros Ho. unfold Legacy.reconnect.
    set (t1 := set_neighbors (set_delete n) t).
    pose proof (connect_all_begin_spec (_neighborsToReconnect t1) t1) as Hb.
    destruct (connect_all_begin (_neighborsToReconnect t1) t1) as [t2 ps]. simpl in Hb.
    destruct Hb as (Hps & _ & _ & _ & _ & _ & Hn2 & _).
    destruct (Legacy_reconnect_settle_connects os ps t2 n) as [Hsome Hnb]; [by rewrite Hps|done|].
    destruct (Legacy.reconnect_settle os ps t2) as [t3 settled]. simpl in *.
    assert (Hgone : n ∉ _neighbors t3).
    { rewrite Hnb, Hn2. subst t1. simpl. rewrite elem_of_set_delete. tauto. }
    destruct settled; simpl; (split; [by apply bool_decide_eq_true | done]).
  - destruct (removeNeighbor_resolves n d t Hn) as (t2 & -> & _).
    simpl. rewrite elem_of_set_delete. tauto.
Qed.

(** In the earlier revision a socket error during the disconnect makes
    [removeNeighbor] fail: the neighbor stays in the table and keeps its
    send-socket entry although the socket has been destroyed. In the later
    revision the same error resolves the disconnect and the neighbor is
    removed. *)
Theorem Legacy_removeNeighbor_fails_on_socket_error n s e t :
  n ∈ _neighbors t ->
  _sendSockets t !! n = Some s ->
  Legacy.removeNeighbor n (ErrorThenClose e) t
    = (log (FxDestroy (Outbound s)) t, Rejected e) /\
  (removeNeighbor n (ErrorThenClose e) t).2 = Resolved tt /\
  (n ∉ _neighbors (removeNeighbor n (ErrorThenClose e) t).1) /\
  _sendSockets (removeNeighbor n (ErrorThenClose e) t).1 !! n = None.
Proof.
  intros Hn Hs. split.
  - unfold Legacy.removeNeighbor, Legacy._disconnectNeighbor.
    apply set_has_true in Hn. by rewrite Hn, Hs.
  - destruct (removeNeighbor_resolves n (ErrorThenClose e) t Hn)
      as (t2 & -> & _ & _ & _ & Hnone & _).
    simpl. split_and!; try done. rewrite elem_of_set_delete. tauto.
Qed.

(** The two revisions of [send] agree on every neighbor that may be sent
    to; on a connected neighbor that may not, the earlier one writes the
    packet and the later one is rejected without writing. *)
Theorem Legacy_send_differs_only_on_permission (data : Data) n w t :
  (gatewayCanSendTo n = true ->
     Legacy.send pack data n w t = send pack data n w t) /\
  (forall s, gatewayCanSendTo n = false -> _sendSockets t !! n = Some s ->
     Legacy.send pack data n w t
       = (log (FxWrite (Outbound s) (pack data)) t, Resolved tt) /\
     send pack data n w t = (t, Rejected (SendForbidden (address n)))).
Proof.
  unfold Legacy.send, send. split.
  - by intros ->.
  - intros s -> ->. by destruct w.
Qed.

(** On a running transport of the earlier revision, [addNeighbor] of a new
    neighbor whose connection closes before it connects never settles and
    never inserts the neighbor; the later revision resolves, inserts the
    neighbor and marks it for reconnection. When the connect succeeds or
    fails with an error, both revisions end with the same neighbor table,
    reconnection set and send sockets. *)
Theorem Legacy_addNeighbor_hangs_on_close n o w t :
  (n ∉ _neighbors t) ->
  _isRunning t = true ->
  (o = ConnectClose ->
     (Legacy.addNeighbor n o t).2 = None /\
     (n ∉ _neighbors (Legacy.addNeighbor n o t).1) /\
     (addNeighbor n o w t).2 = Resolved tt /\
     n ∈ _neighbors (addNeighbor n o w t).1 /\
     n ∈ _neighborsToReconnect (addNeighbor n o w t).1) /\
  (o ≠ ConnectClose ->
     (Legacy.addNeighbor n o t).2 = Some (Resolved tt) /\
     _neighbors (Legacy.addNeighbor n o t).1 = _neighbors (addNeighbor n o w t).1 /\
     _neighborsToReconnect (Legacy.addNeighbor n o t).1
       = _neighborsToReconnect (addNeighbor n o w t).1 /\
     _sendSockets (Legacy.addNeighbor n o t).1 = _sendSockets (addNeighbor n o w t).1).
Proof.
  intros Hn Hrun.
  destruct (addNeighbor_cases n o w t) as [_ Hnew].
  destruct (Hnew Hn) as (Hres & Hadd & _ & Hok & Hfail).
  assert (Hset : set_add n (_neighbors t) = _neighbors t ++ [n]).
  { apply set_has_false in Hn. unfold set_add. by rewrite Hn. }
  pose proof Hn as Hhas%set_has_false.
  unfold Legacy.addNeighbor, Legacy._connectNeighbor. rewrite Hhas, Hrun. simpl.
  split.
  - intros ->. simpl. destruct (Hfail Hrun ltac:(done)) as [_ Hre].
    split_and!; try done.
    + rewrite Hadd, elem_of_app, list_elem_of_singleton. by right.
    + rewrite Hre. apply elem_of_set_add. by left.
  - intros Ho. destruct o as [| |e]; [|done|]; simpl.
    + destruct (Hok Hrun eq_refl) as [Hs Hre]. by rewrite Hadd, Hs, Hre, Hset.
    + destruct (Hfail Hrun ltac:(done)) as [Hs Hre]. by rewrite Hadd, Hs, Hre, Hset.
Qed.


(** In every state reached by whole operations, a socket is registered as a
    neighbor's send socket exactly when it carries the close handler
    [_initSendSocket] installs for that neighbor; no two neighbors share a
    send socket; and when a registered send socket closes, its own entry and
    no other is removed from the table. *)
Theorem send_socket_entries_match_open_connections t :
  reachable pack unpack packetSize t ->
  (forall n s, _sendSockets t !! n = Some s <-> send_listeners t !! s = Some n) /\
  (forall n m s, _sendSockets t !! n = Some s -> _sendSockets t !! m = Some s -> n = m) /\
  (forall n s, _sendSockets t !! n = Some s ->
     _sendSockets (send_socket_close s t) = delete n (_sendSockets t) /\
     send_listeners (send_socket_close s t) = delete s (send_listeners t)).
Proof.
  intros (P1 & _ & _)%reachable_paired. split_and!.
  - exact P1.
  - intros n m s Hn%P1 Hm%P1. congruence.
  - intros n s Hn%P1. unfold send_socket_close. by rewrite Hn.
Qed.





(** *** Packets on the receiving side *)

Lemma BlockStream_short fuel size (buf : text) :
  (length buf < size)%nat -> BlockStream fuel size buf = ([], buf).
Proof.
  intros Hlt. destruct fuel as [|f]; simpl; [done|].
  destruct (Nat.ltb_spec (length buf) size); [|lia]. by rewrite orb_true_r.
Qed.

Lemma BlockStream_long fuel size (buf : text) :
  (0 < size)%nat -> (size <= length buf)%nat ->
  BlockStream (S fuel) size buf =
    (take size buf :: (BlockStream fuel size (drop size buf)).1,
     (BlockStream fuel size (drop size buf)).2).
Proof.
  intros Hpos Hge. simpl.
  destruct (Nat.eqb_spec size 0); [lia|].
  destruct (Nat.ltb_spec (length buf) size); [lia|]. simpl.
  by destruct (BlockStream fuel size (drop size buf)).
Qed.

Lemma BlockStream_fuel size : (0 < size)%nat -> forall f1 f2 (buf : text),
  (length buf <= f1)%nat -> (length buf <= f2)%nat ->
  BlockStream f1 size buf = BlockStream f2 size buf.
Proof.
  intros Hpos. induction f1 as [|f1 IH]; intros f2 buf H1 H2.
  - rewrite !BlockStream_short; [done|lia|lia].
  - destruct (Nat.ltb_spec (length buf) size) as [Hlt|Hge].
    { by rewrite !BlockStream_short. }
    destruct f2 as [|f2]; [lia|].
    rewrite !BlockStream_long by done.
    assert (Hd : (length (drop size buf) = length buf - size)%nat) by apply length_drop.
    by rewrite (IH f2) by lia.
Qed.

Lemma BlockStream_app size : (0 < size)%nat -> forall fuel (buf more : text),
  (length buf <= fuel)%nat ->
  let r1 := BlockStream (length buf) size buf in
  let r2 := BlockStream (length (r1.2 ++ more)) size (r1.2 ++ more) in
  BlockStream (length (buf ++ more)) size (buf ++ more) = (r1.1 ++ r2.1, r2.2).
Proof.
  intros Hpos. induction fuel as [|f IH]; intros buf more Hlen; cbv zeta.
  - destruct buf; [|simpl in Hlen; lia]. simpl.
    by destruct (BlockStream (length more) size more).
  - destruct (Nat.ltb_spec (length buf) size) as [Hlt|Hge].
    { rewrite (BlockStream_short _ _ buf) by done. simpl.
      by destruct (BlockStream (length (buf ++ more)) size (buf ++ more)). }
    assert (Hd : (length (drop size buf) = length buf - size)%nat) by apply length_drop.
    destruct (length buf) as [|k] eqn:Ek; [lia|].
    rewrite BlockStream_long by (done || lia).
    rewrite length_app, Ek. simpl Nat.add.
    rewrite BlockStream_long by (done || rewrite length_app; lia).
    rewrite take_app_le, drop_app_le by lia.
    rewrite (BlockStream_fuel size Hpos k (length (drop size buf)) (drop size buf))
      by lia.
    rewrite (BlockStream_fuel size Hpos (k + length more)
               (length (drop size buf ++ more)) (drop size buf ++ more))
      by (rewrite length_app; lia).
    specialize (IH (drop size buf) more ltac:(lia)). cbv zeta in IH.
    rewrite IH. reflexivity.
Qed.

Lemma BlockStream_packets size (packets : list text) :
  (0 < size)%nat -> Forall (fun p => length p = size) packets ->
  BlockStream (length (concat packets)) size (concat packets) = (packets, []).
Proof.
  intros Hpos. induction 1 as [|p ps Hp _ IH]; [done|].
  simpl concat. rewrite length_app.
  destruct (length p) as [|k] eqn:Ek; [lia|]. simpl Nat.add.
  rewrite BlockStream_long by (done || rewrite length_app; lia).
  rewrite take_app_length', drop_app_length' by lia.
  rewrite (BlockStream_fuel size Hpos _ (length (concat ps))) by lia.
  by rewrite IH.
Qed.

Lemma emit_all_app (f : text -> Event Data) bs1 bs2 t :
  fold_left (fun t packet => log (FxEmit (f packet)) t) (bs1 ++ bs2) t
  = fold_left (fun t packet => log (FxEmit (f packet)) t) bs2
      (fold_left (fun t packet => log (FxEmit (f packet)) t) bs1 t).
Proof. apply fold_left_app. Qed.

Lemma emit_all_listeners (f : text -> Event Data) g bs : forall t,
  set_receive_listeners g (fold_left (fun t packet => log (FxEmit (f packet)) t) bs t)
  = fold_left (fun t packet => log (FxEmit (f packet)) t) bs (set_receive_listeners g t).
Proof. induction bs as [|b bs IH]; intros t; simpl; [done|]. by rewrite IH. Qed.

Lemma emit_all_receive_listeners (f : text -> Event Data) bs : forall t,
  receive_listeners (fold_left (fun t packet => log (FxEmit (f packet)) t) bs t)
  = receive_listeners t.
Proof. induction bs as [|b bs IH]; intros t; simpl; [done|]. by rewrite IH. Qed.

Lemma receive_socket_data_app s b1 b2 t :
  (0 < packetSize)%nat ->
  receive_socket_data unpack packetSize s b2
      (receive_socket_data unpack packetSize s b1 t)
  = receive_socket_data unpack packetSize s (b1 ++ b2) t.
Proof.
  intros Hpos. unfold receive_socket_data at 2 3.
  destruct (receive_listeners t !! s) as [[[n a] buf]|] eqn:El.
  2:{ unfold receive_socket_data. by rewrite El. }
  pose proof (BlockStream_app packetSize Hpos (length (buf ++ b1)) (buf ++ b1) b2
                (le_n _)) as Happ. cbv zeta in Happ.
  rewrite <- app_assoc in Happ. rewrite Happ. clear Happ.
  destruct (BlockStream (length (buf ++ b1)) packetSize (buf ++ b1)) as [bs1 r1].
  simpl fst. simpl snd.
  unfold receive_socket_data.
  rewrite emit_all_receive_listeners. simpl receive_listeners.
  rewrite lookup_insert_eq.
  destruct (BlockStream (length (r1 ++ b2)) packetSize (r1 ++ b2)) as [bs2 r2].
  simpl fst. simpl snd.
  rewrite emit_all_app. f_equal.
  rewrite emit_all_listeners. f_equal.
  unfold set_receive_listeners. simpl. f_equal.
  apply insert_insert_eq.
Qed.

(** How the bytes of a connection are cut into [data] events does not
    matter: two chunks one after the other leave the transport exactly as
    the same bytes arriving in one chunk do. *)
Theorem received_packets_do_not_depend_on_segmentation s b1 b2 t :
  (0 < packetSize)%nat ->
  receive_socket_data unpack packetSize s b2
      (receive_socket_data unpack packetSize s b1 t)
  = receive_socket_data unpack packetSize s (b1 ++ b2) t.
Proof. apply receive_socket_data_app. Qed.

(** The packets [pack data] of a list of data, which is what [send] writes
    for them, each of the packet size, are emitted one receive event each
    and in order on the side that reads their bytes from an empty buffer,
    whatever the cut of the bytes into two chunks; the buffer is empty again
    afterwards. *)
Theorem sent_packets_are_received (sent : list Data) s n a b1 b2 t :
  (0 < packetSize)%nat ->
  (forall data, length (pack data) = packetSize) ->
  receive_listeners t !! s = Some (n, a, []) ->
  b1 ++ b2 = concat (map pack sent) ->
  let t' := receive_socket_data unpack packetSize s b2
              (receive_socket_data unpack packetSize s b1 t) in
  trace t' = trace t ++ map (fun data => FxEmit (EvReceive (unpack (pack data)) n a)) sent /\
  receive_listeners t' !! s = Some (n, a, []).
Proof.
  intros Hpos Hsize Hl Hcut. cbv zeta.
  rewrite receive_socket_data_app, Hcut by done.
  unfold receive_socket_data. rewrite Hl. simpl app.
  rewrite BlockStream_packets.
  2: done.
  2:{ apply Forall_forall. intros p [d [-> _]]%list_elem_of_fmap. apply Hsize. }
  rewrite emit_all_trace, emit_all_receive_listeners. simpl.
  rewrite lookup_insert_eq, map_map. done.
Qed.


(** *** Segments and overlapping runs *)

Lemma connect_all_begin_timer f ns : forall t,
  connect_all_begin ns (set_reconnectionTimer f t)
  = (set_reconnectionTimer f (connect_all_begin ns t).1, (connect_all_begin ns t).2).
Proof.
  induction ns as [|n ns IH]; intros t; simpl; [done|].
  change (log (FxConnect (sockets_made t) (address n) (port n))
            (set_sockets_made S (set_reconnectionTimer f t)))
    with (set_reconnectionTimer f
            (log (FxConnect (sockets_made t) (address n) (port n))
               (set_sockets_made S t))).
  rewrite IH. by destruct (connect_all_begin ns _).
Qed.

Lemma reconnect_settle_timer f os ws ps : forall t,
  reconnect_settle os ws ps (set_reconnectionTimer f t)
  = set_reconnectionTimer f (reconnect_settle os ws ps t).
Proof.
  induction ps as [|[n s] ps IH]; intros t; simpl; [done|].
  rewrite <- IH. f_equal.
  unfold _connect_settle. destruct (os n); [|done..].
  by destruct (write_promise (ws n)).
Qed.

(** The timer callback is its two segments one after the other. *)
Lemma reconnect_whole os ws t :
  reconnect os ws t
  = reconnect_resume os ws (reconnect_begin t).2 (reconnect_begin t).1.
Proof.
  unfold reconnect, reconnect_resume, reconnect_begin.
  rewrite connect_all_begin_timer. simpl.
  destruct (connect_all_begin (_neighborsToReconnect t) t) as [t1 ps]. simpl.
  by rewrite reconnect_settle_timer.
Qed.

(** A run without overlap is a run. *)
Lemma rtc_step_async ps t t' :
  rtc (step pack unpack packetSize) t t' ->
  rtc (async_step pack unpack packetSize) (t, ps) (t', ps).
Proof.
  induction 1 as [|t t1 t' Hstep _ IH]; [apply rtc_refl|].
  eapply rtc_l; [|exact IH]. by apply async_whole.
Qed.

Lemma reachable_async_reachable t :
  reachable pack unpack packetSize t -> async_reachable pack unpack packetSize t.
Proof.
  intros (h & p & i & r & Hrtc). exists h, p, i, r, [].
  by apply rtc_step_async.
Qed.

End TransportFacts.

(** ** The properties on the concrete setting *)

Import Scenario.

Lemma Scenario_pack_size data : length (pack data) = packetSize.
Proof.
  unfold pack, packetSize.
  rewrite length_take, length_app, length_replicate. lia.
Qed.

Lemma running_reachable : reachable pack unpack packetSize running.
Proof.
  exists None, 1440, (Some 50), false. apply rtc_once.
  exact (step_run pack unpack packetSize ServerOk (always Connect) flushed fresh).
Qed.

Lemma connected_reachable : reachable pack unpack packetSize connected.
Proof.
  destruct running_reachable as (h & p & i & r & Hrtc).
  exists h, p, i, r. eapply rtc_r; [exact Hrtc|].
  exact (step_addNeighbor pack unpack packetSize alice Connect Flushed running).
Qed.

Lemma waiting_reachable : reachable pack unpack packetSize waiting.
Proof.
  destruct connected_reachable as (h & p & i & r & Hrtc).
  exists h, p, i, r. eapply rtc_r; [exact Hrtc|].
  exact (step_addNeighbor pack unpack packetSize bob refused Flushed connected).
Qed.



Example connected_alice : _sendSockets connected !! alice = Some 0%nat.
Proof. vm_compute. reflexivity. Qed.

Example waiting_bob : _neighborsToReconnect waiting = [bob].
Proof. vm_compute. reflexivity. Qed.

(** C1 on the transport listening on port 1440: the first and only bytes on
    the socket of a successful connect are ["0000001440"]. *)
Lemma connect_writes_the_port_handshake_witness :
  reachable pack unpack packetSize running /\
  (_port running < 10 ^ 10) /\
  (_sendSockets (_connect alice Connect Flushed running).1 !! alice = Some 0%nat) /\
  (writes_on (Outbound 0) (trace (_connect alice Connect Flushed running).1)
    = [txt "0000001440"]).
Proof.
  assert (Hport : _port running < 10 ^ 10) by reflexivity.
  pose proof (connect_writes_the_port_handshake pack unpack packetSize
                alice Flushed running running_reachable Hport) as H.
  destruct H as [(_ & Hsock & _ & Hwrites) _].
  split; [exact running_reachable|]. split; [exact Hport|].
  split; [exact Hsock | exact Hwrites].
Defined.

(** C4 on the concrete setting: the three outcomes of [send]. *)
Lemma send_checks_then_writes_packet_witness :
  (forall data, length (pack data) = packetSize) /\
  send pack (txt "ab") mute Flushed connected
    = (connected, Rejected (SendForbidden "10.0.0.4")) /\
  send pack (txt "ab") bob Flushed connected
    = (connected, Rejected (NotConnected "10.0.0.3")) /\
  send pack (txt "ab") alice Flushed connected
    = (log (FxWrite (Outbound 0) (txt "ab00")) connected, Resolved tt) /\
  length (pack (txt "ab")) = 4%nat.
Proof.
  split; [exact Scenario_pack_size|].
  destruct (send_checks_then_writes_packet pack packetSize Scenario_pack_size
              (txt "ab") mute connected) as (Hforbidden & _ & _).
  destruct (send_checks_then_writes_packet pack packetSize Scenario_pack_size
              (txt "ab") bob connected) as (_ & Hnotconnected & _).
  destruct (send_checks_then_writes_packet pack packetSize Scenario_pack_size
              (txt "ab") alice connected) as (_ & _ & Hwrite).
  split; [exact (Hforbidden eq_refl Flushed)|].
  split; [apply Hnotconnected; vm_compute; reflexivity|].
  apply (Hwrite 0%nat); vm_compute; reflexivity.
Defined.

(** C10 on the concrete setting: a failed write still resolves [send]. *)
Lemma send_resolves_on_write_error_witness :
  gatewayCanSendTo alice = true /\
  _sendSockets connected !! alice = Some 0%nat /\
  (send pack (txt "ab") alice (WriteError (SystemError "EPIPE")) connected).2
    = Resolved tt.
Proof.
  assert (Hsock : _sendSockets connected !! alice = Some 0%nat)
    by (vm_compute; reflexivity).
  split; [reflexivity|]. split; [exact Hsock|].
  exact (send_resolves_on_write_error pack (txt "ab") alice 0%nat
           (WriteError (SystemError "EPIPE")) connected eq_refl Hsock).
Defined.




(** C6 on the concrete setting: a tick with [bob] waiting, whose connect
    now succeeds. *)
Lemma reconnect_retries_the_set_then_rearms_witness :
  _neighborsToReconnect waiting = [bob] /\
  (bob ∉ _neighborsToReconnect (reconnect (always Connect) flushed waiting)) /\
  is_Some (_sendSockets (reconnect (always Connect) flushed waiting) !! bob) /\
  _reconnectionTimer (reconnect (always Connect) flushed waiting) = true.
Proof.
  destruct (reconnect_retries_the_set_then_rearms (always Connect) flushed waiting)
    as (Hset & Hsock & _ & Htimer).
  assert (Hbob : bob ∈ _neighborsToReconnect waiting)
    by (vm_compute; apply list_elem_of_here).
  split; [vm_compute; reflexivity|]. split; [|split; [|exact Htimer]].
  - intros Hin. apply Hset in Hin as [_ Hne]. by apply Hne.
  - by apply Hsock.
Defined.




(** C2 fails on the code. A connection from 10.0.0.2, the address of the
    known neighbor [alice], accepted on the local address 10.0.0.1, is not
    attributed to [alice]: the socket is dropped. With a neighbor whose host
    is 10.0.0.1 in the table, the same connection is attributed to that
    neighbor, and the packets it carries are emitted with the address
    10.0.0.1. In both cases the address used is the local one. *)
Lemma accepted_socket_identified_by_its_local_address :
  remoteAddress from_alice = host alice /\
  localAddress from_alice ≠ host alice /\
  getNeighbor connected (remoteAddress from_alice) = Some alice /\
  _receiveSockets (accept_from_alice connected) !! alice = None /\
  destroyed (Inbound 7) (trace (accept_from_alice connected)) = true /\
  _receiveSockets (accept_from_alice with_here) !! alice = None /\
  _receiveSockets (accept_from_alice with_here) !! here = Some 7%nat /\
  trace (receive_socket_data unpack packetSize 7 (txt "abcd") (accept_from_alice with_here))
    = trace (accept_from_alice with_here)
        ++ [FxEmit (EvReceive (txt "abcd") here "10.0.0.1")].
Proof. vm_compute. repeat split; try reflexivity. discriminate. Qed.

(** C3 fails on the code. On the payload ["abc"] the accept routine is
    rejected with the received text and looks no neighbor up, but the
    transport is left exactly as it was: the socket is not destroyed. On a
    timeout, the sibling path, it is. *)
Lemma incorrect_port_leaves_the_socket_open :
  incorrect_port (txt "abc") = true /\
  _receiveConnection from_alice (HandshakeData (txt "abc")) Connect Flushed connected
    = (connected, Some (Rejected (IncorrectPort (txt "abc")))) /\
  destroyed (Inbound 7)
    (trace (_receiveConnection from_alice (HandshakeData (txt "abc"))
              Connect Flushed connected).1) = false /\
  destroyed (Inbound 7)
    (trace (_receiveConnection from_alice HandshakeTimeout
              Connect Flushed connected).1) = true.
Proof.
  split; [reflexivity|]. split; [reflexivity|].
  split; vm_compute; reflexivity.
Qed.

(** C9 fails on the code. [peer] connects a second time while its first
    connection is open: the table entry is overwritten, yet both sockets
    keep delivering packets. When the first connection closes, the entry,
    which by then belongs to the second socket, is removed, although the
    second socket is neither closed nor destroyed and still delivers. *)
Lemma second_connection_loses_its_entry :
  _receiveSockets peer_once !! peer = Some 1%nat /\
  _receiveSockets peer_twice !! peer = Some 2%nat /\
  destroyed (Inbound 1) (trace peer_twice) = false /\
  trace (receive_socket_data unpack packetSize 1 (txt "abcd") peer_twice)
    = trace peer_twice ++ [FxEmit (EvReceive (txt "abcd") peer "127.0.0.1")] /\
  trace (receive_socket_data unpack packetSize 2 (txt "efgh") peer_twice)
    = trace peer_twice ++ [FxEmit (EvReceive (txt "efgh") peer "127.0.0.1")] /\
  _receiveSockets first_closed !! peer = None /\
  destroyed (Inbound 2) (trace first_closed) = false /\
  trace (receive_socket_data unpack packetSize 2 (txt "efgh") first_closed)
    = trace first_closed ++ [FxEmit (EvReceive (txt "efgh") peer "127.0.0.1")].
Proof. vm_compute. repeat split; reflexivity. Qed.

(** ** The further properties on the concrete setting *)

Local Ltac evaluated := vm_compute; reflexivity.
Local Ltac known := apply set_has_true; vm_compute; reflexivity.
Local Ltac unknown := apply set_has_false; vm_compute; reflexivity.

Lemma fresh_reachable : reachable pack unpack packetSize fresh.
Proof. exists None, 1440, (Some 50), false. apply rtc_refl. Qed.

(** [addNeighbor(bob)] on the running transport, the connect refused. *)
Lemma addNeighbor_outcomes_witness :
  (bob ∉ _neighbors connected) /\
  (addNeighbor bob refused Flushed connected).2 = Resolved tt /\
  _neighbors (addNeighbor bob refused Flushed connected).1 = _neighbors connected ++ [bob] /\
  _sendSockets (addNeighbor bob refused Flushed connected).1 = _sendSockets connected /\
  _neighborsToReconnect (addNeighbor bob refused Flushed connected).1
    = set_add bob (_neighborsToReconnect connected).
Proof.
  assert (Hbob : bob ∉ _neighbors connected) by unknown.
  destruct (addNeighbor_outcomes bob refused Flushed connected) as [_ Hnew].
  destruct (Hnew Hbob) as (Hres & Htable & _ & _ & Hfail).
  destruct (Hfail eq_refl ltac:(discriminate)) as [Hsock Hset].
  split; [exact Hbob|]. split; [exact Hres|]. split; [exact Htable|].
  split; [exact Hsock | exact Hset].
Defined.

(** [alice] removed twice, and added again after the removal. *)
Lemma add_remove_in_sequence_witness :
  alice ∈ _neighbors connected /\
  (removeNeighbor alice Close (removeNeighbor alice Close connected).1).2
    = Rejected (NotFound (address alice)) /\
  (addNeighbor alice Connect Flushed (removeNeighbor alice Close connected).1).2
    = Resolved tt.
Proof.
  assert (Halice : alice ∈ _neighbors connected) by known.
  destruct (add_remove_in_sequence alice Connect Flushed Connect Flushed Close Close
              connected) as [_ Hknown].
  split; [exact Halice | exact (Hknown Halice)].
Defined.

(** Looking up [bob]'s address in the table [alice; bob]. *)
Lemma getNeighbor_first_match_witness :
  getNeighbor waiting "10.0.0.3" = Some bob /\
  host bob = "10.0.0.3"%string /\
  exists before after, _neighbors waiting = before ++ bob :: after /\
    forall m, m ∈ before -> host m ≠ "10.0.0.3"%string.
Proof.
  assert (Hget : getNeighbor waiting "10.0.0.3" = Some bob) by evaluated.
  destruct (getNeighbor_first_match waiting "10.0.0.3") as [Hsome _].
  split; [exact Hget | exact (Hsome bob Hget)].
Defined.

(** After [alice] is removed her address no longer resolves to her. *)
Lemma getNeighbor_after_add_and_remove_witness :
  alice ∈ _neighbors connected /\
  getNeighbor (removeNeighbor alice Close connected).1 "10.0.0.2" ≠ Some alice.
Proof.
  assert (Halice : alice ∈ _neighbors connected) by known.
  destruct (getNeighbor_after_add_and_remove alice Connect Flushed Close connected
              "10.0.0.2") as [_ Hknown].
  split; [exact Halice | exact (Hknown Halice)].
Defined.

(** [run()] with [alice] and [bob] in the table, every connect refused. *)
Lemma run_outcomes_witness :
  _isRunning listed = false /\
  bob ∈ _neighbors listed /\
  (run ServerOk (always refused) flushed listed).2 = Resolved tt /\
  _isRunning (run ServerOk (always refused) flushed listed).1 = true /\
  bob ∈ _neighborsToReconnect (run ServerOk (always refused) flushed listed).1.
Proof.
  assert (Hbob : bob ∈ _neighbors listed) by known.
  destruct (run_outcomes ServerOk (always refused) flushed listed) as (_ & _ & Hok).
  destruct (Hok eq_refl eq_refl) as (Hres & Hrun & _ & _ & _ & _ & Hfail).
  destruct (Hfail bob Hbob ltac:(discriminate)) as [Hset _].
  split; [reflexivity|]. split; [exact Hbob|]. split; [exact Hres|].
  split; [exact Hrun | exact Hset].
Defined.

(** The server fails to close during [shutdown()] of the transport
    connected to [alice]; neither [run()] nor another [shutdown()] gets it
    out of that state. *)
Lemma shutdown_failure_leaves_transport_running_witness :
  _isRunning waiting = true /\
  _onServerConnection waiting = true /\
  (shutdown closes (ServerError (SystemError "EIO")) waiting).2
    = Rejected (SystemError "EIO") /\
  _isRunning stuck = true /\
  _sendSockets stuck = ∅ /\
  run ServerOk (always Connect) flushed stuck = (stuck, Rejected AlreadyRunning) /\
  shutdown closes ServerOk stuck = (stuck, Rejected (SystemError "TypeError")).
Proof.
  assert (Hrun : _isRunning waiting = true) by reflexivity.
  assert (Hon : _onServerConnection waiting = true) by reflexivity.
  destruct (shutdown_failure_leaves_transport_running closes
              (SystemError "EIO") waiting Hrun Hon)
    as (Hres & Hflag & _ & Hsock & _ & _ & Hrun' & Hshut').
  split; [exact Hrun|]. split; [exact Hon|]. split; [exact Hres|].
  split; [exact Hflag|]. split; [exact Hsock|].
  split; [exact (Hrun' ServerOk (always Connect) flushed)|].
  exact (Hshut' closes ServerOk).
Defined.

(** Bytes arriving on [peer]'s accepted connection change no table. *)
Lemma receive_socket_data_only_emits_witness :
  receive_listeners peer_once !! 1%nat = Some (peer, "127.0.0.1"%string, []) /\
  _sendSockets (receive_socket_data unpack packetSize 1 (txt "abcdef") peer_once)
    = _sendSockets peer_once /\
  _receiveSockets (receive_socket_data unpack packetSize 1 (txt "abcdef") peer_once)
    = _receiveSockets peer_once.
Proof.
  assert (Hl : receive_listeners peer_once !! 1%nat = Some (peer, "127.0.0.1"%string, []))
    by evaluated.
  destruct (receive_socket_data_only_emits unpack packetSize 1 (txt "abcdef") peer_once)
    as [_ Hsome].
  destruct (Hsome peer "127.0.0.1"%string [] Hl) as (_ & _ & _ & Hsend & Hrecv & _).
  split; [exact Hl|]. split; [exact Hsend | exact Hrecv].
Defined.

(** The port packet of port 1440 passes the check. *)
Lemma port_check_accepts_exactly_ten_digits_witness :
  incorrect_port (txt "0000001440") = false /\
  length (txt "0000001440") = 10%nat /\
  Forall (fun c => 48 <= N_of_ascii c <= 57) (txt "0000001440").
Proof.
  assert (Hok : incorrect_port (txt "0000001440") = false) by reflexivity.
  destruct (port_check_accepts_exactly_ten_digits (txt "0000001440")) as [[Hto _] _].
  split; [exact Hok | exact (Hto Hok)].
Defined.

(** Port 1440 is read back from its packet, which no other port sends. *)
Lemma port_packet_read_back_witness :
  1440 < 10 ^ 10 /\
  length (portPacket 1440) = 10%nat /\
  handshake_onData (portPacket 1440) = (Some (Resolved tt), 1440) /\
  (4010 < 10 ^ 10 -> portPacket 4010 = portPacket 1440 -> 4010 = 1440).
Proof.
  assert (Hport : 1440 < 10 ^ 10) by reflexivity.
  destruct (port_packet_read_back 1440 Hport) as (Hlen & Hread & Hinj).
  split; [exact Hport|]. split; [exact Hlen|]. split; [exact Hread|].
  exact (Hinj 4010).
Defined.

(** The port packet followed by the first bytes of a transaction, and the
    first six bytes of the port packet alone. *)
Lemma handshake_must_arrive_alone_witness :
  length (txt "0000004010") = 10%nat /\
  _receiveConnection from_alice (HandshakeData (txt "0000004010" ++ txt "ab"))
      Connect Flushed connected
    = (connected, Some (Rejected (IncorrectPort (txt "0000004010" ++ txt "ab")))) /\
  _receiveConnection from_alice (HandshakeData (take 6 (txt "0000004010")))
      Connect Flushed connected
    = (connected, Some (Rejected (IncorrectPort (take 6 (txt "0000004010"))))).
Proof.
  assert (Hlen : length (txt "0000004010") = 10%nat) by reflexivity.
  destruct (handshake_must_arrive_alone from_alice (txt "0000004010") (txt "ab")
              Connect Flushed connected Hlen) as [Hmore Hless].
  split; [exact Hlen|]. split.
  - apply Hmore. discriminate.
  - apply Hless. lia.
Defined.

(** The payload ["abc"] registers nothing. *)
Lemma failed_handshake_registers_nothing_witness :
  incorrect_port (txt "abc") = true /\
  _neighbors (_receiveConnection from_alice (HandshakeData (txt "abc"))
                Connect Flushed connected).1 = _neighbors connected /\
  _receiveSockets (_receiveConnection from_alice (HandshakeData (txt "abc"))
                     Connect Flushed connected).1 = _receiveSockets connected.
Proof.
  assert (Hbad : forall portString : text,
            HandshakeData (txt "abc") = HandshakeData portString ->
            incorrect_port portString = true).
  { intros portString Heq. injection Heq as <-. reflexivity. }
  destruct (failed_handshake_registers_nothing from_alice (HandshakeData (txt "abc"))
              Connect Flushed connected Hbad) as (_ & Htable & _ & _ & Hrecv & _).
  split; [reflexivity|]. split; [exact Htable | exact Hrecv].
Defined.

(** A connection over the loopback interface with [peer] in the table. *)
Lemma inbound_connection_admitted_or_dropped_witness :
  incorrect_port (txt "0000004010") = false /\
  getNeighbor with_peer (socket_address loop1) = Some peer /\
  _receiveSockets (_receiveConnection loop1 (HandshakeData (txt "0000004010"))
                     Connect Flushed with_peer).1 !! peer = Some 1%nat.
Proof.
  assert (Hok : incorrect_port (txt "0000004010") = false) by reflexivity.
  assert (Hget : getNeighbor with_peer (socket_address loop1) = Some peer) by evaluated.
  destruct (inbound_connection_admitted_or_dropped loop1 (txt "0000004010")
              Connect Flushed with_peer Hok) as (Hadmit & _ & _).
  destruct (Hadmit peer Hget eq_refl) as (_ & Hrecv & _).
  split; [exact Hok|]. split; [exact Hget | exact Hrecv].
Defined.

(** A connection accepted on 10.0.0.1 by a transport that knows nobody and
    receives unknown neighbors. *)
Lemma unknown_neighbor_is_admitted_witness :
  incorrect_port (txt "0000004010") = false /\
  getNeighbor open_door (socket_address from_alice) = None /\
  _receiveUnknownNeighbor open_door = true /\
  _neighbors (_receiveConnection from_alice (HandshakeData (txt "0000004010"))
                Connect Flushed open_door).1
    = [new_TcpNeighbor 0 "10.0.0.1" 4010] /\
  _receiveSockets (_receiveConnection from_alice (HandshakeData (txt "0000004010"))
                     Connect Flushed open_door).1
    !! new_TcpNeighbor 0 "10.0.0.1" 4010 = Some 7%nat.
Proof.
  assert (Hok : incorrect_port (txt "0000004010") = false) by reflexivity.
  assert (Hget : getNeighbor open_door (socket_address from_alice) = None) by reflexivity.
  assert (Hopen : _receiveUnknownNeighbor open_door = true) by reflexivity.
  destruct (unknown_neighbor_is_admitted from_alice (txt "0000004010")
              Connect Flushed open_door Hok Hget Hopen) as (_ & Htable & _ & Hrecv & _).
  split; [exact Hok|]. split; [exact Hget|]. split; [exact Hopen|].
  split; [exact Htable | exact Hrecv].
Defined.

(** The only step of the fresh transport that changes [isRunning] here is
    its [run()]. *)
Lemma isRunning_changes_only_on_run_and_shutdown_witness :
  step pack unpack packetSize fresh running /\
  _isRunning running ≠ _isRunning fresh /\
  ((_isRunning fresh = false /\ _isRunning running = true /\
      exists os ws, run ServerOk os ws fresh = (running, Resolved tt)) \/
   (_isRunning fresh = true /\ _isRunning running = false /\
      exists ds, shutdown ds ServerOk fresh = (running, Resolved tt))).
Proof.
  assert (Hstep : step pack unpack packetSize fresh running)
    by exact (step_run pack unpack packetSize ServerOk (always Connect) flushed fresh).
  assert (Hne : _isRunning running ≠ _isRunning fresh) by discriminate.
  split; [exact Hstep|]. split; [exact Hne|].
  exact (isRunning_changes_only_on_run_and_shutdown pack unpack packetSize
           fresh running Hstep Hne).
Defined.

(** The running transport with [bob] waiting has its timer armed. *)
Lemma timer_armed_exactly_while_running_witness :
  reachable pack unpack packetSize waiting /\
  _reconnectionTimer waiting = isRunning waiting.
Proof.
  split; [exact waiting_reachable|].
  exact (proj1 (timer_armed_exactly_while_running pack unpack packetSize
                  waiting waiting_reachable)).
Defined.

(** [alice], connected, is in the table and not in the reconnection set. *)
Lemma connected_neighbor_is_known_witness :
  reachable pack unpack packetSize waiting /\
  isConnectedTo waiting alice = true /\
  alice ∈ _neighbors waiting /\ (alice ∉ _neighborsToReconnect waiting).
Proof.
  assert (Hconn : isConnectedTo waiting alice = true) by evaluated.
  split; [exact waiting_reachable|]. split; [exact Hconn|].
  exact (connected_neighbor_is_known pack unpack packetSize alice waiting
           waiting_reachable Hconn).
Defined.

Lemma stopped_reachable : reachable pack unpack packetSize stopped.
Proof.
  destruct waiting_reachable as (h & p & i & r & Hrtc).
  exists h, p, i, r. eapply rtc_r; [exact Hrtc|].
  exact (step_shutdown pack unpack packetSize closes ServerOk waiting).
Qed.

(** The transport that ran with [alice] connected and [bob] waiting, and
    was then shut down, is connected to neither and has nobody left to
    reconnect. *)
Lemma idle_transport_has_no_connection_witness :
  reachable pack unpack packetSize stopped /\
  isRunning stopped = false /\
  isConnectedTo waiting alice = true /\
  _neighborsToReconnect waiting = [bob] /\
  isConnectedTo stopped alice = false /\
  isConnectedTo stopped bob = false /\
  _neighborsToReconnect stopped = [].
Proof.
  assert (Hidle : isRunning stopped = false) by evaluated.
  destruct (idle_transport_has_no_connection pack unpack packetSize stopped
              stopped_reachable Hidle) as [Hnone Hset].
  split; [exact stopped_reachable|]. split; [exact Hidle|].
  split; [evaluated|]. split; [evaluated|].
  split; [exact (Hnone alice)|]. split; [exact (Hnone bob) | exact Hset].
Defined.

(** [alice]'s send socket 0 and its open connection. *)
Lemma send_socket_entries_match_open_connections_witness :
  reachable pack unpack packetSize waiting /\
  _sendSockets waiting !! alice = Some 0%nat /\
  send_listeners waiting !! 0%nat = Some alice /\
  _sendSockets (send_socket_close 0 waiting) = delete alice (_sendSockets waiting).
Proof.
  assert (Hsock : _sendSockets waiting !! alice = Some 0%nat) by evaluated.
  destruct (send_socket_entries_match_open_connections pack unpack packetSize
              waiting waiting_reachable) as (Hiff & _ & Hclose).
  split; [exact waiting_reachable|]. split; [exact Hsock|].
  split; [exact (proj1 (Hiff alice 0%nat) Hsock)|].
  exact (proj1 (Hclose alice 0%nat Hsock)).
Defined.


(** In the earlier revision [bob], removed while waiting for reconnection,
    is connected by the next tick. *)
Lemma Legacy_removed_neighbor_is_reconnected_witness :
  bob ∈ _neighbors waiting /\
  bob ∈ _neighborsToReconnect waiting /\
  _sendSockets waiting !! bob = None /\
  (bob ∉ _neighbors (Legacy.removeNeighbor bob Close waiting).1) /\
  isConnectedTo
    (Legacy.reconnect (always Connect) (Legacy.removeNeighbor bob Close waiting).1) bob
    = true.
Proof.
  assert (Hknown : bob ∈ _neighbors waiting) by known.
  assert (Hset : bob ∈ _neighborsToReconnect waiting) by known.
  assert (Hsock : _sendSockets waiting !! bob = None) by evaluated.
  destruct (Legacy_removed_neighbor_is_reconnected bob Close (always Connect) waiting
              Hknown Hset Hsock) as (_ & Hgone & _ & Htick & _).
  split; [exact Hknown|]. split; [exact Hset|]. split; [exact Hsock|].
  split; [exact Hgone | exact (proj1 (Htick eq_refl))].
Defined.

(** In the earlier revision a socket error keeps [alice] in the table. *)
Lemma Legacy_removeNeighbor_fails_on_socket_error_witness :
  alice ∈ _neighbors connected /\
  _sendSockets connected !! alice = Some 0%nat /\
  Legacy.removeNeighbor alice (ErrorThenClose (SystemError "EPIPE")) connected
    = (log (FxDestroy (Outbound 0)) connected, Rejected (SystemError "EPIPE")) /\
  (removeNeighbor alice (ErrorThenClose (SystemError "EPIPE")) connected).2 = Resolved tt.
Proof.
  assert (Hknown : alice ∈ _neighbors connected) by known.
  assert (Hsock : _sendSockets connected !! alice = Some 0%nat) by evaluated.
  destruct (Legacy_removeNeighbor_fails_on_socket_error alice 0%nat
              (SystemError "EPIPE") connected Hknown Hsock) as (Hold & Hnew & _).
  split; [exact Hknown|]. split; [exact Hsock|]. split; [exact Hold | exact Hnew].
Defined.

(** Sending to [mute], connected and forbidden, in the two revisions. *)
Lemma Legacy_send_differs_only_on_permission_witness :
  gatewayCanSendTo mute = false /\
  _sendSockets with_mute !! mute = Some 0%nat /\
  Legacy.send pack (txt "ab") mute Flushed with_mute
    = (log (FxWrite (Outbound 0) (pack (txt "ab"))) with_mute, Resolved tt) /\
  send pack (txt "ab") mute Flushed with_mute
    = (with_mute, Rejected (SendForbidden (address mute))).
Proof.
  assert (Hsock : _sendSockets with_mute !! mute = Some 0%nat) by evaluated.
  destruct (Legacy_send_differs_only_on_permission pack (txt "ab") mute Flushed with_mute)
    as [_ Hforbidden].
  split; [reflexivity|]. split; [exact Hsock|].
  exact (Hforbidden 0%nat eq_refl Hsock).
Defined.

(** [addNeighbor(bob)] on the running transport, the connection closed
    before it connects. *)
Lemma Legacy_addNeighbor_hangs_on_close_witness :
  (bob ∉ _neighbors connected) /\
  _isRunning connected = true /\
  (Legacy.addNeighbor bob ConnectClose connected).2 = None /\
  (addNeighbor bob ConnectClose Flushed connected).2 = Resolved tt.
Proof.
  assert (Hbob : bob ∉ _neighbors connected) by unknown.
  assert (Hrun : _isRunning connected = true) by reflexivity.
  destruct (Legacy_addNeighbor_hangs_on_close bob ConnectClose Flushed connected
              Hbob Hrun) as [Hclose _].
  destruct (Hclose eq_refl) as (Hold & _ & Hnew & _).
  split; [exact Hbob|]. split; [exact Hrun|]. split; [exact Hold | exact Hnew].
Defined.

(** Six bytes arrive on [peer]'s connection as two and four. *)
Lemma received_packets_do_not_depend_on_segmentation_witness :
  (0 < packetSize)%nat /\
  receive_socket_data unpack packetSize 1 (txt "cdef")
      (receive_socket_data unpack packetSize 1 (txt "ab") peer_once)
  = receive_socket_data unpack packetSize 1 (txt "ab" ++ txt "cdef") peer_once.
Proof.
  assert (Hpos : (0 < packetSize)%nat) by (unfold packetSize; lia).
  split; [exact Hpos|].
  exact (received_packets_do_not_depend_on_segmentation unpack packetSize
           1%nat (txt "ab") (txt "cdef") peer_once Hpos).
Defined.

(** The packets of ["ab"] and ["cdef"] arrive as three bytes and five. *)
Lemma sent_packets_are_received_witness :
  (0 < packetSize)%nat /\
  (forall data, length (pack data) = packetSize) /\
  receive_listeners peer_once !! 1%nat = Some (peer, "127.0.0.1"%string, []) /\
  txt "ab0" ++ txt "0cdef" = concat (map pack [txt "ab"; txt "cdef"]) /\
  trace (receive_socket_data unpack packetSize 1 (txt "0cdef")
           (receive_socket_data unpack packetSize 1 (txt "ab0") peer_once))
    = trace peer_once
        ++ [FxEmit (EvReceive (txt "ab00") peer "127.0.0.1");
            FxEmit (EvReceive (txt "cdef") peer "127.0.0.1")].
Proof.
  assert (Hpos : (0 < packetSize)%nat) by (unfold packetSize; lia).
  assert (Hl : receive_listeners peer_once !! 1%nat
               = Some (peer, "127.0.0.1"%string, [])) by evaluated.
  assert (Hcut : txt "ab0" ++ txt "0cdef" = concat (map pack [txt "ab"; txt "cdef"]))
    by reflexivity.
  split; [exact Hpos|]. split; [exact Scenario_pack_size|].
  split; [exact Hl|]. split; [exact Hcut|].
  exact (proj1 (sent_packets_are_received pack unpack packetSize
                  [txt "ab"; txt "cdef"] 1%nat peer "127.0.0.1"%string
                  (txt "ab0") (txt "0cdef") peer_once
                  Hpos Scenario_pack_size Hl Hcut)).
Defined.
